(* ===== verification/_CoqProject ===== *)
-Q . S2P
Prelude.v
Konva.v
Token.v
FontFit.v
Node.v
StateManager.v
Handlers.v
Safety.v
Gestures.v
Builder.v
Drag.v
Snap.v
TransitionDrag.v
Unguarded.v
