(* ===== verification/Prelude.v ===== *)
(** * AutomatonBuilderGUI: a verification development of the node and token wrappers

    The repository is the editor of finite-automaton diagrams
    AutomatonBuilderGUI.  Its two source files are [src/NodeWrapper.ts], the
    class that binds one automaton state (id, label, accept flag, position)
    to its Konva view and handles every pointer event on it, and
    [src/TokenWrapper.ts], the identity-stable transition symbol.  Both talk
    to a process-wide [StateManager] (current tool, selection, tentative
    transition, transitions, snap-to-grid flag, action log) which is not
    under src/: it is modelled from the spec (section 4 and 6) and marked so
    in the manifest.

    ** Files and what they model

    - [Prelude] (this file): JavaScript numbers as exact rationals [Q],
      [Math.round] ([js_round]), [Math.abs] with the [> 1e-5] test
      ([js_far]), [Vector2d], the [uuidv4] generator (stdpp's [fresh] over
      the set of issued ids), a state-and-exception monad [js S A] whose
      exceptions keep the mutations made before the throw (JavaScript
      semantics on a shared object), [forEach] over a list in that monad,
      the hint database [automaton], the shared lemmas, and [js_preserves R m]
      (every normal return of [m] is an [R]-step) with the tactic
      [frame_tac] that proves it for a preorder [R] through binds, loops
      and branches down to the leaf lemmas each frame supplies.
    - [Konva]: the slice of the Konva scene graph the code calls: circles,
      texts, groups with named children, [find]/[destroy] by name.
    - [Token]: [TokenWrapper] (constructor with [??] defaults,
      [toSerializable]); fresh ids and the serialization round trip.
    - [FontFit]: the two [while] loops of [NodeWrapper.adjustFontSize] over
      an abstract text-measuring function; termination with the loop guard
      false at exit, bounds [10..15], and the size at which each loop
      stops.
    - [Node]: [NodeWrapper]: its fields as a record with the Konva view
      optional (it exists only after [createKonvaObjects]), every method that
      changes state as a [js NodeWrapper] action (select/deselect, accept
      flag, shadows, glow, label setter, colour scheme, error overlay,
      [setPosition], [toSerializable], the pure grid rounding of
      [snapToGrid]).
    - [StateManager]: the shared state of the editor as one record over a
      heap [gmap positive Obj] of nodes and transitions (so aliasing of the
      selection, the tentative target and the transition endpoints is the
      aliasing of references), the selection operations, the tentative
      transition, the action log as a trace of calls, and the 'move'
      notification that makes transitions recompute their points.
    - [Handlers]: [onClick], [onMouseEnter], [onMouseLeave], [onDragStart],
      [onDragMove], [onDragEnd] and [snapToGrid] of NodeWrapper over the
      StateManager, in source order, every StateManager call and node
      mutation included; the Konva drag protocol around them
      ([konva_dragstart], [konva_dragmove], [konva_dragend]); the event
      dispatcher [dispatch] (the listeners [createKonvaObjects] installs,
      plus the tool and snap toggles and adding a state), the browser's
      [event_loop] and the states [reachable] from an empty diagram.
    - [Safety]: the invariant [wf] of the whole editor and the Hoare-style
      [safe_at] (returns normally, keeps [wf], keeps each heap cell's class
      and a transition's endpoints), composed through [bind], [forEach] and
      [foldl]; every handler is [safe_at] on a node, the drag handlers by
      the statement-by-statement tactic [safe_tac].
    - [Gestures]: frame relations ([quiet], [pos_frame]), the node-method
      frame [keeps g m] ([m] leaves the reading [g] of the node unchanged,
      proved by [keeps_tac]), the shadow flag of a node's background
      circle ([shadow_at]: the drag drop shadow and the candidate-target
      glow are the same Konva flag), and the functional contracts of the
      click, the group drag and releasing a drawn transition, against what
      the pointer asks for ([translate], [clicked_selection]).
    - [Builder]: the state machine of spec section 4.4 (idle, or drawing
      from a source with an optional target; [Begin], [Hover], [Leave],
      [Finish]) together with the diagram's set of edges, as a labelled
      step relation with stuttering; the abstraction [abs] of the editor's
      state onto it; and the refinement proof, built from one lemma per
      handler that says which step it takes.
    - [Drag]: whole drag gestures (Konva's [dragstart], any number of
      [dragmove]s, [dragend]) with the Select tool: the frames [gkeep]
      (log, tool, snap flag, dragging flags), [still] ([gkeep] and every
      position) and [cells g] (the reading [g] of every node, hence the
      class of every reference; [cells node_shadow] is the frame of the
      shadow flags), proved for the operations by [gkeep_tac], [still_tac]
      and [cells_tac]; the selection [onDragStart] leaves
      ([dragstart_selection]); one lemma per event, composed by induction
      on the pointer moves.
    - [Snap]: the snapping branch of [onDragEnd]: [snapToGrid] on one node,
      the loop over the selected nodes ([snap_body]), and the release as a
      whole, with the frame [qnodes] (redrawing transitions keeps every
      node cell).
    - [TransitionDrag]: a whole drag with the Transitions tool, following
      the node's cell ([lastPos], position, dragging flag) through
      [onDragStart], each [onDragMove] and the end of the tentative
      transition.
    - [Unguarded]: gestures spec sections 4.4 and 9 leave open, composed
      from the event lemmas of the files above: the whole drawing gesture
      (a self-loop when the source is entered again), a tool switch in
      the middle of a Transitions gesture, and a pointer move under the
      States tool.  It comes last: no other file depends on it.

    ** What the theorems show

    - invariant ([Safety.reachable_wf]): every reachable state is well
      formed (selection without duplicates, naming live objects, in sync
      with every object's selected look; references below the allocation
      counter; transitions between nodes; a tentative target only while a
      tentative transition is in progress), and no handler throws on it;
    - refinement ([Builder.reachable_refines]): every reachable state reads
      as a reachable state of the builder machine and every event on it is
      one step of the machine, so edges are only added by a release over a
      target, from the drawing's source to that target;
    - liveness ([Builder.builder_recovers]): from every well-formed state,
      choosing the Transitions tool, pressing on a node and releasing it
      returns the builder to idle with the edges unchanged;
    - gestures ([Gestures], [Builder]): a click selects exactly as spec
      section 4.2 asks; a Select drag moves the anchor to the pointer and
      every other selected node by the pointer's movement, exactly once,
      and nothing else; entering a node sets the target, a stale
      mouse-leave changes nothing; entering lights the glow and leaving
      the target switches it off; releasing a drawn transition adds the
      edge once, never removes one, and clears the tentative state;
    - drag start ([Drag.dragstart_select_contract]): with the Select tool
      a press returns normally, leaves the selection spec section 4.3
      describes for a single selected object (and appends the node in
      every other case), shows the drop shadow on every selected node and
      on no other new one, and logs the start at the node's position;
    - whole drags ([Drag], [Snap], [TransitionDrag]): a Select drag
      without snapping, through any number of moves, logs exactly one
      [StartDragStatesOperation] at the start position and one
      [CompleteDragStatesOperation] at the last pointer position, and
      removes the drop shadow from every selected node; a
      release with snapping on puts every selected node on the grid point
      nearest to it, moves nothing else, and commits the move exactly when
      the snapped position differs from [lastSnappedPos]; a whole Select
      drag with snapping on ends at the grid point nearest to the last
      pointer position, committed exactly when it differs from the
      [lastSnappedPos] the node had before the drag, and every selected
      node keeps its drop shadow (the snapping branch never removes it,
      against spec section 4.3); a drag with the Transitions tool moves no
      node at all and keeps [lastPos] at the start position;
    - snapping history ([Snap]): [lastSnappedPos] starts at (0, 0), so
      the first snapped drag back onto a node's own grid point is still
      committed; only the dragged node's [lastSnappedPos] is updated, so
      the followers of a group drag keep a stale one;
    - open gestures ([Unguarded]): pressing, entering a node and releasing
      adds exactly that edge, a self-loop when the node entered is the
      source; switching from Transitions to Select mid-gesture leaves the
      tentative transition open and logs a Complete with no Start; a move
      under the States tool moves the dragged node and changes no other
      heap cell, so its transitions go stale;
    - type ([Node.node_view_ok]): under a colour scheme that does not use
      the error colours, every method keeps a node's view in agreement
      with its fields (accept circle, label text), its group holding the
      three shapes plus at most one error overlay, and the background in
      the error look (light-red fill, dark-red border) only while that
      overlay is shown;
    - equivalence ([Node.snap_coord_int]): on integer coordinates the
      rounding of [snapToGrid] is the floor-division expression
      [(c + 25) div 50 * 50];
    - selection ([StateManager]): [selectObject] and [deselectAllObjects]
      against the [Selectable] interface that nodes and transitions
      implement;
    - identity: a token constructed without an id draws one never issued
      before, and keeps a given one;
    - round trips: [toSerializable] after deserialization gives back the
      serialized record, for tokens and for nodes; the accept flag is lost;
    - grid snapping: [js_round]-based rounding lands on a multiple of 50,
      within 25 of the input, with no multiple of 50 closer;
    - error overlay: after [setErrorState b] there is exactly one (or no)
      error icon and glyph whatever the previous state;
    - errors: the setters on a headless node throw [TypeError] after
      mutating the field;
    - font fitting: both loops terminate within their fuel, the size stays
      in its bounds, and the growing loop stops at the first size that is
      no longer narrower than the maximum, which can be wider than it.

    ** Bounds and modelling choices

    JavaScript numbers are modelled as exact rationals: positions come from
    the pointer (integers) and from additions of pointer deltas, and the
    only rounding the code does is [Math.round], modelled exactly as
    [floor (q + 1/2)].  Floating-point error of [p / 50] is not modelled.
    Loops of [adjustFontSize] run on fuel [Z.to_nat (fs - 10)] and
    [Z.to_nat (15 - fs)], which the termination theorems show to be enough
    (the guard is false at exit).  Rendering ([batchDraw]), colours as
    pixels and text metrics are not modelled: the text measure is a
    parameter.  Konva's drag-and-drop is modelled only as far as the
    handlers observe it: the anchor's position set before [dragmove] and
    [stopDrag].  The StateManager, the TransitionWrapper (endpoints,
    points, selected look, 'move' listener) and the action log are not
    under src/ and are modelled from the spec; undo/redo, the toolbar,
    persistence to files, arrow geometry and token editing are not
    modelled.  Witnesses evaluate the model by [vm_compute] on a
    diagram of two states; the theorems quantify over every
    well-formed state, and the gesture theorems over every list of pointer
    moves (no bound: they are proved by induction on the list). *)

From stdpp Require Export base list gmap strings.
From Stdlib Require Export QArith Qround Qabs Lqa.

Declare Scope automaton_scope.
Delimit Scope automaton_scope with auto.
Open Scope automaton_scope.

(** ** JavaScript numbers *)

(** [Math.round x]: the integer closest to [x], ties towards +infinity. *)
Definition js_round (q : Q) : Z := Qfloor (q + (1 # 2)).

(** [Math.abs (a - b) > eps], the test of [onDragEnd]. *)
Definition js_far (eps a b : Q) : bool := negb (Qle_bool (Qabs (a - b)) eps).

(** [a < b] on numbers, as a boolean. *)
Definition js_lt (a b : Q) : bool := negb (Qle_bool b a).

(** Konva's [Vector2d]. *)
Record Vector2d := Vec { vx : Q; vy : Q }.

Definition v2_add (p : Vector2d) (dx dy : Q) : Vector2d :=
  Vec (vx p + dx) (vy p + dy).

(** Vectors up to [Qeq] on both coordinates. *)
Definition v2_eq (p q : Vector2d) : Prop := (vx p == vx q)%Q /\ (vy p == vy q)%Q.

Notation "p ≡ᵥ q" := (v2_eq p q) (at level 70) : automaton_scope.

(** ** The uuid generator

    [uuidv4()] is modelled as a draw from stdpp's [fresh] over the set of
    ids issued so far, which grows by the drawn id. *)
Definition uuidv4 (issued : gset string) : string * gset string :=
  let u := fresh issued in (u, {[u]} ∪ issued).

(** ** Exceptions and state: the [js] monad

    A method of a JavaScript object runs on the object and can throw; the
    mutations done before a throw stay.  [js S A] is a state monad whose
    result is [Ok a] or [Err e], always returning the state reached. *)
Inductive js_error :=
| TypeError (what : string).

Inductive result (A : Type) : Type :=
| Ok (a : A)
| Err (e : js_error).
Arguments Ok {A} a.
Arguments Err {A} e.

Definition js (S A : Type) : Type := S -> S * result A.

Definition js_ret {S A} (a : A) : js S A := fun s => (s, Ok a).

Definition js_bind {S A B} (m : js S A) (f : A -> js S B) : js S B :=
  fun s => match m s with
           | (s', Ok a) => f a s'
           | (s', Err e) => (s', Err e)
           end.

Definition js_throw {S A} (e : js_error) : js S A := fun s => (s, Err e).
Definition js_get {S} : js S S := fun s => (s, Ok s).
Definition js_put {S} (s : S) : js S unit := fun _ => (s, Ok tt).
Definition js_modify {S} (f : S -> S) : js S unit := fun s => (f s, Ok tt).

Notation "'let*' x ':=' m 'in' k" := (js_bind m (fun x => k))
  (at level 10, x name, m at level 100, k at level 200) : automaton_scope.
Notation "'do*' m ; k" := (js_bind m (fun _ => k))
  (at level 10, m at level 100, k at level 200) : automaton_scope.

(** [list.forEach(f)]: the body runs on each element in order; a throw
    stops the loop. *)
Fixpoint js_forEach {S A} (f : A -> js S unit) (l : list A) : js S unit :=
  match l with
  | [] => js_ret tt
  | a :: l' => do* f a; js_forEach f l'
  end.

(** A [forEach] whose body updates a local variable of the caller: a
    left fold in the monad. *)
Fixpoint js_foldl {S A B} (f : B -> A -> js S B) (acc : B) (l : list A) : js S B :=
  match l with
  | [] => js_ret acc
  | a :: l' => let* acc' := f acc a in js_foldl f acc' l'
  end.

(** ** Shared automation *)

Create HintDb automaton.

Ltac js_unfold :=
  unfold js_bind, js_ret, js_throw, js_get, js_put, js_modify in *.

(** ** Shared lemmas *)

Section Rounding.
Local Open Scope Q_scope.

Lemma Qfloor_unique (x : Q) (z : Z) :
  inject_Z z <= x -> x < inject_Z (z + 1) -> Qfloor x = z.
Proof.
  intros Hlo Hhi. apply Z.le_antisymm.
  - assert (Hf : (Qfloor x < z + 1)%Z).
    { rewrite Zlt_Qlt. pose proof (Qfloor_le x). lra. }
    lia.
  - rewrite <- (Qfloor_Z z). now apply Qfloor_resp_le.
Qed.

(** [Math.round q] is within one half of [q], ties going up. *)
Lemma js_round_spec (q : Q) :
  inject_Z (js_round q) - (1 # 2) <= q /\ q < inject_Z (js_round q) + (1 # 2).
Proof.
  unfold js_round. pose proof (Qfloor_le (q + (1 # 2))) as Hle.
  pose proof (Qlt_floor (q + (1 # 2))) as Hlt.
  rewrite inject_Z_plus in Hlt. change (inject_Z 1) with 1 in Hlt. split; lra.
Qed.

Lemma js_round_char (q : Q) (z : Z) :
  inject_Z z - (1 # 2) <= q -> q < inject_Z z + (1 # 2) -> js_round q = z.
Proof.
  intros Hlo Hhi. unfold js_round. apply Qfloor_unique.
  - lra.
  - rewrite inject_Z_plus. change (inject_Z 1) with 1. lra.
Qed.

Lemma js_round_Z (z : Z) : js_round (inject_Z z) = z.
Proof. apply js_round_char; lra. Qed.

#[export] Instance js_round_Proper : Proper (Qeq ==> eq) js_round.
Proof. intros a b H. unfold js_round. now rewrite H. Qed.

(** [Math.round] picks a nearest integer. *)
Lemma js_round_nearest (q : Q) (k : Z) :
  Qabs (q - inject_Z (js_round q)) <= Qabs (q - inject_Z k).
Proof.
  destruct (js_round_spec q) as [Hlo Hhi].
  set (r := js_round q) in *.
  destruct (Z.lt_trichotomy k r) as [Hk | [-> | Hk]].
  - assert (Hk' : inject_Z k + 1 <= inject_Z r).
    { change 1 with (inject_Z 1). rewrite <- inject_Z_plus, <- Zle_Qle. lia. }
    apply Qabs_case; intros; apply Qabs_case; intros; lra.
  - lra.
  - assert (Hk' : inject_Z r + 1 <= inject_Z k).
    { change 1 with (inject_Z 1). rewrite <- inject_Z_plus, <- Zle_Qle. lia. }
    apply Qabs_case; intros; apply Qabs_case; intros; lra.
Qed.

Lemma js_far_spec (eps a b : Q) : js_far eps a b = true <-> eps < Qabs (a - b).
Proof.
  unfold js_far. rewrite negb_true_iff. split.
  - intros H. apply Qnot_le_lt. intros Hle. apply Qle_bool_iff in Hle. congruence.
  - intros H. destruct (Qle_bool _ _) eqn:E; [|done].
    apply Qle_bool_iff in E. lra.
Qed.

Lemma js_lt_spec (a b : Q) : js_lt a b = true <-> a < b.
Proof.
  unfold js_lt. rewrite negb_true_iff. split.
  - intros H. apply Qnot_le_lt. intros Hle. apply Qle_bool_iff in Hle. congruence.
  - intros H. destruct (Qle_bool _ _) eqn:E; [|done]. apply Qle_bool_iff in E. lra.
Qed.

Lemma js_lt_false (a b : Q) : js_lt a b = false <-> b <= a.
Proof.
  unfold js_lt. rewrite negb_false_iff. apply Qle_bool_iff.
Qed.

(** On integers, [Math.abs (a - b) > 1e-5] is [a <> b]. *)
Lemma js_far_Z (a b : Z) :
  js_far (1 # 100000) (inject_Z a) (inject_Z b) = true <-> a <> b.
Proof.
  rewrite js_far_spec. split.
  - intros H ->. assert (Hz : inject_Z b - inject_Z b == 0) by ring.
    rewrite Hz in H. vm_compute in H. discriminate.
  - intros Hne. destruct (Z.lt_total a b) as [Hl | [Hl | Hl]]; [| done |].
    + assert (inject_Z a + 1 <= inject_Z b).
      { change 1 with (inject_Z 1). rewrite <- inject_Z_plus, <- Zle_Qle. lia. }
      apply Qabs_case; intros; lra.
    + assert (inject_Z b + 1 <= inject_Z a).
      { change 1 with (inject_Z 1). rewrite <- inject_Z_plus, <- Zle_Qle. lia. }
      apply Qabs_case; intros; lra.
Qed.

End Rounding.

(** ** Lists *)

Lemma filter_filter_disjoint {A} (P Q : A -> Prop) `{forall x, Decision (P x)}
    `{forall x, Decision (Q x)} (l : list A) :
  (forall x, P x -> ~ Q x) -> filter Q (filter P l) = [].
Proof.
  intros HPQ. induction l as [|a l IH]; [done|].
  rewrite filter_cons. case_decide as HP; [|done].
  rewrite filter_cons. case_decide as HQ; [|done]. by destruct (HPQ a HP HQ).
Qed.

Lemma filter_idem {A} (P : A -> Prop) `{forall x, Decision (P x)} (l : list A) :
  filter P (filter P l) = filter P l.
Proof.
  induction l as [|a l IH]; [done|].
  rewrite filter_cons. case_decide; [|done]. rewrite filter_cons. case_decide; [|done].
  by rewrite IH.
Qed.

(** ** Monad laws used by the components *)

Lemma js_bind_ok {S A B} (m : js S A) (f : A -> js S B) s s' a :
  m s = (s', Ok a) -> js_bind m f s = f a s'.
Proof. intros H. unfold js_bind. by rewrite H. Qed.

(** A bind that returned normally ran its first action to a value. *)
Lemma js_bind_inv {S A B} (m : js S A) (f : A -> js S B) s s' b :
  js_bind m f s = (s', Ok b) -> exists s1 a, m s = (s1, Ok a) /\ f a s1 = (s', Ok b).
Proof. unfold js_bind. destruct (m s) as [s1 [a|e]]; [eauto | discriminate]. Qed.

Lemma js_bind_err {S A B} (m : js S A) (f : A -> js S B) s s' e :
  m s = (s', Err e) -> js_bind m f s = (s', Err e).
Proof. intros H. unfold js_bind. by rewrite H. Qed.

Lemma js_bind_get {S A} (f : S -> js S A) s : js_bind js_get f s = f s s.
Proof. reflexivity. Qed.

Lemma js_forEach_app {S A} (f : A -> js S unit) l1 l2 s :
  js_forEach f (l1 ++ l2) s = js_bind (js_forEach f l1) (fun _ => js_forEach f l2) s.
Proof.
  revert s. induction l1 as [|a l1 IH]; intros s; [done|].
  cbn [js_forEach app]. unfold js_bind.
  destruct (f a s) as [s' [[]|e]]; [|done].
  specialize (IH s'). unfold js_bind in IH. exact IH.
Qed.

(** [m] relates its start and end states by [R] whenever it returns
    normally (a partial-correctness frame; totality comes separately). *)
Definition js_preserves {S A} (R : S -> S -> Prop) (m : js S A) : Prop :=
  forall s s' a, m s = (s', Ok a) -> R s s'.

Section Preserves.
Context {S : Type} (R : S -> S -> Prop) `{!PreOrder R}.

Lemma js_preserves_ret {A} (a : A) : js_preserves R (js_ret a).
Proof. intros s s' b E. injection E as <-. reflexivity. Qed.

Lemma js_preserves_get : js_preserves R js_get.
Proof. intros s s' b E. injection E as <-. reflexivity. Qed.

Lemma js_preserves_bind {A B} (m : js S A) (f : A -> js S B) :
  js_preserves R m -> (forall a, js_preserves R (f a)) -> js_preserves R (js_bind m f).
Proof.
  intros Hm Hf s s' b E. unfold js_bind in E.
  destruct (m s) as [s1 [a|e]] eqn:E1; [|discriminate].
  transitivity s1; [by apply (Hm s s1 a) | by apply (Hf a s1 s' b)].
Qed.

Lemma js_preserves_forEach {A} (body : A -> js S unit) (l : list A) :
  (forall x, x ∈ l -> js_preserves R (body x)) -> js_preserves R (js_forEach body l).
Proof.
  induction l as [|x l IH]; intros Hb; simpl; [apply js_preserves_ret|].
  apply js_preserves_bind; [apply Hb; set_solver | intros _; apply IH; intros; apply Hb; set_solver].
Qed.

Lemma js_preserves_foldl {A B} (f : B -> A -> js S B) (acc : B) (l : list A) :
  (forall acc x, x ∈ l -> js_preserves R (f acc x)) -> js_preserves R (js_foldl f acc l).
Proof.
  revert acc. induction l as [|x l IH]; intros acc Hf; simpl; [apply js_preserves_ret|].
  apply js_preserves_bind; [apply Hf; set_solver | intros a; apply IH; intros; apply Hf; set_solver].
Qed.

End Preserves.

Lemma js_preserves_weaken {S A} (R R' : S -> S -> Prop) (m : js S A) :
  (forall s s', R s s' -> R' s s') -> js_preserves R m -> js_preserves R' m.
Proof. intros HR Hm s s' a E. exact (HR _ _ (Hm s s' a E)). Qed.

Lemma js_preserves_modify {S} (R : S -> S -> Prop) (f : S -> S) :
  (forall s, R s (f s)) -> js_preserves R (js_modify f).
Proof. intros Hf s s' a E. injection E as <- _. apply Hf. Qed.

(** Proving that a program keeps a preorder [R], statement by statement:
    the rules above for the monad's combinators and the branches, and the
    tactic [leaf] for the calls the program makes. *)
Ltac frame_tac R leaf :=
  repeat match goal with
  | |- forall _, _ => intros
  | |- PreOrder _ => apply _
  | |- js_preserves R (js_bind _ _) => apply js_preserves_bind
  | |- js_preserves R js_get => apply js_preserves_get
  | |- js_preserves R (js_ret _) => apply js_preserves_ret
  | |- js_preserves R (js_forEach _ _) => apply js_preserves_forEach
  | |- js_preserves R (js_foldl _ _ _) => apply js_preserves_foldl
  | |- js_preserves R ((fun _ => _) _) => cbv beta
  | |- js_preserves R (if ?b then _ else _) => destruct b
  | |- js_preserves R (match ?x with _ => _ end) => destruct x
  | |- js_preserves R _ => leaf
  end.

(** A loop whose body never throws on the elements it visits does not
    throw; its final state is the fold of the bodies' states. *)
Lemma js_forEach_total {S A} (f : A -> js S unit) (g : A -> S -> S) l s :
  (forall a s, a ∈ l -> f a s = (g a s, Ok tt)) ->
  js_forEach f l s = (foldl (fun s a => g a s) s l, Ok tt).
Proof.
  revert s. induction l as [|a l IH]; intros s Hf; [done|].
  simpl. rewrite (js_bind_ok _ _ _ (g a s) tt); [| apply Hf; set_solver].
  apply IH. intros; apply Hf; set_solver.
Qed.
