(* ===== verification/Konva.v ===== *)
(** * The slice of the Konva scene graph that NodeWrapper calls

    Konva is a library the sources only call: its shapes are modelled as
    records holding the attributes the code reads or writes, its getters
    and setters as record updates, and a group's children as a list of
    named shapes so that [find('.errorIcon, .errorText')] and [destroy] can
    be stated.  Attributes the code never touches (radius of the error icon,
    offsets of the error glyph, hit regions) are left out. *)

From S2P Require Import Prelude.

Module Konva.

(** [Konva.Circle]: shadow attributes follow Konva's defaults
    ([shadowEnabled] is true, no shadow colour until one is set). *)
Record Circle := mkCircle {
  c_radius : Q;
  c_fill : string;
  c_stroke : string;
  c_strokeWidth : Q;
  c_visible : bool;
  c_shadowEnabled : bool;
  c_shadowColor : option string;
  c_shadowOffset : Vector2d;
  c_shadowOpacity : Q;
  c_shadowBlur : Q }.

Definition circle (radius : Q) (fill stroke : string) (strokeWidth : Q) (visible : bool) : Circle :=
  mkCircle radius fill stroke strokeWidth visible true None (Vec 0 0) 1 0.

Definition set_fill (v : string) (c : Circle) : Circle :=
  mkCircle (c_radius c) v (c_stroke c) (c_strokeWidth c) (c_visible c) (c_shadowEnabled c)
    (c_shadowColor c) (c_shadowOffset c) (c_shadowOpacity c) (c_shadowBlur c).

Definition set_stroke (v : string) (c : Circle) : Circle :=
  mkCircle (c_radius c) (c_fill c) v (c_strokeWidth c) (c_visible c) (c_shadowEnabled c)
    (c_shadowColor c) (c_shadowOffset c) (c_shadowOpacity c) (c_shadowBlur c).

Definition set_strokeWidth (v : Q) (c : Circle) : Circle :=
  mkCircle (c_radius c) (c_fill c) (c_stroke c) v (c_visible c) (c_shadowEnabled c)
    (c_shadowColor c) (c_shadowOffset c) (c_shadowOpacity c) (c_shadowBlur c).

Definition set_visible (v : bool) (c : Circle) : Circle :=
  mkCircle (c_radius c) (c_fill c) (c_stroke c) (c_strokeWidth c) v (c_shadowEnabled c)
    (c_shadowColor c) (c_shadowOffset c) (c_shadowOpacity c) (c_shadowBlur c).

Definition set_shadowEnabled (v : bool) (c : Circle) : Circle :=
  mkCircle (c_radius c) (c_fill c) (c_stroke c) (c_strokeWidth c) (c_visible c) v
    (c_shadowColor c) (c_shadowOffset c) (c_shadowOpacity c) (c_shadowBlur c).

(** The four shadow attributes set together by the glow and drop-shadow
    methods. *)
Definition set_shadow (color : string) (offset : Vector2d) (opacity blur : Q) (c : Circle) : Circle :=
  mkCircle (c_radius c) (c_fill c) (c_stroke c) (c_strokeWidth c) (c_visible c)
    (c_shadowEnabled c) (Some color) offset opacity blur.

(** [Konva.Text]. *)
Record Text := mkText {
  t_text : string;
  t_fontSize : Z;
  t_fill : string;
  t_wrap : string;
  t_align : string;
  t_verticalAlign : string;
  t_width : Q;
  t_height : Q }.

Definition set_text (v : string) (t : Text) : Text :=
  mkText v (t_fontSize t) (t_fill t) (t_wrap t) (t_align t) (t_verticalAlign t) (t_width t) (t_height t).

Definition set_fontSize (v : Z) (t : Text) : Text :=
  mkText (t_text t) v (t_fill t) (t_wrap t) (t_align t) (t_verticalAlign t) (t_width t) (t_height t).

Definition set_textFill (v : string) (t : Text) : Text :=
  mkText (t_text t) (t_fontSize t) v (t_wrap t) (t_align t) (t_verticalAlign t) (t_width t) (t_height t).

Definition set_layout (wrap align valign : string) (t : Text) : Text :=
  mkText (t_text t) (t_fontSize t) (t_fill t) wrap align valign (t_width t) (t_height t).

(** The kinds of shape a node's group holds, and a child as a kind with
    its Konva [name] (the empty string when none is given). *)
Inductive ShapeKind :=
| KBackground
| KAcceptCircle
| KLabel
| KErrorIcon
| KErrorText.

#[export] Instance ShapeKind_eq_dec : EqDecision ShapeKind.
Proof. solve_decision. Defined.

Record Child := mkChild { ch_kind : ShapeKind; ch_name : string }.

#[export] Instance Child_eq_dec : EqDecision Child.
Proof. solve_decision. Defined.

(** [Konva.Group]: position, draggable flag, whether a drag is in
    progress (Konva's own state, set before [dragstart] and cleared by
    [stopDrag] and at the end of the drag), children, destroyed flag. *)
Record Group := mkGroup {
  g_pos : Vector2d;
  g_draggable : bool;
  g_dragging : bool;
  g_children : list Child;
  g_destroyed : bool }.

Definition set_position (p : Vector2d) (g : Group) : Group :=
  mkGroup p (g_draggable g) (g_dragging g) (g_children g) (g_destroyed g).

Definition set_dragging (b : bool) (g : Group) : Group :=
  mkGroup (g_pos g) (g_draggable g) b (g_children g) (g_destroyed g).

Definition set_children (cs : list Child) (g : Group) : Group :=
  mkGroup (g_pos g) (g_draggable g) (g_dragging g) cs (g_destroyed g).

Definition add_child (c : Child) (g : Group) : Group :=
  set_children (g_children g ++ [c]) g.

(** [group.find(sel).forEach(el => el.destroy())] for a selector that is a
    list of names: every child whose name is in the list is removed. *)
Definition destroy_named (names : list string) (g : Group) : Group :=
  set_children (filter (fun c => ch_name c ∉ names) (g_children g)) g.

Definition destroy (g : Group) : Group :=
  mkGroup (g_pos g) (g_draggable g) false (g_children g) true.

Lemma destroy_named_no_match (names : list string) (g : Group) c :
  c ∈ g_children (destroy_named names g) -> ch_name c ∉ names.
Proof.
  unfold destroy_named, set_children. simpl. rewrite list_elem_of_filter. tauto.
Qed.

Lemma destroy_named_keeps (names : list string) (g : Group) c :
  c ∈ g_children g -> ch_name c ∉ names -> c ∈ g_children (destroy_named names g).
Proof.
  unfold destroy_named, set_children. simpl. rewrite list_elem_of_filter. tauto.
Qed.

End Konva.
