(* ===== verification/Token.v ===== *)
(** * TokenWrapper ([src/TokenWrapper.ts])

    A token is a symbol of the input alphabet with an id that stays when
    the symbol is edited.  The constructor takes both arguments as
    optional ([null] by default) and fills them with [??]: the symbol with
    the empty string, the id with a fresh [uuidv4()].  The generator state
    (the set of ids issued so far) is threaded explicitly, since [??] only
    calls [uuidv4()] when no id is given. *)

From S2P Require Import Prelude.

Module Token.

Record TokenWrapper := mkToken {
  symbol : string;
  _id : string }.

(** The [id] getter. *)
Definition id (t : TokenWrapper) : string := _id t.

(** [constructor(symbol = null, id = null)]:
    [this._id = id ?? uuidv4(); this.symbol = symbol ?? ""]. *)
Definition TokenWrapper_new (sym : option string) (ident : option string)
    (issued : gset string) : TokenWrapper * gset string :=
  let '(i, issued') := match ident with
                       | Some i => (i, issued)
                       | None => uuidv4 issued
                       end in
  (mkToken (default "" sym) i, issued').

(** Assignment to the public field [symbol]. *)
Definition set_symbol (s : string) (t : TokenWrapper) : TokenWrapper :=
  mkToken s (_id t).

(** [SerializableToken] of the StateManager: [{ id, symbol }]. *)
Record SerializableToken := mkSerToken {
  st_id : string;
  st_symbol : string }.

(** [toSerializable()]. *)
Definition toSerializable (t : TokenWrapper) : SerializableToken :=
  mkSerToken (id t) (symbol t).

(** Loading a token: the constructor with the saved symbol and id. *)
Definition fromSerializable (s : SerializableToken) (issued : gset string)
    : TokenWrapper * gset string :=
  TokenWrapper_new (Some (st_symbol s)) (Some (st_id s)) issued.

(** ** Properties *)

(** C26 (fresh ids): a token constructed without an id gets an id that
    was never issued before, the generator records it, and a token
    constructed with an id keeps it and leaves the generator alone. *)
Theorem token_new_id (sym : option string) (ident : option string) (issued : gset string) :
  let '(t, issued') := TokenWrapper_new sym ident issued in
  issued ⊆ issued' /\ id t ∈ issued' ∪ (match ident with Some i => {[i]} | None => ∅ end)
  /\ match ident with
     | Some i => id t = i /\ issued' = issued
     | None => id t ∉ issued
     end
  /\ symbol t = default "" sym.
Proof.
  destruct ident as [i|]; simpl.
  - split_and!; [done | set_solver | done | done | done].
  - unfold uuidv4. simpl. pose proof (is_fresh issued).
    split_and!; [set_solver | set_solver | done | done].
Qed.

(** C27 (serialization round trip): loading a serialized token gives
    back the same record, and serializing a loaded token gives back the
    same token; loading never draws a uuid. *)
Theorem token_roundtrip (s : SerializableToken) (t : TokenWrapper) (issued : gset string) :
  (toSerializable (fst (fromSerializable s issued)) = s
   /\ snd (fromSerializable s issued) = issued)
  /\ fromSerializable (toSerializable t) issued = (t, issued).
Proof. destruct s, t. split; [split|]; reflexivity. Qed.

End Token.
