(* ===== verification/FontFit.v ===== *)
(** * The font fitting of [NodeWrapper.adjustFontSize] ([src/NodeWrapper.ts] 169-201)

    The label's font size starts at the label's current size.  If the text
    is wider than 75% of the node's diameter (45 units) it shrinks by one
    until it fits or reaches 10; otherwise, if it is narrower, it grows by
    one until it is no longer narrower or reaches 15.  The width of a text
    at a size is measured by Konva ([getClientRect().width] of a temporary
    [Konva.Text]): it is the parameter [measure] of the section.  Each
    [while] loop is a [Fixpoint] on fuel; [adjust_font_size] gives each the
    number of steps its counter can take before hitting its bound, and the
    termination theorems show that this fuel always reaches the exit. *)

From S2P Require Import Prelude.

Module FontFit.

(** [NodeWrapper.NodeRadius]. *)
Definition NodeRadius : Q := 30.

(** [maxTextWidth = NodeRadius * 2 * 0.75]. *)
Definition maxTextWidth : Q := NodeRadius * 2 * (3 # 4).

Section Fit.

(** The width of [text] drawn at font size [fontSize]. *)
Variable measure : string -> Z -> Q.
Variable text : string.

(** [while (textWidth > maxTextWidth && fontSize > 10) { fontSize -= 1; textWidth = measure }] *)
Fixpoint shrink_loop (fuel : nat) (fontSize : Z) (textWidth : Q) : Z * Q :=
  match fuel with
  | O => (fontSize, textWidth)
  | S k =>
      if js_lt maxTextWidth textWidth && (10 <? fontSize)%Z
      then shrink_loop k (fontSize - 1) (measure text (fontSize - 1))
      else (fontSize, textWidth)
  end.

(** [while (textWidth < maxTextWidth && fontSize < 15) { fontSize += 1; textWidth = measure }] *)
Fixpoint grow_loop (fuel : nat) (fontSize : Z) (textWidth : Q) : Z * Q :=
  match fuel with
  | O => (fontSize, textWidth)
  | S k =>
      if js_lt textWidth maxTextWidth && (fontSize <? 15)%Z
      then grow_loop k (fontSize + 1) (measure text (fontSize + 1))
      else (fontSize, textWidth)
  end.

(** The font size [adjustFontSize] gives the label, from its current size. *)
Definition adjust_font_size (fontSize : Z) : Z :=
  let textWidth := measure text fontSize in
  if js_lt maxTextWidth textWidth && (10 <? fontSize)%Z then
    fst (shrink_loop (Z.to_nat (fontSize - 10)) fontSize textWidth)
  else if js_lt textWidth maxTextWidth && (fontSize <? 15)%Z then
    fst (grow_loop (Z.to_nat (15 - fontSize)) fontSize textWidth)
  else fontSize.

(** ** Loop invariants *)

Lemma shrink_loop_spec (fuel : nat) (fs : Z) (w : Q) :
  w = measure text fs -> (Z.to_nat (fs - 10) <= fuel)%nat ->
  let '(fs', w') := shrink_loop fuel fs w in
  w' = measure text fs' /\ (Z.min fs 10 <= fs' <= fs)%Z
  /\ js_lt maxTextWidth w' && (10 <? fs')%Z = false
  /\ (forall k, (fs' < k <= fs)%Z -> maxTextWidth < measure text k).
Proof.
  revert fs w. induction fuel as [|fuel IH]; intros fs w Hw Hfuel; simpl.
  - split_and!; try (done || lia).
  - destruct (js_lt maxTextWidth w && (10 <? fs)%Z) eqn:G.
    + apply andb_true_iff in G as [Gw Gf]. apply js_lt_spec in Gw. apply Z.ltb_lt in Gf.
      specialize (IH (fs - 1)%Z (measure text (fs - 1)) eq_refl ltac:(lia)).
      destruct (shrink_loop fuel (fs - 1) (measure text (fs - 1))) as [fs' w'].
      destruct IH as (H1 & H2 & H3 & H4). split_and!; try (done || lia).
      intros k Hk. destruct (Z.eq_dec k fs) as [->|]; [by subst w | apply H4; lia].
    + split_and!; try (done || lia).
      all: try (intros; exfalso; lia).
Qed.

Lemma grow_loop_spec (fuel : nat) (fs : Z) (w : Q) :
  w = measure text fs -> (Z.to_nat (15 - fs) <= fuel)%nat ->
  let '(fs', w') := grow_loop fuel fs w in
  w' = measure text fs' /\ (fs <= fs' <= Z.max fs 15)%Z
  /\ js_lt w' maxTextWidth && (fs' <? 15)%Z = false
  /\ (forall k, (fs <= k < fs')%Z -> measure text k < maxTextWidth).
Proof.
  revert fs w. induction fuel as [|fuel IH]; intros fs w Hw Hfuel; simpl.
  - split_and!; try (done || lia).
  - destruct (js_lt w maxTextWidth && (fs <? 15)%Z) eqn:G.
    + apply andb_true_iff in G as [Gw Gf]. apply js_lt_spec in Gw. apply Z.ltb_lt in Gf.
      specialize (IH (fs + 1)%Z (measure text (fs + 1)) eq_refl ltac:(lia)).
      destruct (grow_loop fuel (fs + 1) (measure text (fs + 1))) as [fs' w'].
      destruct IH as (H1 & H2 & H3 & H4). split_and!; try (done || lia).
      intros k Hk. destruct (Z.eq_dec k fs) as [->|]; [by subst w | apply H4; lia].
    + split_and!; try (done || lia).
      all: try (intros; exfalso; lia).
Qed.

(** C31 (bounds): [adjustFontSize] never leaves the interval spanned by
    the current size and the bounds 10 and 15; a size in [10, 15] stays
    in [10, 15]. *)
Theorem adjust_font_size_bounds (fs : Z) :
  (Z.min fs 10 <= adjust_font_size fs <= Z.max fs 15)%Z.
Proof.
  unfold adjust_font_size.
  destruct (js_lt maxTextWidth (measure text fs) && (10 <? fs)%Z) eqn:G1.
  - pose proof (shrink_loop_spec (Z.to_nat (fs - 10)) fs _ eq_refl (le_n _)) as H.
    destruct (shrink_loop _ _ _) as [fs' w']. simpl. lia.
  - destruct (js_lt (measure text fs) maxTextWidth && (fs <? 15)%Z) eqn:G2; [|lia].
    pose proof (grow_loop_spec (Z.to_nat (15 - fs)) fs _ eq_refl (le_n _)) as H.
    destruct (grow_loop _ _ _) as [fs' w']. simpl. lia.
Qed.

(** C32 (termination, shrinking): when the label is too wide at a size
    above 10, the shrinking loop ends within [fs - 10] steps at a size that
    fits or at 10, and every size it skipped was too wide. *)
Theorem adjust_font_size_shrink (fs : Z) :
  (maxTextWidth < measure text fs)%Q -> (10 < fs)%Z ->
  let r := adjust_font_size fs in
  (10 <= r <= fs)%Z /\ ((measure text r <= maxTextWidth)%Q \/ r = 10%Z)
  /\ (forall k, (r < k <= fs)%Z -> (maxTextWidth < measure text k)%Q).
Proof.
  intros Hw Hfs. unfold adjust_font_size.
  assert (G : js_lt maxTextWidth (measure text fs) && (10 <? fs)%Z = true).
  { apply andb_true_iff. rewrite js_lt_spec, Z.ltb_lt. done. }
  rewrite G.
  pose proof (shrink_loop_spec (Z.to_nat (fs - 10)) fs _ eq_refl (le_n _)) as H.
  destruct (shrink_loop _ _ _) as [fs' w']. simpl.
  destruct H as (-> & Hr & Hexit & Hskip). split_and!; [lia | lia | | done].
  apply andb_false_iff in Hexit as [Hx | Hx].
  - left. by apply js_lt_false.
  - right. apply Z.ltb_ge in Hx. lia.
Qed.

(** C33 (termination, growing): when the label is narrower than the
    maximum at a size below 15, the growing loop ends within [15 - fs]
    steps at a size whose text is at least as wide as the maximum, or at
    15, and every size it passed was narrower. *)
Theorem adjust_font_size_grow (fs : Z) :
  (measure text fs < maxTextWidth)%Q -> (fs < 15)%Z ->
  let r := adjust_font_size fs in
  (fs < r <= 15)%Z /\ ((maxTextWidth <= measure text r)%Q \/ r = 15%Z)
  /\ (forall k, (fs <= k < r)%Z -> (measure text k < maxTextWidth)%Q).
Proof.
  intros Hw Hfs. unfold adjust_font_size.
  assert (G1 : js_lt maxTextWidth (measure text fs) = false).
  { apply js_lt_false. lra. }
  assert (G2 : js_lt (measure text fs) maxTextWidth && (fs <? 15)%Z = true).
  { apply andb_true_iff. rewrite js_lt_spec, Z.ltb_lt. done. }
  rewrite G1, G2. simpl.
  destruct (Z.to_nat (15 - fs)) as [|n] eqn:Hn; [lia|]. simpl.
  rewrite G2.
  pose proof (grow_loop_spec n (fs + 1) _ eq_refl ltac:(lia)) as H.
  destruct (grow_loop _ _ _) as [fs' w']. simpl.
  destruct H as (-> & Hr & Hexit & Hpass). split_and!; [lia | lia | |].
  - apply andb_false_iff in Hexit as [Hx | Hx].
    + left. by apply js_lt_false.
    + right. apply Z.ltb_ge in Hx. lia.
  - intros k Hk. destruct (Z.eq_dec k fs) as [->|]; [done | apply Hpass; lia].
Qed.

End Fit.

(** ** Witnesses *)

Lemma adjust_font_size_shrink_witness :
  let m := fun (_ : string) (fs : Z) => (5 * inject_Z fs)%Q in
  (maxTextWidth < m "state" 15%Z)%Q /\ (10 < 15)%Z
  /\ (let r := adjust_font_size m "state" 15 in
      (10 <= r <= 15)%Z /\ ((m "state" r <= maxTextWidth)%Q \/ r = 10%Z)
      /\ (forall k, (r < k <= 15)%Z -> (maxTextWidth < m "state" k)%Q)).
Proof.
  intros m. assert (H1 : (maxTextWidth < m "state" 15%Z)%Q) by (vm_compute; reflexivity).
  assert (H2 : (10 < 15)%Z) by lia.
  split; [exact H1 | split; [exact H2 | exact (adjust_font_size_shrink m "state" 15 H1 H2)]].
Defined.

Lemma adjust_font_size_grow_witness :
  let m := fun (_ : string) (fs : Z) => (4 * inject_Z fs)%Q in
  (m "q0" 10%Z < maxTextWidth)%Q /\ (10 < 15)%Z
  /\ (let r := adjust_font_size m "q0" 10 in
      (10 < r <= 15)%Z /\ ((maxTextWidth <= m "q0" r)%Q \/ r = 15%Z)
      /\ (forall k, (10 <= k < r)%Z -> (m "q0" k < maxTextWidth)%Q)).
Proof.
  intros m. assert (H1 : (m "q0" 10%Z < maxTextWidth)%Q) by (vm_compute; reflexivity).
  assert (H2 : (10 < 15)%Z) by lia.
  split; [exact H1 | split; [exact H2 | exact (adjust_font_size_grow m "q0" 10 H1 H2)]].
Defined.

End FontFit.
