(* ===== verification/Node.v ===== *)
(** * NodeWrapper: a state of the automaton and its view ([src/NodeWrapper.ts])

    The fields of the class are a record.  The four Konva objects
    ([nodeBackground], [nodeAcceptCircle], [nodeLabel], [nodeGroup]) are
    assigned together by [createKonvaObjects] and are [undefined] before:
    they are one optional [NodeView].  A method is a [js NodeWrapper A]
    action: it runs on the object, and a method that dereferences a view
    object of a node that has none throws [TypeError] after the mutations
    it did before.  The methods that reach into the StateManager (the event
    handlers and [snapToGrid]'s transition update) are in [Handlers]. *)

From S2P Require Import Prelude Konva FontFit.

Module Node.
Import Konva.

(** The attributes of [StateManager.colorScheme] the node reads. *)
Record ColorScheme := mkScheme {
  nodeFill : string;
  nodeStrokeColor : string;
  nodeAcceptStrokeColor : string;
  nodeLabelColor : string;
  selectedNodeStrokeColor : string;
  newConnectionGlowColor : string;
  newConnectionShadowOpacity : Q;
  newConnectionShadowBlur : Q;
  nodeDragDropShadowColor : string;
  nodeDragDropShadowOpacity : Q;
  nodeDragDropShadowBlur : Q }.

(** The static fields of the class. *)
Definition SelectedStrokeWidth : Q := 4.
Definition StrokeWidth : Q := 2.

Record NodeView := mkView {
  nodeBackground : Circle;
  nodeAcceptCircle : Circle;
  nodeLabel : Text;
  nodeGroup : Group }.

Record NodeWrapper := mkNode {
  view : option NodeView;
  lastPos : option Vector2d;
  lastSnappedPos : Vector2d;
  _isAcceptNode : bool;
  _labelText : string;
  _id : string }.

Definition set_view (v : option NodeView) (n : NodeWrapper) : NodeWrapper :=
  mkNode v (lastPos n) (lastSnappedPos n) (_isAcceptNode n) (_labelText n) (_id n).
Definition set_lastPos (p : option Vector2d) (n : NodeWrapper) : NodeWrapper :=
  mkNode (view n) p (lastSnappedPos n) (_isAcceptNode n) (_labelText n) (_id n).
Definition set_lastSnappedPos (p : Vector2d) (n : NodeWrapper) : NodeWrapper :=
  mkNode (view n) (lastPos n) p (_isAcceptNode n) (_labelText n) (_id n).
Definition set_isAcceptField (b : bool) (n : NodeWrapper) : NodeWrapper :=
  mkNode (view n) (lastPos n) (lastSnappedPos n) b (_labelText n) (_id n).
Definition set_labelField (s : string) (n : NodeWrapper) : NodeWrapper :=
  mkNode (view n) (lastPos n) (lastSnappedPos n) (_isAcceptNode n) s (_id n).

Definition on_background (f : Circle -> Circle) (v : NodeView) : NodeView :=
  mkView (f (nodeBackground v)) (nodeAcceptCircle v) (nodeLabel v) (nodeGroup v).
Definition on_accept (f : Circle -> Circle) (v : NodeView) : NodeView :=
  mkView (nodeBackground v) (f (nodeAcceptCircle v)) (nodeLabel v) (nodeGroup v).
Definition on_label (f : Text -> Text) (v : NodeView) : NodeView :=
  mkView (nodeBackground v) (nodeAcceptCircle v) (f (nodeLabel v)) (nodeGroup v).
Definition on_group (f : Group -> Group) (v : NodeView) : NodeView :=
  mkView (nodeBackground v) (nodeAcceptCircle v) (nodeLabel v) (f (nodeGroup v)).

(** Reading a view object: [TypeError] when it is [undefined]. *)
Definition read_view : js NodeWrapper NodeView :=
  fun n => match view n with
           | Some v => (n, Ok v)
           | None => (n, Err (TypeError "Cannot read properties of undefined"))
           end.

(** Calling a setter on a view object. *)
Definition with_view (f : NodeView -> NodeView) : js NodeWrapper unit :=
  fun n => match view n with
           | Some v => (set_view (Some (f v)) n, Ok tt)
           | None => (n, Err (TypeError "Cannot read properties of undefined"))
           end.

(** [constructor(label, id = null)]: the field initialisers, then
    [this._id = id ?? uuidv4(); this._labelText = label]. *)
Definition NodeWrapper_new (label : string) (ident : option string) (issued : gset string)
    : NodeWrapper * gset string :=
  let '(i, issued') := match ident with
                       | Some i => (i, issued)
                       | None => uuidv4 issued
                       end in
  (mkNode None None (Vec 0 0) false label i, issued').

(** [get id()]. *)
Definition id (n : NodeWrapper) : string := _id n.

(** [SerializableState] of the StateManager: [{ id, x, y, label }]. *)
Record SerializableState := mkSerState {
  ss_id : string;
  ss_x : Q;
  ss_y : Q;
  ss_label : string }.

(** [toSerializable()]: reads the group's position. *)
Definition toSerializable : js NodeWrapper SerializableState :=
  let* v := read_view in
  let* n := js_get in
  js_ret (mkSerState (_id n) (vx (g_pos (nodeGroup v))) (vy (g_pos (nodeGroup v)))
            (_labelText n)).

(** [createKonvaObjects(x, y)]: the group at [(x, y)] holding the
    background, the accept circle (visible iff the node accepts) and the
    label; the group is draggable.  The listeners it registers are the
    handlers of [Handlers]. *)
Definition createKonvaObjects (cs : ColorScheme) (x y : Q) (n : NodeWrapper) : NodeWrapper :=
  let bg := circle FontFit.NodeRadius (nodeFill cs) (nodeStrokeColor cs) StrokeWidth true in
  let acc := circle (FontFit.NodeRadius * (4 # 5)) "transparent" (nodeAcceptStrokeColor cs) (3 # 2)
               (_isAcceptNode n) in
  let lbl := mkText (_labelText n) 15 (nodeLabelColor cs) "word" "center" "middle"
               (FontFit.NodeRadius * 2 * (3 # 4)) (FontFit.NodeRadius * 2 * (3 # 4)) in
  let grp := mkGroup (Vec x y) true false
               [mkChild KBackground ""; mkChild KAcceptCircle ""; mkChild KLabel ""] false in
  set_view (Some (mkView bg acc lbl grp)) n.

(** [adjustFontSize()]: the loops of [FontFit] from the label's current
    size, then the layout attributes. *)
Definition adjustFontSize (measure : string -> Z -> Q) : js NodeWrapper unit :=
  let* v := read_view in
  let* n := js_get in
  let fs := FontFit.adjust_font_size measure (_labelText n) (t_fontSize (nodeLabel v)) in
  with_view (on_label (fun t => set_layout "word" "center" "middle" (set_fontSize fs t))).

(** [select()] and [deselect()]: the background's stroke. *)
Definition select (cs : ColorScheme) : js NodeWrapper unit :=
  with_view (on_background (fun c => set_strokeWidth SelectedStrokeWidth
                                       (set_stroke (selectedNodeStrokeColor cs) c))).

Definition deselect (cs : ColorScheme) : js NodeWrapper unit :=
  with_view (on_background (fun c => set_strokeWidth StrokeWidth
                                       (set_stroke (nodeStrokeColor cs) c))).

(** [deleteKonvaObjects()]. *)
Definition deleteKonvaObjects : js NodeWrapper unit :=
  with_view (on_group destroy).

(** [set isAcceptNode(value)]: the field first, then the circle. *)
Definition set_isAcceptNode (value : bool) : js NodeWrapper unit :=
  do* js_modify (set_isAcceptField value);
  let* n := js_get in
  with_view (on_accept (set_visible (_isAcceptNode n))).

(** The getters [isAcceptNode] and [labelText], and [konvaObject()],
    which returns the group field as it is ([undefined] before
    [createKonvaObjects], without throwing). *)
Definition isAcceptNode : js NodeWrapper bool := let* n := js_get in js_ret (_isAcceptNode n).
Definition labelText : js NodeWrapper string := let* n := js_get in js_ret (_labelText n).
Definition konvaObject : js NodeWrapper (option Group) :=
  let* n := js_get in js_ret (nodeGroup <$> view n).

(** [toggleAcceptNode()]. *)
Definition toggleAcceptNode : js NodeWrapper unit :=
  let* n := js_get in
  set_isAcceptNode (negb (_isAcceptNode n)).

(** [enableNewConnectionGlow()], [disableShadowEffects()],
    [enableDragDropShadow()]. *)
Definition enableNewConnectionGlow (cs : ColorScheme) : js NodeWrapper unit :=
  with_view (on_background (fun c =>
    set_shadowEnabled true
      (set_shadow (newConnectionGlowColor cs) (Vec 0 0)
         (newConnectionShadowOpacity cs) (newConnectionShadowBlur cs) c))).

Definition disableShadowEffects : js NodeWrapper unit :=
  with_view (on_background (set_shadowEnabled false)).

Definition enableDragDropShadow (cs : ColorScheme) : js NodeWrapper unit :=
  with_view (on_background (fun c =>
    set_shadowEnabled true
      (set_shadow (nodeDragDropShadowColor cs) (Vec 0 3)
         (nodeDragDropShadowOpacity cs) (nodeDragDropShadowBlur cs) c))).

(** [nodeGroup.position()] (getter) and [setPosition(position)]. *)
Definition position : js NodeWrapper Vector2d :=
  let* v := read_view in js_ret (g_pos (nodeGroup v)).

Definition setPosition (p : Vector2d) : js NodeWrapper unit :=
  with_view (on_group (set_position p)).

(** [set labelText(value)]: the field, the Konva text, then the fit. *)
Definition set_labelText (measure : string -> Z -> Q) (value : string) : js NodeWrapper unit :=
  do* js_modify (set_labelField value);
  do* with_view (on_label (set_text value));
  adjustFontSize measure.

(** [updateColorScheme()]. *)
Definition updateColorScheme (cs : ColorScheme) : js NodeWrapper unit :=
  with_view (fun v =>
    on_label (set_textFill (nodeLabelColor cs))
      (on_accept (set_stroke (nodeAcceptStrokeColor cs))
         (on_background (fun c => set_stroke (nodeStrokeColor cs) (set_fill (nodeFill cs) c)) v))).

(** [setErrorState(isError)]: remove the children named [errorIcon] or
    [errorText], then either paint the node red and add a fresh icon and
    glyph, or restore the default fill, stroke and width. *)
Definition errorNames : list string := ["errorIcon"; "errorText"].

(** The light-red fill and dark-red border of a node in error. *)
Definition errorFill : string := "rgb(254, 226, 225)".
Definition errorStroke : string := "rgb(220, 38, 37)".

Definition setErrorState (cs : ColorScheme) (isError : bool) : js NodeWrapper unit :=
  do* with_view (on_group (destroy_named errorNames));
  if isError then
    with_view (fun v =>
      on_group (fun g => add_child (mkChild KErrorText "errorText")
                           (add_child (mkChild KErrorIcon "errorIcon") g))
        (on_background (fun c => set_strokeWidth 4 (set_stroke errorStroke (set_fill errorFill c))) v))
  else
    with_view (on_background (fun c => set_strokeWidth StrokeWidth
                                         (set_stroke (nodeStrokeColor cs) (set_fill (nodeFill cs) c)))).

(** The grid rounding of [snapToGrid()]:
    [Math.round(p / gridCellSize) * gridCellSize] on each axis. *)
Definition gridCellSize : Z := 50.

Definition snap_coord (c : Q) : Q :=
  inject_Z (js_round (c / inject_Z gridCellSize) * gridCellSize).

Definition snapped (p : Vector2d) : Vector2d := Vec (snap_coord (vx p)) (snap_coord (vy p)).

(** The part of [snapToGrid()] that runs on the node itself: read the
    position, set the snapped one, return it. *)
Definition snapToGrid_node : js NodeWrapper Vector2d :=
  let* p := position in
  do* setPosition (snapped p);
  js_ret (snapped p).

(** Loading a node: the constructor with the saved id, then the view at
    the saved position. *)
Definition fromSerializable (cs : ColorScheme) (s : SerializableState) (issued : gset string)
    : NodeWrapper * gset string :=
  let '(n, issued') := NodeWrapper_new (ss_label s) (Some (ss_id s)) issued in
  (createKonvaObjects cs (ss_x s) (ss_y s) n, issued').

(** The selected look of [select()]: the background's stroke has the
    selected colour and the selected width. *)
Definition looks_selected (cs : ColorScheme) (n : NodeWrapper) : bool :=
  match view n with
  | Some v => String.eqb (c_stroke (nodeBackground v)) (selectedNodeStrokeColor cs)
              && Qeq_bool (c_strokeWidth (nodeBackground v)) SelectedStrokeWidth
  | None => false
  end.

(** Every method of the class that changes the node's own state, as one
    datatype, so that a property of "any method" can be stated. *)
Inductive NodeOp :=
| OpCreateKonvaObjects (x y : Q)
| OpAdjustFontSize
| OpSelect
| OpDeselect
| OpDeleteKonvaObjects
| OpSetAcceptNode (b : bool)
| OpToggleAcceptNode
| OpEnableNewConnectionGlow
| OpDisableShadowEffects
| OpEnableDragDropShadow
| OpSetPosition (p : Vector2d)
| OpSetLabelText (s : string)
| OpUpdateColorScheme
| OpSetErrorState (b : bool)
| OpSnapToGrid.

Definition run_node_op (cs : ColorScheme) (measure : string -> Z -> Q) (op : NodeOp)
    : js NodeWrapper unit :=
  match op with
  | OpCreateKonvaObjects x y => js_modify (createKonvaObjects cs x y)
  | OpAdjustFontSize => adjustFontSize measure
  | OpSelect => select cs
  | OpDeselect => deselect cs
  | OpDeleteKonvaObjects => deleteKonvaObjects
  | OpSetAcceptNode b => set_isAcceptNode b
  | OpToggleAcceptNode => toggleAcceptNode
  | OpEnableNewConnectionGlow => enableNewConnectionGlow cs
  | OpDisableShadowEffects => disableShadowEffects
  | OpEnableDragDropShadow => enableDragDropShadow cs
  | OpSetPosition p => setPosition p
  | OpSetLabelText s => set_labelText measure s
  | OpUpdateColorScheme => updateColorScheme cs
  | OpSetErrorState b => setErrorState cs b
  | OpSnapToGrid => do* snapToGrid_node; js_ret tt
  end.

(** ** Methods that do not touch the selected look

    A method is [node_safe] when, on a node with a view, it returns
    normally, keeps the view and leaves the selected look as it was.  The
    handlers' invariant is built from these. *)

Definition node_safe {A} (m : js NodeWrapper A) : Prop :=
  forall n, is_Some (view n) ->
    exists n' a, m n = (n', Ok a) /\ is_Some (view n')
                 /\ (forall cs, looks_selected cs n' = looks_selected cs n).

Lemma node_safe_ret {A} (a : A) : node_safe (js_ret a).
Proof. intros n Hv. by exists n, a. Qed.

Lemma node_safe_get : node_safe js_get.
Proof. intros n Hv. by exists n, n. Qed.

Lemma node_safe_read_view : node_safe read_view.
Proof. intros n [v Hv]. unfold read_view. rewrite Hv. by exists n, v. Qed.

Lemma node_safe_bind {A B} (m : js NodeWrapper A) (f : A -> js NodeWrapper B) :
  node_safe m -> (forall a, node_safe (f a)) -> node_safe (js_bind m f).
Proof.
  intros Hm Hf n Hv. destruct (Hm n Hv) as (n1 & a & E1 & Hv1 & Hl1).
  destruct (Hf a n1 Hv1) as (n2 & b & E2 & Hv2 & Hl2).
  exists n2, b. unfold js_bind. rewrite E1. split_and!; try done. intros cs. by rewrite Hl2.
Qed.

Lemma node_safe_with_view (f : NodeView -> NodeView) :
  (forall v, c_stroke (nodeBackground (f v)) = c_stroke (nodeBackground v)
             /\ c_strokeWidth (nodeBackground (f v)) = c_strokeWidth (nodeBackground v)) ->
  node_safe (with_view f).
Proof.
  intros Hf n [v Hv]. unfold with_view, looks_selected. rewrite Hv.
  exists (set_view (Some (f v)) n), tt. simpl. split_and!; [done | by eexists |].
  intros cs. destruct (Hf v) as [-> ->]. done.
Qed.

Lemma node_safe_modify (f : NodeWrapper -> NodeWrapper) :
  (forall n, view (f n) = view n) -> node_safe (js_modify f).
Proof.
  intros Hf n Hv. exists (f n), tt. unfold looks_selected. rewrite !Hf. by split_and!.
Qed.

#[export] Hint Resolve node_safe_ret node_safe_get node_safe_read_view : automaton.

(** Proves [node_safe m] for a method built from the lemmas above. *)
Ltac node_safe_tac :=
  repeat match goal with
  | |- node_safe (js_bind _ _) => apply node_safe_bind; intros
  | |- node_safe (with_view _) => apply node_safe_with_view; intros; split; reflexivity
  | |- node_safe (js_modify _) => apply node_safe_modify; intros; reflexivity
  | |- node_safe (match ?x with _ => _ end) => destruct x
  | |- node_safe _ => solve [eauto with automaton]
  end.

Lemma node_safe_position : node_safe position.
Proof. unfold position. node_safe_tac. Qed.

Lemma node_safe_setPosition p : node_safe (setPosition p).
Proof. unfold setPosition. node_safe_tac. Qed.

Lemma node_safe_enableNewConnectionGlow cs : node_safe (enableNewConnectionGlow cs).
Proof. unfold enableNewConnectionGlow. node_safe_tac. Qed.

Lemma node_safe_disableShadowEffects : node_safe disableShadowEffects.
Proof. unfold disableShadowEffects. node_safe_tac. Qed.

Lemma node_safe_enableDragDropShadow cs : node_safe (enableDragDropShadow cs).
Proof. unfold enableDragDropShadow. node_safe_tac. Qed.

Lemma node_safe_snapToGrid_node : node_safe snapToGrid_node.
Proof. unfold snapToGrid_node, position, setPosition. node_safe_tac. Qed.

#[export] Hint Resolve node_safe_position node_safe_setPosition node_safe_enableNewConnectionGlow
  node_safe_disableShadowEffects node_safe_enableDragDropShadow node_safe_snapToGrid_node
  : automaton.

(** ** Grid snapping *)

Section Snapping.
Local Open Scope Q_scope.

Lemma snap_coord_scale (c : Q) (z : Z) :
  c - inject_Z (z * gridCellSize) == inject_Z gridCellSize * (c / inject_Z gridCellSize - inject_Z z).
Proof. rewrite inject_Z_mult. unfold gridCellSize. field; try discriminate. Qed.

#[export] Instance snap_coord_Proper : Proper (Qeq ==> eq) snap_coord.
Proof. intros a b H. unfold snap_coord. now rewrite H. Qed.

(** C22 (snap correctness): a snapped coordinate is a multiple of the
    grid cell (50), lies within half a cell of the input, and no multiple
    of 50 is closer to the input. *)
Theorem snap_coord_nearest (c : Q) :
  (exists k : Z, snap_coord c = inject_Z (k * gridCellSize))
  /\ Qabs (c - snap_coord c) <= 25
  /\ (forall k : Z, Qabs (c - snap_coord c) <= Qabs (c - inject_Z (k * gridCellSize))).
Proof.
  unfold snap_coord. split_and!.
  - eexists. reflexivity.
  - rewrite snap_coord_scale, Qabs_Qmult.
    destruct (js_round_spec (c / inject_Z gridCellSize)) as [Hlo Hhi].
    set (q := c / inject_Z gridCellSize) in *. set (r := inject_Z (js_round q)) in *.
    assert (Hg : Qabs (inject_Z gridCellSize) == 50) by reflexivity. rewrite Hg.
    apply Qabs_case; intros; lra.
  - intros k. rewrite !snap_coord_scale, !Qabs_Qmult.
    apply Qmult_le_l; [reflexivity |]. apply js_round_nearest.
Qed.

End Snapping.

(** The rounding of [snapToGrid] written with integer floor division, the
    way an integer implementation would do it. *)
Definition snap_int (c : Z) : Z := (c + gridCellSize / 2) / gridCellSize * gridCellSize.

(** C23 (equivalence with integer rounding): on integer coordinates
    (pointer positions in pixels), [Math.round(c / 50) * 50] is the
    integer [(c + 25) div 50 * 50] with floor division, negative
    coordinates included. *)
Theorem snap_coord_int (c : Z) : snap_coord (inject_Z c) = inject_Z (snap_int c).
Proof.
  unfold snap_coord, snap_int. do 2 f_equal. apply js_round_char.
  all: unfold gridCellSize; change (50 / 2)%Z with 25%Z.
  all: pose proof (Z.mul_div_le (c + 25) 50 ltac:(lia)) as H1.
  all: pose proof (Z.mul_succ_div_gt (c + 25) 50 ltac:(lia)) as H2.
  all: set (z := ((c + 25) / 50)%Z) in *; clearbody z; unfold Z.succ in H2.
  all: rewrite Zle_Qle in H1; rewrite Zlt_Qlt in H2.
  all: rewrite ?inject_Z_mult, ?inject_Z_plus in H1; rewrite !inject_Z_mult, !inject_Z_plus in H2.
  all: change (inject_Z 50) with 50 in *; change (inject_Z 25) with 25 in *;
    change (inject_Z 1) with 1 in *.
  all: assert (Hd : inject_Z c / 50 == inject_Z c * (1 # 50)) by reflexivity.
  all: rewrite Hd; clear Hd; lra.
Qed.

(** ** The view mirrors the model *)

(** The shapes [createKonvaObjects] puts in the group, and the pair the
    error overlay adds. *)
Definition base_children : list Child :=
  [mkChild KBackground ""; mkChild KAcceptCircle ""; mkChild KLabel ""].
Definition error_children : list Child :=
  [mkChild KErrorIcon "errorIcon"; mkChild KErrorText "errorText"].

(** The background shows the error look: the light-red fill or the
    dark-red border [setErrorState true] paints. *)
Definition error_look (c : Circle) : Prop := c_fill c = errorFill \/ c_stroke c = errorStroke.

(** A colour scheme whose own node colours are not the error colours. *)
Definition scheme_ok (cs : ColorScheme) : bool :=
  negb (String.eqb (nodeFill cs) errorFill) && negb (String.eqb (nodeStrokeColor cs) errorStroke)
  && negb (String.eqb (selectedNodeStrokeColor cs) errorStroke).

Lemma scheme_ok_spec cs :
  scheme_ok cs = true ->
  nodeFill cs <> errorFill /\ nodeStrokeColor cs <> errorStroke /\ selectedNodeStrokeColor cs <> errorStroke.
Proof.
  unfold scheme_ok. rewrite !andb_true_iff, !negb_true_iff, !String.eqb_neq. tauto.
Qed.

(** A view agrees with the node: the accept circle is shown iff the node
    accepts, the label shows the label text, the group holds the three
    shapes, followed by one error icon and glyph or by nothing, and the
    background shows the error look only while the error overlay is
    there. *)
Definition view_fields_ok (n : NodeWrapper) (v : NodeView) : Prop :=
  c_visible (nodeAcceptCircle v) = _isAcceptNode n /\ t_text (nodeLabel v) = _labelText n
  /\ (g_children (nodeGroup v) = base_children
      \/ g_children (nodeGroup v) = base_children ++ error_children)
  /\ (error_look (nodeBackground v) -> g_children (nodeGroup v) = base_children ++ error_children).

Definition view_ok (n : NodeWrapper) : Prop :=
  match view n with Some v => view_fields_ok n v | None => True end.

(** C21 (the view mirrors the model): under a colour scheme that does
    not use the error colours itself, every method of [NodeWrapper],
    including the ones that throw, keeps the view in agreement with the
    node's fields: the accept circle visible exactly when the node
    accepts, the label showing the label text, the group holding the
    background, the accept circle and the label plus at most one error
    icon and glyph, and the background in the error look (light-red
    fill or dark-red border) only while that error overlay is shown. *)
Theorem node_view_ok (cs : ColorScheme) (measure : string -> Z -> Q) (op : NodeOp) (n : NodeWrapper) :
  scheme_ok cs = true -> view_ok n -> view_ok (fst (run_node_op cs measure op n)).
Proof.
  intros Hcs. destruct (scheme_ok_spec cs Hcs) as (Hf & Hs & Hss).
  destruct n as [[v|] lp lsp acc lbl i]; [|destruct op; simpl; try done].
  all: unfold view_ok, view_fields_ok, error_look; simpl.
  - intros (Ha & Hl & Hc & He). destruct op; simpl; rewrite ?Ha, ?Hl; try (split_and!; auto; fail).
    all: try (split_and!; [done | done | first [exact Hc | left; reflexivity]
                          | intros [Hx | Hx]; first [contradiction | apply He; by (left + right)]]).
    unfold setErrorState, js_bind, with_view. simpl.
    destruct b; simpl; (split; [done | split; [done |]]); destruct Hc as [-> | ->]; simpl;
      first [split; [right; reflexivity | intros _; reflexivity]
            | split; [left; reflexivity | intros [? | ?]; contradiction]].
  - intros _. split_and!; [done | done | left; reflexivity | intros [? | ?]; contradiction].
Qed.

(** ** The error overlay *)

Definition errorIcon : Child := mkChild KErrorIcon "errorIcon".
Definition errorText : Child := mkChild KErrorText "errorText".

Definition count_named (name : string) (l : list Child) : nat :=
  length (filter (fun c => ch_name c = name) l).

Definition not_error (c : Child) : Prop := ch_name c ∉ errorNames.

(** What [setErrorState] does to a node that has a view. *)
Lemma setErrorState_view (cs : ColorScheme) (b : bool) (n : NodeWrapper) (v : NodeView) :
  view n = Some v ->
  exists v', setErrorState cs b n = (set_view (Some v') n, Ok tt)
    /\ g_children (nodeGroup v') =
         filter not_error (g_children (nodeGroup v)) ++ (if b then [errorIcon; errorText] else [])
    /\ nodeAcceptCircle v' = nodeAcceptCircle v /\ nodeLabel v' = nodeLabel v
    /\ g_pos (nodeGroup v') = g_pos (nodeGroup v).
Proof.
  intros Hv. unfold setErrorState, js_bind, with_view. rewrite Hv. simpl.
  destruct b; eexists; split_and!; try reflexivity.
  - simpl. unfold add_child, set_children. simpl. by rewrite <- app_assoc.
  - simpl. by rewrite app_nil_r.
Qed.

(** C24 (error overlay idempotence): after [setErrorState b] a node
    that has a view holds exactly one error icon and one error glyph when
    [b] is true and none when it is false, whatever overlays it held
    before; its other children are kept in order. *)
Theorem setErrorState_overlay (cs : ColorScheme) (b : bool) (n : NodeWrapper) (v : NodeView) :
  view n = Some v ->
  exists v', fst (setErrorState cs b n) = set_view (Some v') n
    /\ snd (setErrorState cs b n) = Ok tt
    /\ count_named "errorIcon" (g_children (nodeGroup v')) = (if b then 1 else 0)%nat
    /\ count_named "errorText" (g_children (nodeGroup v')) = (if b then 1 else 0)%nat
    /\ filter not_error (g_children (nodeGroup v')) = filter not_error (g_children (nodeGroup v)).
Proof.
  intros Hv. destruct (setErrorState_view cs b n v Hv) as (v' & Hrun & Hch & _).
  exists v'. rewrite Hrun, Hch. unfold count_named. rewrite !filter_app, !length_app.
  rewrite !filter_filter_disjoint
    by (intros c Hc Heq; apply Hc; rewrite Heq; unfold errorNames; set_solver).
  rewrite filter_idem. destruct b; split_and!; try reflexivity.
  - change (filter not_error [errorIcon; errorText]) with (@nil Child). apply app_nil_r.
  - apply app_nil_r.
Qed.

(** C25 (error overlay idempotence, whole node): running
    [setErrorState b] twice leaves the node exactly as running it once,
    with or without a view. *)
Theorem setErrorState_idempotent (cs : ColorScheme) (b : bool) (n : NodeWrapper) :
  setErrorState cs b (fst (setErrorState cs b n)) = setErrorState cs b n.
Proof.
  destruct n as [[[bg acc lbl [p d dr ch de]]|] lp lsp acc' lbt i]; [|reflexivity].
  unfold setErrorState, js_bind, with_view, on_group, on_background, add_child, set_children,
    destroy_named, set_view, set_strokeWidth, set_stroke, set_fill; simpl.
  destruct b; simpl; rewrite ?filter_app, filter_idem; [|reflexivity].
  rewrite !filter_cons_False, !filter_nil, !app_nil_r by (simpl; unfold errorNames; set_solver).
  reflexivity.
Qed.

(** ** Errors of a node without a view *)

(** C30 (headless setters throw): before [createKonvaObjects] the
    [labelText] and [isAcceptNode] setters assign the field and then throw
    [TypeError] on the missing Konva object (the field stays assigned);
    [toSerializable] and [select] throw without changing the node. *)
Theorem headless_setters_throw (cs : ColorScheme) (measure : string -> Z -> Q)
    (n : NodeWrapper) (s : string) (b : bool) :
  view n = None ->
  (exists e, set_labelText measure s n = (set_labelField s n, Err e))
  /\ (exists e, set_isAcceptNode b n = (set_isAcceptField b n, Err e))
  /\ (exists e, toSerializable n = (n, Err e))
  /\ (exists e, select cs n = (n, Err e)).
Proof.
  intros Hv. unfold set_labelText, set_isAcceptNode, toSerializable, select, js_bind,
    js_modify, with_view, read_view. destruct n; simpl in *; subst.
  split_and!; eexists; reflexivity.
Qed.

(** ** Serialization *)

(** C28 (node round trip): loading a serialized node gives a node with a
    view whose [toSerializable] is the record it was loaded from; loading
    draws no uuid. *)
Theorem node_roundtrip (cs : ColorScheme) (s : SerializableState) (issued : gset string) :
  let '(n, issued') := fromSerializable cs s issued in
  toSerializable n = (n, Ok s) /\ issued' = issued /\ is_Some (view n).
Proof. destruct s. split_and!; [reflexivity | reflexivity | eexists; reflexivity]. Qed.

(** C29 (node reload): serializing a node that has a view and loading
    the record back gives a node with the same id, label and position;
    the accept flag is not part of the record and comes back false. *)
Theorem node_reload (cs : ColorScheme) (n : NodeWrapper) (v : NodeView) (issued : gset string) :
  view n = Some v ->
  exists s, toSerializable n = (n, Ok s) /\
    let '(n', issued') := fromSerializable cs s issued in
    id n' = id n /\ _labelText n' = _labelText n /\ issued' = issued
    /\ fst (position n') = n' /\ snd (position n') = Ok (g_pos (nodeGroup v))
    /\ _isAcceptNode n' = false.
Proof.
  intros Hv. unfold toSerializable, js_bind, read_view, js_get, js_ret. rewrite Hv.
  eexists. split; [reflexivity|]. destruct (g_pos (nodeGroup v)). simpl.
  split_and!; reflexivity.
Qed.

(** ** Witnesses *)

Definition example_scheme : ColorScheme :=
  mkScheme "white" "black" "black" "black" "#018ED5" "#018ED5" 1 10 "black" (1 # 2) 5.

(** A node [q0] with its view at (100, 100), and one without a view. *)
Definition placed_q0 : NodeWrapper :=
  createKonvaObjects example_scheme 100 100 (fst (NodeWrapper_new "q0" (Some "id-q0") ∅)).
Definition headless_q0 : NodeWrapper := fst (NodeWrapper_new "q0" (Some "id-q0") ∅).

(** The view [createKonvaObjects] gives [q0]. *)
Definition nodeView_of (n : NodeWrapper) : NodeView := default (mkView
  (circle 0 "" "" 0 false) (circle 0 "" "" 0 false) (mkText "" 0 "" "" "" "" 0 0)
  (mkGroup (Vec 0 0) false false [] false)) (view n).

Lemma setErrorState_overlay_witness :
  view placed_q0 = Some (mkView
    (circle FontFit.NodeRadius "white" "black" StrokeWidth true)
    (circle (FontFit.NodeRadius * (4 # 5)) "transparent" "black" (3 # 2) false)
    (mkText "q0" 15 "black" "word" "center" "middle"
       (FontFit.NodeRadius * 2 * (3 # 4)) (FontFit.NodeRadius * 2 * (3 # 4)))
    (mkGroup (Vec 100 100) true false
       [mkChild KBackground ""; mkChild KAcceptCircle ""; mkChild KLabel ""] false))
  /\ exists v', fst (setErrorState example_scheme true placed_q0) = set_view (Some v') placed_q0
    /\ snd (setErrorState example_scheme true placed_q0) = Ok tt
    /\ count_named "errorIcon" (g_children (nodeGroup v')) = 1%nat
    /\ count_named "errorText" (g_children (nodeGroup v')) = 1%nat
    /\ filter not_error (g_children (nodeGroup v')) =
       [mkChild KBackground ""; mkChild KAcceptCircle ""; mkChild KLabel ""].
Proof.
  assert (Hv : view placed_q0 = Some (mkView
    (circle FontFit.NodeRadius "white" "black" StrokeWidth true)
    (circle (FontFit.NodeRadius * (4 # 5)) "transparent" "black" (3 # 2) false)
    (mkText "q0" 15 "black" "word" "center" "middle"
       (FontFit.NodeRadius * 2 * (3 # 4)) (FontFit.NodeRadius * 2 * (3 # 4)))
    (mkGroup (Vec 100 100) true false
       [mkChild KBackground ""; mkChild KAcceptCircle ""; mkChild KLabel ""] false)))
    by reflexivity.
  split; [exact Hv|].
  exact (setErrorState_overlay example_scheme true placed_q0 _ Hv).
Defined.

Lemma headless_setters_throw_witness :
  view headless_q0 = None
  /\ (exists e, set_labelText (fun _ _ => 0%Q) "q1" headless_q0 = (set_labelField "q1" headless_q0, Err e))
  /\ (exists e, set_isAcceptNode true headless_q0 = (set_isAcceptField true headless_q0, Err e))
  /\ (exists e, toSerializable headless_q0 = (headless_q0, Err e))
  /\ (exists e, select example_scheme headless_q0 = (headless_q0, Err e)).
Proof.
  assert (Hv : view headless_q0 = None) by reflexivity.
  split; [exact Hv | exact (headless_setters_throw example_scheme (fun _ _ => 0%Q) headless_q0 "q1" true Hv)].
Defined.

Lemma node_reload_witness :
  is_Some (view placed_q0)
  /\ exists s, toSerializable placed_q0 = (placed_q0, Ok s) /\
    let '(n', issued') := fromSerializable example_scheme s ∅ in
    id n' = id placed_q0 /\ _labelText n' = _labelText placed_q0 /\ issued' = ∅
    /\ fst (position n') = n' /\ snd (position n') = Ok (Vec 100 100)
    /\ _isAcceptNode n' = false.
Proof.
  destruct (view placed_q0) as [v|] eqn:Hv; [|discriminate].
  split; [by eexists|].
  pose proof (node_reload example_scheme placed_q0 v ∅ Hv) as H.
  assert (Hp : g_pos (nodeGroup v) = Vec 100 100) by (vm_compute in Hv; by injection Hv as <-).
  rewrite Hp in H. exact H.
Defined.

Lemma node_view_ok_witness :
  scheme_ok example_scheme = true /\ view_ok placed_q0
  /\ view_ok (fst (run_node_op example_scheme (fun _ fs => inject_Z fs) (OpSetErrorState true) placed_q0)).
Proof.
  assert (Hs : scheme_ok example_scheme = true) by (vm_compute; reflexivity).
  assert (H : view_ok placed_q0)
    by (vm_compute; split_and!; [reflexivity | reflexivity | left; reflexivity | intros [Hx | Hx]; discriminate]).
  split_and!; [exact Hs | exact H |
    exact (node_view_ok example_scheme (fun _ fs => inject_Z fs) (OpSetErrorState true) placed_q0 Hs H)].
Defined.

End Node.
