(* ===== verification/StateManager.v ===== *)
(** * The StateManager, as NodeWrapper sees it (spec sections 3, 4, 6)

    [StateManager] is not under src/: its state and the operations
    NodeWrapper calls are modelled from the spec.  Objects live in a heap
    [gmap positive Obj] (a reference is a [positive]); the selection, the
    tentative transition's source and target and the transitions'
    endpoints are references into it, so two names of one object are one
    heap cell, as in JavaScript.  The selectable objects are the closed set
    {node, transition} (spec section 9), behind the interface [Selectable]
    through which the selection operations are proved.  The action log
    and the start-node collaborator are a trace of the calls made to
    them. *)

From S2P Require Import Prelude Konva Node.

Module StateManager.
Import Konva Node.

(** [Tool]: the tool modes. *)
Inductive Tool := Select | States | Transitions.

#[export] Instance Tool_eq_dec : EqDecision Tool.
Proof. solve_decision. Defined.

(** The part of [TransitionWrapper] the node reaches: its endpoints (node
    references), its token ids, the points it draws, its selected look. *)
Record TransitionWrapper := mkTrans {
  sourceNode : positive;
  destNode : positive;
  tokens : list string;
  tw_points : option (Vector2d * Vector2d);
  tw_selected : bool }.

Definition tw_set_points (p : option (Vector2d * Vector2d)) (t : TransitionWrapper) :=
  mkTrans (sourceNode t) (destNode t) (tokens t) p (tw_selected t).
Definition tw_set_selected (b : bool) (t : TransitionWrapper) :=
  mkTrans (sourceNode t) (destNode t) (tokens t) (tw_points t) b.

(** [involvesNode(node)]. *)
Definition involvesNode (r : positive) (t : TransitionWrapper) : bool :=
  bool_decide (sourceNode t = r \/ destNode t = r).

(** ** The selectable-object interface *)

(** What [SelectableObject] promises the selection manager: [select] and
    [deselect] succeed on an object that is ready (has its view), keep it
    ready, and set its selected look on and off. *)
Class Selectable (T : Type) := {
  sel_select : ColorScheme -> js T unit;
  sel_deselect : ColorScheme -> js T unit;
  sel_shown : ColorScheme -> T -> bool;
  sel_ready : T -> Prop;
  sel_select_spec : forall cs t, sel_ready t ->
    snd (sel_select cs t) = Ok tt /\ sel_shown cs (fst (sel_select cs t)) = true
    /\ sel_ready (fst (sel_select cs t));
  sel_deselect_spec : forall cs t, sel_ready t ->
    snd (sel_deselect cs t) = Ok tt /\ sel_shown cs (fst (sel_deselect cs t)) = false
    /\ sel_ready (fst (sel_deselect cs t)) }.

Lemma node_select_spec cs (n : NodeWrapper) : is_Some (view n) ->
  snd (Node.select cs n) = Ok tt /\ looks_selected cs (fst (Node.select cs n)) = true
  /\ is_Some (view (fst (Node.select cs n))).
Proof.
  intros [v Hv]. unfold Node.select, with_view, looks_selected. rewrite Hv. simpl.
  rewrite String.eqb_refl. split_and!; [done | done | eexists; done].
Qed.

Lemma node_deselect_spec cs (n : NodeWrapper) : is_Some (view n) ->
  snd (Node.deselect cs n) = Ok tt /\ looks_selected cs (fst (Node.deselect cs n)) = false
  /\ is_Some (view (fst (Node.deselect cs n))).
Proof.
  intros [v Hv]. unfold Node.deselect, with_view, looks_selected. rewrite Hv. simpl.
  split_and!; [done | | eexists; done]. by rewrite andb_false_r.
Qed.

#[export] Instance NodeWrapper_Selectable : Selectable NodeWrapper := {
  sel_select := Node.select;
  sel_deselect := Node.deselect;
  sel_shown := looks_selected;
  sel_ready n := is_Some (view n);
  sel_select_spec := node_select_spec;
  sel_deselect_spec := node_deselect_spec }.

(** [TransitionWrapper.select()] / [deselect()]: its selected look. *)
Definition trans_select (_ : ColorScheme) : js TransitionWrapper unit :=
  js_modify (tw_set_selected true).
Definition trans_deselect (_ : ColorScheme) : js TransitionWrapper unit :=
  js_modify (tw_set_selected false).

#[export] Program Instance TransitionWrapper_Selectable : Selectable TransitionWrapper := {
  sel_select := trans_select;
  sel_deselect := trans_deselect;
  sel_shown _ t := tw_selected t;
  sel_ready _ := True }.

(** ** The shared state *)

Inductive Obj :=
| ONode (n : NodeWrapper)
| OTrans (t : TransitionWrapper).

(** The calls made to the action log and to the start-node collaborator. *)
Inductive Call :=
| StartDragStatesOperation (p : Vector2d)
| CompleteDragStatesOperation (p : Vector2d)
| UpdateStartNodePosition.

Record Tentative := mkTentative { tt_source : positive; tt_head : Vector2d }.

Record StateManager := mkSM {
  currentTool : Tool;
  heap : gmap positive Obj;
  transitions : list positive;
  selectedObjects : list positive;
  tentative : option Tentative;
  tentativeTransitionTarget : option positive;
  snapToGridEnabled : bool;
  colorScheme : ColorScheme;
  log : list Call;
  issued : gset string;
  next_ref : positive }.

Definition set_tool t st := mkSM t (heap st) (transitions st) (selectedObjects st) (tentative st)
  (tentativeTransitionTarget st) (snapToGridEnabled st) (colorScheme st) (log st) (issued st) (next_ref st).
Definition set_heap h st := mkSM (currentTool st) h (transitions st) (selectedObjects st) (tentative st)
  (tentativeTransitionTarget st) (snapToGridEnabled st) (colorScheme st) (log st) (issued st) (next_ref st).
Definition set_transitions l st := mkSM (currentTool st) (heap st) l (selectedObjects st) (tentative st)
  (tentativeTransitionTarget st) (snapToGridEnabled st) (colorScheme st) (log st) (issued st) (next_ref st).
Definition set_selected l st := mkSM (currentTool st) (heap st) (transitions st) l (tentative st)
  (tentativeTransitionTarget st) (snapToGridEnabled st) (colorScheme st) (log st) (issued st) (next_ref st).
Definition set_tentative o st := mkSM (currentTool st) (heap st) (transitions st) (selectedObjects st) o
  (tentativeTransitionTarget st) (snapToGridEnabled st) (colorScheme st) (log st) (issued st) (next_ref st).
Definition set_target o st := mkSM (currentTool st) (heap st) (transitions st) (selectedObjects st)
  (tentative st) o (snapToGridEnabled st) (colorScheme st) (log st) (issued st) (next_ref st).
Definition set_snap b st := mkSM (currentTool st) (heap st) (transitions st) (selectedObjects st)
  (tentative st) (tentativeTransitionTarget st) b (colorScheme st) (log st) (issued st) (next_ref st).
Definition set_log l st := mkSM (currentTool st) (heap st) (transitions st) (selectedObjects st)
  (tentative st) (tentativeTransitionTarget st) (snapToGridEnabled st) (colorScheme st) l (issued st) (next_ref st).
Definition set_alloc i r st := mkSM (currentTool st) (heap st) (transitions st) (selectedObjects st)
  (tentative st) (tentativeTransitionTarget st) (snapToGridEnabled st) (colorScheme st) (log st) i r.

(** [StateManager.tentativeTransitionInProgress]. *)
Definition tentativeTransitionInProgress (st : StateManager) : bool :=
  bool_decide (is_Some (tentative st)).

Definition node_at (st : StateManager) (r : positive) : option NodeWrapper :=
  match heap st !! r with Some (ONode n) => Some n | _ => None end.

(** ** Calling methods of heap objects *)

(** A method of the node at [r] runs on the heap cell; its mutations stay
    even when it throws. *)
Definition call_node {A} (r : positive) (m : js NodeWrapper A) : js StateManager A :=
  fun st => match heap st !! r with
            | Some (ONode n) => let '(n', res) := m n in
                                (set_heap (<[r := ONode n']> (heap st)) st, res)
            | _ => (st, Err (TypeError "not a NodeWrapper"))
            end.

(** A method of the [SelectableObject] at [r]: dispatch on its class. *)
Definition call_obj (mn : js NodeWrapper unit) (mt : js TransitionWrapper unit) (r : positive)
    : js StateManager unit :=
  fun st => match heap st !! r with
            | Some (ONode n) => let '(n', res) := mn n in
                                (set_heap (<[r := ONode n']> (heap st)) st, res)
            | Some (OTrans t) => let '(t', res) := mt t in
                                 (set_heap (<[r := OTrans t']> (heap st)) st, res)
            | None => (st, Err (TypeError "undefined"))
            end.

Definition select_obj (r : positive) : js StateManager unit :=
  let* st := js_get in call_obj (sel_select (colorScheme st)) (sel_select (colorScheme st)) r.

Definition deselect_obj (r : positive) : js StateManager unit :=
  let* st := js_get in call_obj (sel_deselect (colorScheme st)) (sel_deselect (colorScheme st)) r.

Definition obj_shown (cs : ColorScheme) (o : Obj) : bool :=
  match o with ONode n => sel_shown cs n | OTrans t => sel_shown cs t end.

Definition obj_ready (o : Obj) : Prop :=
  match o with ONode n => sel_ready n | OTrans t => sel_ready t end.

(** Two values of a heap cell of the same class, with the same endpoints
    for a transition. *)
Definition same_shape (o o' : Obj) : Prop :=
  match o, o' with
  | ONode _, ONode _ => True
  | OTrans t, OTrans t' => sourceNode t' = sourceNode t /\ destNode t' = destNode t
  | _, _ => False
  end.

(** Every cell of [h] is still in [h'] with the same shape. *)
Definition heap_shape_le (h h' : gmap positive Obj) : Prop :=
  forall r o, h !! r = Some o -> exists o', h' !! r = Some o' /\ same_shape o o'.

(** ** The selection *)

(** [selectObject(obj)]: nothing if already selected, otherwise push it
    and call its [select()]. *)
Definition selectObject (r : positive) : js StateManager unit :=
  let* st := js_get in
  if bool_decide (r ∈ selectedObjects st) then js_ret tt
  else do* js_modify (set_selected (selectedObjects st ++ [r]));
       select_obj r.

(** [deselectAllObjects()]: [deselect()] on each selected object, then an
    empty selection. *)
Definition deselectAllObjects : js StateManager unit :=
  let* st := js_get in
  do* js_forEach deselect_obj (selectedObjects st);
  js_modify (set_selected []).

(** ** Transitions and the 'move' notification *)

Definition endpoint_pos (st : StateManager) (r : positive) : option Vector2d :=
  match node_at st r with
  | Some n => (fun v => g_pos (nodeGroup v)) <$> view n
  | None => None
  end.

(** [TransitionWrapper.updatePoints()]: redraw from the endpoints'
    positions. *)
Definition updatePoints (rt : positive) : js StateManager unit :=
  fun st => match heap st !! rt with
            | Some (OTrans t) =>
                match endpoint_pos st (sourceNode t), endpoint_pos st (destNode t) with
                | Some a, Some b =>
                    (set_heap (<[rt := OTrans (tw_set_points (Some (a, b)) t)]> (heap st)) st, Ok tt)
                | _, _ => (st, Err (TypeError "endpoint without a view"))
                end
            | _ => (st, Err (TypeError "not a TransitionWrapper"))
            end.

(** [StateManager.transitions.forEach(t => { if (t.involvesNode(node))
    t.updatePoints(); })]: the loop of [snapToGrid], and what the
    transitions' listeners do on a node's 'move' event. *)
Definition update_transitions_of (r : positive) : js StateManager unit :=
  let* st := js_get in
  js_forEach (fun rt => let* st := js_get in
                        match heap st !! rt with
                        | Some (OTrans t) => if involvesNode r t then updatePoints rt else js_ret tt
                        | _ => js_ret tt
                        end) (transitions st).

(** [konvaObject().fire('move', ev)]. *)
Definition fire_move (r : positive) : js StateManager unit := update_transitions_of r.

(** Adding the transition [src -> dst]: an existing edge between the same
    endpoints takes it (the symbols merge into one edge); otherwise a new
    [TransitionWrapper] is allocated, drawn and appended. *)
Definition edge_between (src dst : positive) (o : option Obj) : bool :=
  match o with
  | Some (OTrans t) => bool_decide (sourceNode t = src /\ destNode t = dst)
  | _ => false
  end.

Definition addTransition (src dst : positive) : js StateManager unit :=
  let* st := js_get in
  if existsb (fun rt => edge_between src dst (heap st !! rt)) (transitions st)
  then js_ret tt
  else
    let rt := next_ref st in
    do* js_modify (fun st => set_transitions (transitions st ++ [rt])
                    (set_alloc (issued st) (Pos.succ rt)
                      (set_heap (<[rt := OTrans (mkTrans src dst [] None false)]> (heap st)) st)));
    updatePoints rt.

(** ** The tentative transition *)

(** [startTentativeTransition(node)]: the source is the node, the free
    end starts at its position, no target yet. *)
Definition startTentativeTransition (r : positive) : js StateManager unit :=
  let* p := call_node r position in
  js_modify (fun st => set_target None (set_tentative (Some (mkTentative r p)) st)).

(** [updateTentativeTransitionHead(x, y)]. *)
Definition updateTentativeTransitionHead (x y : Q) : js StateManager unit :=
  js_modify (fun st => match tentative st with
                       | Some t => set_tentative (Some (mkTentative (tt_source t) (Vec x y))) st
                       | None => st
                       end).

(** [endTentativeTransition()]: add the transition when a target is set,
    then clear the record and the target in every case. *)
Definition endTentativeTransition : js StateManager unit :=
  let* st := js_get in
  do* match tentative st, tentativeTransitionTarget st with
      | Some t, Some d => addTransition (tt_source t) d
      | _, _ => js_ret tt
      end;
  js_modify (fun st => set_target None (set_tentative None st)).

(** ** The action log and the start-node collaborator *)

Definition log_call (c : Call) : js StateManager unit :=
  js_modify (fun st => set_log (log st ++ [c]) st).

Definition startDragStatesOperation (p : Vector2d) := log_call (StartDragStatesOperation p).
Definition completeDragStatesOperation (p : Vector2d) := log_call (CompleteDragStatesOperation p).
Definition updateStartNodePosition := log_call UpdateStartNodePosition.

(** ** Adding a state *)

(** Adding a state at [(x, y)]: a new [NodeWrapper] with a fresh id, its
    view, in a fresh heap cell. *)
Definition addNode (label : string) (x y : Q) : js StateManager positive :=
  fun st => let '(n, iss) := NodeWrapper_new label None (issued st) in
            let r := next_ref st in
            (set_alloc iss (Pos.succ r)
               (set_heap (<[r := ONode (createKonvaObjects (colorScheme st) x y n)]> (heap st)) st),
             Ok r).

(** The StateManager when the editor opens: Select tool, nothing drawn,
    nothing selected, no tentative transition, snapping off. *)
Definition init_state (cs : ColorScheme) : StateManager :=
  mkSM Select ∅ [] [] None None false cs [] ∅ 1.

(** The fields other than the heap and the selection are the same. *)
Definition frame_ok (st st' : StateManager) : Prop :=
  currentTool st' = currentTool st /\ transitions st' = transitions st
  /\ tentative st' = tentative st /\ tentativeTransitionTarget st' = tentativeTransitionTarget st
  /\ snapToGridEnabled st' = snapToGridEnabled st /\ colorScheme st' = colorScheme st
  /\ log st' = log st /\ next_ref st' = next_ref st.

(** ** The selection invariant *)

(** The selection has no duplicates and names live objects, every object
    is ready, and an object shows the selected look exactly when it is in
    the selection (spec section 4.2, "selection sync"). *)
Record sel_wf (st : StateManager) : Prop := {
  wf_nodup : NoDup (selectedObjects st);
  wf_sel_heap : forall r, r ∈ selectedObjects st -> is_Some (heap st !! r);
  wf_ready : forall r o, heap st !! r = Some o -> obj_ready o;
  wf_sync : forall r o, heap st !! r = Some o ->
    obj_shown (colorScheme st) o = bool_decide (r ∈ selectedObjects st) }.

(** [select()] through the interface on a ready object. *)
Lemma select_obj_ok (st : StateManager) (r : positive) (o : Obj) :
  heap st !! r = Some o -> obj_ready o ->
  exists o', select_obj r st = (set_heap (<[r := o']> (heap st)) st, Ok tt)
             /\ obj_ready o' /\ obj_shown (colorScheme st) o' = true /\ same_shape o o'.
Proof.
  intros Hr Hready. unfold select_obj, js_bind, js_get, call_obj. rewrite Hr.
  destruct o as [n|t].
  - destruct (sel_select_spec (colorScheme st) n Hready) as (H1 & H2 & H3).
    destruct (sel_select _ n) as [n' res]. simpl in *. subst. by exists (ONode n').
  - by exists (OTrans (tw_set_selected true t)).
Qed.

Lemma deselect_obj_ok (st : StateManager) (r : positive) (o : Obj) :
  heap st !! r = Some o -> obj_ready o ->
  exists o', deselect_obj r st = (set_heap (<[r := o']> (heap st)) st, Ok tt)
             /\ obj_ready o' /\ obj_shown (colorScheme st) o' = false /\ same_shape o o'.
Proof.
  intros Hr Hready. unfold deselect_obj, js_bind, js_get, call_obj. rewrite Hr.
  destruct o as [n|t].
  - destruct (sel_deselect_spec (colorScheme st) n Hready) as (H1 & H2 & H3).
    destruct (sel_deselect _ n) as [n' res]. simpl in *. subst. by exists (ONode n').
  - by exists (OTrans (tw_set_selected false t)).
Qed.

(** The loop of [deselectAllObjects] over distinct ready objects changes
    exactly their cells, each to a ready object without the selected look. *)
Lemma deselect_loop (l : list positive) (st : StateManager) :
  NoDup l -> (forall r, r ∈ l -> exists o, heap st !! r = Some o /\ obj_ready o) ->
  exists h', js_forEach deselect_obj l st = (set_heap h' st, Ok tt)
    /\ (forall r, r ∉ l -> h' !! r = heap st !! r)
    /\ (forall r, r ∈ l -> exists o, h' !! r = Some o /\ obj_ready o
                                     /\ obj_shown (colorScheme st) o = false)
    /\ heap_shape_le (heap st) h'.
Proof.
  revert st. induction l as [|a l IH]; intros st Hnd Hl.
  - exists (heap st). split_and!; [by destruct st | done | intros r Hr; set_solver |].
    intros r o Ho. exists o. split; [done | by destruct o].
  - apply NoDup_cons in Hnd as [Ha Hnd].
    destruct (Hl a ltac:(set_solver)) as (o & Ho & Hready).
    destruct (deselect_obj_ok st a o Ho Hready) as (o' & Hrun & Hready' & Hshown & Hshape).
    destruct (IH (set_heap (<[a := o']> (heap st)) st) Hnd) as (h' & Hloop & Hout & Hin & Hle).
    { intros r Hr. simpl. rewrite lookup_insert_ne by set_solver. apply Hl. set_solver. }
    exists h'. simpl. rewrite (js_bind_ok _ _ _ _ _ Hrun), Hloop. split_and!; [done | | |].
    + intros r Hr. rewrite Hout by set_solver. simpl. apply lookup_insert_ne. set_solver.
    + intros r Hr. apply elem_of_cons in Hr as [->|Hr]; [|by apply Hin].
      rewrite Hout by done. simpl. rewrite lookup_insert_eq. by exists o'.
    + intros r o2 Hr. simpl in Hle. destruct (decide (r = a)) as [->|Hne].
      * rewrite Ho in Hr. injection Hr as <-.
        destruct (Hle a o') as (o3 & Ho3 & Hs3); [by rewrite lookup_insert_eq|].
        exists o3. split; [done|]. destruct o, o', o3; simpl in *; try done.
        destruct Hshape, Hs3. split; congruence.
      * apply Hle. by rewrite lookup_insert_ne.
Qed.

(** The contract of [selectObject], shared by the handlers' proofs. *)
Lemma selectObject_effect (st : StateManager) (r : positive) :
  sel_wf st -> is_Some (heap st !! r) ->
  let '(st', res) := selectObject r st in
  res = Ok tt /\ sel_wf st'
  /\ selectedObjects st' = selectedObjects st ++ (if bool_decide (r ∈ selectedObjects st) then [] else [r])
  /\ (forall r', r' <> r -> heap st' !! r' = heap st !! r')
  /\ heap_shape_le (heap st) (heap st') /\ frame_ok st st'.
Proof.
  intros Hwf [o Ho]. unfold selectObject, js_bind, js_get.
  case_bool_decide as Hin.
  - simpl. rewrite app_nil_r. split_and!; try done.
    intros r' o' Ho'. exists o'. split; [done | by destruct o'].
    all: done.
  - unfold js_modify.
    destruct (select_obj_ok (set_selected (selectedObjects st ++ [r]) st) r o Ho
                (wf_ready _ Hwf _ _ Ho)) as (o' & Hrun & Hready & Hshown & Hshape).
    rewrite Hrun. simpl in *. split_and!; try done.
    + constructor; simpl.
      * apply NoDup_app. split_and!; [apply Hwf | set_solver | apply NoDup_singleton].
      * intros r' Hr'. destruct (decide (r' = r)) as [->|Hne];
          [by rewrite lookup_insert_eq | rewrite lookup_insert_ne by done; apply Hwf; set_solver].
      * intros r' o2 Hr'. destruct (decide (r' = r)) as [->|Hne].
        -- rewrite lookup_insert_eq in Hr'. by simplify_eq.
        -- rewrite lookup_insert_ne in Hr' by done. by apply (wf_ready _ Hwf r').
      * intros r' o2 Hr'. destruct (decide (r' = r)) as [->|Hne].
        -- rewrite lookup_insert_eq in Hr'. simplify_eq. rewrite Hshown.
           symmetry. apply bool_decide_eq_true. set_solver.
        -- rewrite lookup_insert_ne in Hr' by done. rewrite (wf_sync _ Hwf _ _ Hr').
           apply bool_decide_ext. set_solver.
    + intros r' Hne. by apply lookup_insert_ne.
    + intros r' o2 Hr'. destruct (decide (r' = r)) as [->|Hne].
      * rewrite lookup_insert_eq. simplify_eq. by exists o'.
      * rewrite lookup_insert_ne by done. exists o2. split; [done | by destruct o2].
Qed.

(** C5 (select): on a well-formed state, [selectObject] of a live
    object succeeds, appends it to the selection unless it is already
    there (then nothing changes), touches only that object's heap cell,
    and keeps the selection invariant, the selected look included. *)
Theorem selectObject_spec (st : StateManager) (r : positive) :
  sel_wf st -> is_Some (heap st !! r) ->
  let '(st', res) := selectObject r st in
  res = Ok tt /\ sel_wf st'
  /\ selectedObjects st' = selectedObjects st ++ (if bool_decide (r ∈ selectedObjects st) then [] else [r])
  /\ (forall r', r' <> r -> heap st' !! r' = heap st !! r')
  /\ heap_shape_le (heap st) (heap st') /\ frame_ok st st'.
Proof. exact (selectObject_effect st r). Qed.

(** The contract of [deselectAllObjects], shared by the handlers' proofs. *)
Lemma deselectAllObjects_effect (st : StateManager) :
  sel_wf st ->
  let '(st', res) := deselectAllObjects st in
  res = Ok tt /\ sel_wf st' /\ selectedObjects st' = []
  /\ (forall r o, heap st' !! r = Some o -> obj_shown (colorScheme st') o = false)
  /\ (forall r, is_Some (heap st' !! r) <-> is_Some (heap st !! r))
  /\ (forall r, r ∉ selectedObjects st -> heap st' !! r = heap st !! r)
  /\ heap_shape_le (heap st) (heap st') /\ frame_ok st st'.
Proof.
  intros Hwf. unfold deselectAllObjects, js_bind at 1, js_get.
  destruct (deselect_loop (selectedObjects st) st (wf_nodup _ Hwf)) as (h' & Hloop & Hout & Hin & Hle).
  { intros r Hr. destruct (wf_sel_heap _ Hwf r Hr) as [o Ho].
    exists o. split; [done | by apply (wf_ready _ Hwf r)]. }
  unfold js_bind. rewrite Hloop. simpl.
  assert (Hshown : forall r o, h' !! r = Some o -> obj_shown (colorScheme st) o = false).
  { intros r o Ho. destruct (decide (r ∈ selectedObjects st)) as [Hr|Hr].
    - destruct (Hin r Hr) as (o2 & Ho2 & _ & Hs). by simplify_eq.
    - rewrite Hout in Ho by done. rewrite (wf_sync _ Hwf _ _ Ho). by apply bool_decide_eq_false. }
  split_and!; try done.
  - constructor; simpl; [constructor | set_solver | |].
    + intros r o Ho. destruct (decide (r ∈ selectedObjects st)) as [Hr|Hr].
      * destruct (Hin r Hr) as (o2 & Ho2 & Hr2 & _). by simplify_eq.
      * rewrite Hout in Ho by done. by apply (wf_ready _ Hwf r).
    + intros r o Ho. by rewrite (Hshown r o Ho).
  - intros r. destruct (decide (r ∈ selectedObjects st)) as [Hr|Hr].
    + destruct (Hin r Hr) as (o2 & Ho2 & _). rewrite Ho2.
      split; [intros _; by apply Hwf | by eexists].
    + by rewrite Hout.
Qed.

(** C6 (deselect all): on a well-formed state, [deselectAllObjects]
    succeeds, empties the selection, leaves no object with the selected
    look, keeps every object alive and keeps the selection invariant. *)
Theorem deselectAllObjects_spec (st : StateManager) :
  sel_wf st ->
  let '(st', res) := deselectAllObjects st in
  res = Ok tt /\ sel_wf st' /\ selectedObjects st' = []
  /\ (forall r o, heap st' !! r = Some o -> obj_shown (colorScheme st') o = false)
  /\ (forall r, is_Some (heap st' !! r) <-> is_Some (heap st !! r))
  /\ (forall r, r ∉ selectedObjects st -> heap st' !! r = heap st !! r)
  /\ heap_shape_le (heap st) (heap st') /\ frame_ok st st'.
Proof. exact (deselectAllObjects_effect st). Qed.

Lemma init_sel_wf (cs : ColorScheme) : sel_wf (init_state cs).
Proof. constructor; simpl; [constructor | set_solver | done | done]. Qed.

(** A node built by [createKonvaObjects] does not look selected. *)
Lemma createKonvaObjects_unselected cs x y n :
  looks_selected cs (createKonvaObjects cs x y n) = false.
Proof. unfold looks_selected. simpl. by rewrite andb_false_r. Qed.

(** Adding a state in a fresh cell keeps the selection invariant. *)
Lemma addNode_sel_wf (st : StateManager) label x y :
  sel_wf st -> heap st !! next_ref st = None ->
  snd (addNode label x y st) = Ok (next_ref st) /\ sel_wf (fst (addNode label x y st))
  /\ selectedObjects (fst (addNode label x y st)) = selectedObjects st.
Proof.
  intros Hwf Hfresh. unfold addNode.
  destruct (NodeWrapper_new label None (issued st)) as [n iss]. simpl.
  split_and!; try done. constructor; simpl.
  - apply Hwf.
  - intros r Hr. destruct (decide (r = next_ref st)) as [->|Hne];
      [by rewrite lookup_insert_eq | rewrite lookup_insert_ne by done; by apply Hwf].
  - intros r o Hr. destruct (decide (r = next_ref st)) as [->|Hne].
    + rewrite lookup_insert_eq in Hr. simplify_eq. simpl. by eexists.
    + rewrite lookup_insert_ne in Hr by done. by apply (wf_ready _ Hwf r).
  - intros r o Hr. destruct (decide (r = next_ref st)) as [->|Hne].
    + rewrite lookup_insert_eq in Hr. simplify_eq. simpl.
      rewrite createKonvaObjects_unselected. symmetry. apply bool_decide_eq_false.
      intros Hin. destruct (wf_sel_heap _ Hwf _ Hin) as [? Hx]. congruence.
    + rewrite lookup_insert_ne in Hr by done. by apply (wf_sync _ Hwf r).
Qed.

(** ** Witnesses *)

(** One state [q0] at (100, 100) in a fresh editor. *)
Definition one_node_state : StateManager :=
  fst (addNode "q0" 100 100 (init_state example_scheme)).

Lemma one_node_sel_wf : sel_wf one_node_state.
Proof. apply addNode_sel_wf; [apply init_sel_wf | reflexivity]. Qed.

Lemma selectObject_spec_witness :
  sel_wf one_node_state /\ is_Some (heap one_node_state !! 1%positive)
  /\ (let '(st', res) := selectObject 1 one_node_state in
      res = Ok tt /\ sel_wf st'
      /\ selectedObjects st' = selectedObjects one_node_state
           ++ (if bool_decide (1%positive ∈ selectedObjects one_node_state) then [] else [1%positive])
      /\ (forall r', r' <> 1%positive -> heap st' !! r' = heap one_node_state !! r')
      /\ heap_shape_le (heap one_node_state) (heap st') /\ frame_ok one_node_state st').
Proof.
  assert (Hwf := one_node_sel_wf). assert (Hr : is_Some (heap one_node_state !! 1%positive))
    by (eexists; reflexivity).
  split; [exact Hwf | split; [exact Hr | exact (selectObject_spec one_node_state 1 Hwf Hr)]].
Defined.

Lemma deselectAllObjects_spec_witness :
  sel_wf one_node_state
  /\ (let '(st', res) := deselectAllObjects one_node_state in
      res = Ok tt /\ sel_wf st' /\ selectedObjects st' = []
      /\ (forall r o, heap st' !! r = Some o -> obj_shown (colorScheme st') o = false)
      /\ (forall r, is_Some (heap st' !! r) <-> is_Some (heap one_node_state !! r))
      /\ (forall r, r ∉ selectedObjects one_node_state -> heap st' !! r = heap one_node_state !! r)
      /\ heap_shape_le (heap one_node_state) (heap st') /\ frame_ok one_node_state st').
Proof.
  assert (Hwf := one_node_sel_wf).
  split; [exact Hwf | exact (deselectAllObjects_spec one_node_state Hwf)].
Defined.

End StateManager.
