(* ===== verification/Handlers.v ===== *)
(** * The pointer-event handlers of NodeWrapper ([src/NodeWrapper.ts] 203-472)

    [onClick], [onMouseEnter], [onMouseLeave], [onDragStart],
    [onDragMove], [onDragEnd] and [snapToGrid] run on the node [this] (a
    heap reference) and on the StateManager.  Every handler re-reads the
    current tool when it runs (no per-gesture lock, spec section 4.1).
    Konva's part of a drag is written out around them: the group is
    marked dragging before [dragstart], Konva moves the anchor to the
    pointer before [dragmove], and [stopDrag] ends the drag.  [dispatch]
    gives the editor's event loop: pointer events on a node, the external
    tool and snap toggles, and adding a state. *)

From S2P Require Import Prelude Konva Node StateManager.

Module Handlers.
Import Konva Node StateManager.

(** The fields of the [MouseEvent] the handlers read. *)
Record MouseEvent := mkMouse {
  shiftKey : bool;
  movementX : Q;
  movementY : Q;
  pageX : Q;
  pageY : Q }.

Definition is_node_obj (o : option Obj) : bool :=
  match o with Some (ONode _) => true | _ => false end.

(** [obj instanceof NodeWrapper] for the object at a reference. *)
Definition instanceof_node (st : StateManager) (r : positive) : bool :=
  is_node_obj (heap st !! r).

(** [this.lastPos] and [this.lastSnappedPos] (getters on the node). *)
Definition get_lastPos : js NodeWrapper (option Vector2d) :=
  let* n := js_get in js_ret (lastPos n).
Definition get_lastSnappedPos : js NodeWrapper Vector2d :=
  let* n := js_get in js_ret (lastSnappedPos n).

(** [nodeGroup.stopDrag()]: Konva ends the drag (its [dragend], in the
    States tool, runs the empty branch of [onDragEnd]). *)
Definition stopDrag : js NodeWrapper unit := with_view (on_group (set_dragging false)).

(** [onClick(ev)] *)
Definition onClick (this : positive) (ev : MouseEvent) : js StateManager unit :=
  let* st := js_get in
  if bool_decide (currentTool st = Select) then
    do* (if negb (shiftKey ev) then deselectAllObjects else js_ret tt);
    selectObject this
  else js_ret tt.

(** [onMouseEnter(ev)] *)
Definition onMouseEnter (this : positive) : js StateManager unit :=
  let* st := js_get in
  if bool_decide (currentTool st = Transitions) && tentativeTransitionInProgress st then
    do* js_modify (set_target (Some this));
    call_node this (enableNewConnectionGlow (colorScheme st))
  else js_ret tt.

(** [onMouseLeave(ev)] *)
Definition onMouseLeave (this : positive) : js StateManager unit :=
  let* st := js_get in
  if bool_decide (currentTool st = Transitions) then
    if tentativeTransitionInProgress st && bool_decide (tentativeTransitionTarget st = Some this) then
      do* js_modify (set_target None);
      call_node this disableShadowEffects
    else js_ret tt
  else js_ret tt.

(** [onDragStart(ev)] *)
Definition onDragStart (this : positive) (ev : MouseEvent) : js StateManager unit :=
  let* p := call_node this position in
  do* call_node this (js_modify (set_lastPos (Some p)));
  let* st := js_get in
  match currentTool st with
  | States => call_node this stopDrag
  | Transitions => startTentativeTransition this
  | Select =>
      do* (if negb (shiftKey ev) && bool_decide (length (selectedObjects st) = 1%nat)
           then deselectAllObjects else js_ret tt);
      do* selectObject this;
      let* st := js_get in
      do* js_forEach (fun r => if instanceof_node st r
                               then call_node r (enableDragDropShadow (colorScheme st))
                               else js_ret tt) (selectedObjects st);
      startDragStatesOperation p
  end.

(** Moving another selected node by the pointer's movement, then
    notifying its listeners. *)
Definition move_other (ev : MouseEvent) (r : positive) : js StateManager unit :=
  let* st := js_get in
  if instanceof_node st r then
    do* call_node r (let* q := position in setPosition (v2_add q (movementX ev) (movementY ev)));
    fire_move r
  else js_ret tt.

(** [onDragMove(ev)] *)
Definition onDragMove (this : positive) (ev : MouseEvent) : js StateManager unit :=
  let* st := js_get in
  match currentTool st with
  | Transitions =>
      let* lp := call_node this get_lastPos in
      do* call_node this (match lp with Some p => setPosition p | None => js_ret tt end);
      updateTentativeTransitionHead (pageX ev) (pageY ev)
  | Select =>
      do* fire_move this;
      let* st := js_get in
      js_forEach (move_other ev) (filter (fun r => r <> this) (selectedObjects st))
  | States => js_ret tt
  end.

(** [snapToGrid()]: the node's part, then the transitions it is on. *)
Definition snapToGrid (this : positive) : js StateManager Vector2d :=
  let* s := call_node this snapToGrid_node in
  do* update_transitions_of this;
  js_ret s.

(** [onDragEnd()] *)
Definition onDragEnd (this : positive) : js StateManager unit :=
  let* st := js_get in
  if bool_decide (currentTool st = States) then js_ret tt
  else if bool_decide (currentTool st = Select) && snapToGridEnabled st then
    let nodes := filter (fun r => instanceof_node st r = true) (selectedObjects st) in
    let* snappedPos := js_foldl (fun acc r => let* s := snapToGrid r in
                                              js_ret (if bool_decide (r = this) then s else acc))
                                (Vec 0 0) nodes in
    do* updateStartNodePosition;
    let* lsp := call_node this get_lastSnappedPos in
    if js_far (1 # 100000) (vx lsp) (vx snappedPos) || js_far (1 # 100000) (vy lsp) (vy snappedPos)
    then do* call_node this (js_modify (set_lastSnappedPos snappedPos));
         let* q := call_node this position in
         completeDragStatesOperation q
    else js_ret tt
  else if bool_decide (currentTool st = Transitions) then endTentativeTransition
  else if bool_decide (currentTool st = Select) then
    do* js_forEach (fun r => if instanceof_node st r then call_node r disableShadowEffects
                             else js_ret tt) (selectedObjects st);
    let* q := call_node this position in
    completeDragStatesOperation q
  else js_ret tt.

(** ** Konva's drag protocol around the handlers *)

Definition is_dragging (st : StateManager) (r : positive) : bool :=
  match node_at st r with
  | Some n => match view n with Some v => g_dragging (nodeGroup v) | None => false end
  | None => false
  end.

(** A drag starts: Konva marks the group, then fires [dragstart]. *)
Definition konva_dragstart (r : positive) (ev : MouseEvent) : js StateManager unit :=
  do* call_node r (with_view (on_group (set_dragging true)));
  onDragStart r ev.

(** The pointer moves during a drag: Konva puts the anchor at the
    pointer's position [p], then fires [dragmove]. *)
Definition konva_dragmove (r : positive) (p : Vector2d) (ev : MouseEvent) : js StateManager unit :=
  let* st := js_get in
  if is_dragging st r then do* call_node r (setPosition p); onDragMove r ev
  else js_ret tt.

(** The pointer is released: Konva ends the drag and fires [dragend]. *)
Definition konva_dragend (r : positive) : js StateManager unit :=
  let* st := js_get in
  if is_dragging st r then do* call_node r stopDrag; onDragEnd r
  else js_ret tt.

(** ** The editor's events *)

Inductive UIEvent :=
| Click (r : positive) (ev : MouseEvent)
| MouseEnter (r : positive)
| MouseLeave (r : positive)
| DragStart (r : positive) (ev : MouseEvent)
| DragMove (r : positive) (p : Vector2d) (ev : MouseEvent)
| DragEnd (r : positive)
| SetTool (t : Tool)
| SetSnap (b : bool)
| AddState (label : string) (x y : Q).

Definition dispatch (e : UIEvent) : js StateManager unit :=
  match e with
  | Click r ev => onClick r ev
  | MouseEnter r => onMouseEnter r
  | MouseLeave r => onMouseLeave r
  | DragStart r ev => konva_dragstart r ev
  | DragMove r p ev => konva_dragmove r p ev
  | DragEnd r => konva_dragend r
  | SetTool t => js_modify (set_tool t)
  | SetSnap b => js_modify (set_snap b)
  | AddState label x y => do* addNode label x y; js_ret tt
  end.

Definition run_events (es : list UIEvent) : js StateManager unit := js_forEach dispatch es.

(** Pointer events reach only nodes that exist. *)
Definition event_target (e : UIEvent) : option positive :=
  match e with
  | Click r _ | MouseEnter r | MouseLeave r | DragStart r _ | DragMove r _ _ | DragEnd r => Some r
  | _ => None
  end.

(** The states the editor can reach from an empty diagram, whatever the
    handlers return (an exception in a handler does not stop the page). *)
Inductive reachable (cs : ColorScheme) : StateManager -> Prop :=
| reach_init : reachable cs (init_state cs)
| reach_step st e st' res :
    reachable cs st ->
    (forall r, event_target e = Some r -> instanceof_node st r = true) ->
    dispatch e st = (st', res) -> reachable cs st'.

(** The browser's event loop: each event runs its handler to the end; an
    exception a handler throws is reported on the console and the next
    event runs on the state the handler left. *)
Fixpoint event_loop (es : list UIEvent) (st : StateManager) : StateManager :=
  match es with
  | [] => st
  | e :: es' => event_loop es' (fst (dispatch e st))
  end.

(** Whether every pointer event of a sequence reaches a live node when it
    is delivered. *)
Fixpoint targets_live (es : list UIEvent) (st : StateManager) : bool :=
  match es with
  | [] => true
  | e :: es' =>
      match event_target e with Some r => instanceof_node st r | None => true end
      && targets_live es' (fst (dispatch e st))
  end.

(** Sample pointer events and the two-state diagram the concrete runs
    start from: [q0] at (100, 100) is reference 1, [q1] at (300, 100) is
    reference 2. *)
Definition plain : MouseEvent := mkMouse false 0 0 0 0.
Definition shift : MouseEvent := mkMouse true 0 0 0 0.
Definition moved (dx dy : Q) : MouseEvent := mkMouse false dx dy 0 0.

Definition two_states : list UIEvent := [AddState "q0" 100 100; AddState "q1" 300 100].

End Handlers.
