(* ===== verification/Safety.v ===== *)
(** * The editor's invariant and the absence of exceptions in the handlers

    [wf] is what every reachable state of the editor satisfies: the
    selection invariant of [StateManager.sel_wf], heap references below
    the allocation counter, transitions whose endpoints are nodes, a
    tentative transition whose source is a node, and a tentative target
    that is a node and only set while a tentative transition is in
    progress.  [safe_at st m] says that [m] returns normally from [st] and
    ends in a state that is well formed, keeps every heap cell's class
    (and a transition's endpoints) and the colour scheme.  Each handler is
    shown [safe_at] from composition lemmas; [dispatch_ok],
    [event_loop_wf] and [reachable_wf] follow. *)

From S2P Require Import Prelude Konva Node StateManager Handlers.

Module Safety.
Import Konva Node StateManager Handlers.

Record wf (st : StateManager) : Prop := {
  wf_sel : sel_wf st;
  wf_fresh : forall r, is_Some (heap st !! r) -> (r < next_ref st)%positive;
  wf_edges : forall rt t, heap st !! rt = Some (OTrans t) ->
    instanceof_node st (sourceNode t) = true /\ instanceof_node st (destNode t) = true;
  wf_tent : forall t, tentative st = Some t -> instanceof_node st (tt_source t) = true;
  wf_target : forall d, tentativeTransitionTarget st = Some d ->
    instanceof_node st d = true /\ is_Some (tentative st) }.

Definition step_ok (st st' : StateManager) : Prop :=
  wf st' /\ heap_shape_le (heap st) (heap st') /\ colorScheme st' = colorScheme st.

Definition safe_at {A} (st : StateManager) (m : js StateManager A) : Prop :=
  exists st' a, m st = (st', Ok a) /\ step_ok st st'.

(** ** Heap shapes *)

Lemma heap_shape_le_refl h : heap_shape_le h h.
Proof. intros r o Ho. exists o. split; [done | by destruct o]. Qed.

Lemma same_shape_trans o1 o2 o3 : same_shape o1 o2 -> same_shape o2 o3 -> same_shape o1 o3.
Proof. destruct o1, o2, o3; simpl; intuition congruence. Qed.

Lemma heap_shape_le_trans h1 h2 h3 :
  heap_shape_le h1 h2 -> heap_shape_le h2 h3 -> heap_shape_le h1 h3.
Proof.
  intros H12 H23 r o Ho. destruct (H12 r o Ho) as (o2 & Ho2 & Hs2).
  destruct (H23 r o2 Ho2) as (o3 & Ho3 & Hs3). exists o3. split; [done|].
  by eapply same_shape_trans.
Qed.

Lemma shape_le_node h h' r :
  heap_shape_le h h' -> is_node_obj (h !! r) = true -> is_node_obj (h' !! r) = true.
Proof.
  intros Hle Hn. destruct (h !! r) as [[n|t]|] eqn:E; try discriminate.
  destruct (Hle r _ E) as ([n'|t'] & -> & Hs); [done | contradiction].
Qed.

Lemma shape_le_insert h r o o' :
  h !! r = Some o -> same_shape o o' -> heap_shape_le h (<[r := o']> h).
Proof.
  intros Ho Hs r' o2 Hr'. destruct (decide (r' = r)) as [->|Hne].
  - rewrite lookup_insert_eq. rewrite Ho in Hr'. injection Hr' as <-. by exists o'.
  - rewrite lookup_insert_ne by done. exists o2. split; [done | by destruct o2].
Qed.

#[export] Hint Resolve heap_shape_le_refl shape_le_node : automaton.

(** ** Transferring the invariant *)

(** A state whose selection part is well formed, whose cells keep their
    shape and whose other fields are unchanged is well formed. *)
Lemma wf_transfer st st' :
  wf st -> sel_wf st' -> heap_shape_le (heap st) (heap st') ->
  (forall r, is_Some (heap st' !! r) -> is_Some (heap st !! r)) ->
  next_ref st' = next_ref st -> tentative st' = tentative st ->
  tentativeTransitionTarget st' = tentativeTransitionTarget st -> wf st'.
Proof.
  intros Hwf Hsel Hle Hdom Hnext Htent Htarget. unfold instanceof_node.
  constructor; [done | | | |].
  - intros r Hr. rewrite Hnext. by apply (wf_fresh _ Hwf), Hdom.
  - intros rt t Ht. destruct (Hdom rt ltac:(by eexists)) as [o Ho].
    destruct (Hle rt o Ho) as (o' & Ho' & Hs). rewrite Ht in Ho'. injection Ho' as <-.
    destruct o as [n|t0]; [contradiction|]. destruct Hs as [Hsrc Hdst].
    destruct (wf_edges _ Hwf rt t0 Ho) as [H1 H2].
    rewrite Hsrc, Hdst. split; eapply shape_le_node; eauto.
  - intros t Ht. rewrite Htent in Ht. eapply shape_le_node; [done|]. by apply (wf_tent _ Hwf).
  - intros d Hd. rewrite Htarget in Hd. destruct (wf_target _ Hwf d Hd) as [H1 H2].
    rewrite Htent. split; [eapply shape_le_node; eauto | done].
Qed.

Lemma sel_wf_frame st st' :
  sel_wf st -> heap st' = heap st -> selectedObjects st' = selectedObjects st ->
  colorScheme st' = colorScheme st -> sel_wf st'.
Proof. intros [] Hh Hs Hc. constructor; rewrite ?Hh, ?Hs, ?Hc; done. Qed.

(** A state that differs only in the tool, the snap flag or the log. *)
Lemma wf_frame st st' :
  wf st -> heap st' = heap st -> selectedObjects st' = selectedObjects st ->
  colorScheme st' = colorScheme st -> next_ref st' = next_ref st ->
  tentative st' = tentative st -> tentativeTransitionTarget st' = tentativeTransitionTarget st ->
  wf st'.
Proof.
  intros Hwf Hh Hs Hc Hn Ht Htg. apply (wf_transfer st); try done.
  - apply (sel_wf_frame st); [apply Hwf | done..].
  - rewrite Hh. apply heap_shape_le_refl.
  - by rewrite Hh.
Qed.

(** Replacing a cell by a ready object of the same shape and look. *)
Lemma wf_set_cell st r o o' :
  wf st -> heap st !! r = Some o -> obj_ready o' ->
  obj_shown (colorScheme st) o' = obj_shown (colorScheme st) o -> same_shape o o' ->
  step_ok st (set_heap (<[r := o']> (heap st)) st).
Proof.
  intros Hwf Ho Hready Hshown Hs.
  assert (Hle := shape_le_insert _ _ _ _ Ho Hs).
  split_and!; [| done | done]. apply (wf_transfer st); try done; simpl.
  - destruct (wf_sel _ Hwf) as [Hnd Hsh Hrd Hsy]. constructor; simpl; [done | | |].
    + intros r' Hr'. destruct (decide (r' = r)) as [->|Hne];
        [by rewrite lookup_insert_eq | rewrite lookup_insert_ne by done; auto].
    + intros r' o2 Hr'. destruct (decide (r' = r)) as [->|Hne].
      * rewrite lookup_insert_eq in Hr'. by injection Hr' as <-.
      * rewrite lookup_insert_ne in Hr' by done. eauto.
    + intros r' o2 Hr'. destruct (decide (r' = r)) as [->|Hne].
      * rewrite lookup_insert_eq in Hr'. injection Hr' as <-. rewrite Hshown. eauto.
      * rewrite lookup_insert_ne in Hr' by done. eauto.
  - intros r' Hr'. destruct (decide (r' = r)) as [->|Hne]; [by eexists|].
    by rewrite lookup_insert_ne in Hr'.
Qed.

(** ** Composition *)

Lemma step_ok_refl st : wf st -> step_ok st st.
Proof. intros Hwf. split_and!; eauto with automaton. Qed.

Lemma step_ok_trans st1 st2 st3 : step_ok st1 st2 -> step_ok st2 st3 -> step_ok st1 st3.
Proof.
  intros (_ & H12 & C12) (W3 & H23 & C23). split_and!; [done | | congruence].
  eapply heap_shape_le_trans; eauto.
Qed.

Lemma safe_at_ret {A} st (a : A) : wf st -> safe_at st (js_ret a).
Proof. intros Hwf. exists st, a. split; [done | by apply step_ok_refl]. Qed.

Lemma safe_at_get st : wf st -> safe_at st js_get.
Proof. intros Hwf. exists st, st. split; [done | by apply step_ok_refl]. Qed.

Lemma safe_at_bind {A B} st (m : js StateManager A) (f : A -> js StateManager B) :
  safe_at st m ->
  (forall st' a, m st = (st', Ok a) -> step_ok st st' -> safe_at st' (f a)) ->
  safe_at st (js_bind m f).
Proof.
  intros (st1 & a & E1 & H1) Hf. destruct (Hf st1 a E1 H1) as (st2 & b & E2 & H2).
  exists st2, b. unfold js_bind. rewrite E1. split; [done | by eapply step_ok_trans].
Qed.

(** A loop whose body is safe from every well-formed state is safe. *)
Lemma safe_at_forEach {A} (P : StateManager -> Prop) (body : A -> js StateManager unit) l st :
  wf st -> P st ->
  (forall st1 st2, P st1 -> step_ok st1 st2 -> P st2) ->
  (forall x st1, x ∈ l -> wf st1 -> P st1 -> safe_at st1 (body x)) ->
  safe_at st (js_forEach body l).
Proof.
  intros Hwf HP Hmono Hbody. revert st Hwf HP. induction l as [|x l IH]; intros st Hwf HP.
  - by apply safe_at_ret.
  - simpl. apply safe_at_bind; [apply Hbody; [set_solver | done..]|].
    intros st' [] E Hok. apply IH; [intros; apply Hbody; [set_solver | done..] | apply Hok | eauto].
Qed.

Lemma safe_at_foldl {A B} (P : StateManager -> Prop) (f : B -> A -> js StateManager B) acc l st :
  wf st -> P st ->
  (forall st1 st2, P st1 -> step_ok st1 st2 -> P st2) ->
  (forall acc x st1, x ∈ l -> wf st1 -> P st1 -> safe_at st1 (f acc x)) ->
  safe_at st (js_foldl f acc l).
Proof.
  intros Hwf HP Hmono Hf. revert acc st Hwf HP. induction l as [|x l IH]; intros acc st Hwf HP.
  - by apply safe_at_ret.
  - simpl. apply safe_at_bind; [apply Hf; [set_solver | done..]|].
    intros st' a E Hok. apply IH; [intros; apply Hf; [set_solver | done..] | apply Hok | eauto].
Qed.

(** ** The StateManager operations *)

Lemma call_node_ok {A} st r n (m : js NodeWrapper A) n' a :
  heap st !! r = Some (ONode n) -> m n = (n', Ok a) ->
  call_node r m st = (set_heap (<[r := ONode n']> (heap st)) st, Ok a).
Proof. intros E Em. unfold call_node. by rewrite E, Em. Qed.

Lemma node_of st r : instanceof_node st r = true -> exists n, heap st !! r = Some (ONode n).
Proof. unfold instanceof_node. destruct (heap st !! r) as [[n|]|]; try discriminate. by exists n. Qed.

Lemma call_node_safe {A} st r (m : js NodeWrapper A) :
  wf st -> instanceof_node st r = true -> node_safe m -> safe_at st (call_node r m).
Proof.
  intros Hwf Hr Hm. destruct (node_of st r Hr) as [n E].
  destruct (Hm n (wf_ready _ (wf_sel _ Hwf) r _ E)) as (n' & a & Em & Hv' & Hl).
  exists (set_heap (<[r := ONode n']> (heap st)) st), a.
  split; [by apply (call_node_ok _ _ n)|]. apply (wf_set_cell st r (ONode n)); try done. simpl. by rewrite Hl.
Qed.

Lemma selectObject_safe st r : wf st -> is_Some (heap st !! r) -> safe_at st (selectObject r).
Proof.
  intros Hwf Hr. pose proof (selectObject_effect st r (wf_sel _ Hwf) Hr) as H. unfold safe_at.
  destruct (selectObject r st) as [st' res].
  destruct H as (-> & Hsel & _ & Hother & Hle & Hfr). exists st', tt.
  destruct Hfr as (_ & _ & Ht & Htg & _ & Hcs & _ & Hn).
  unfold step_ok; split_and!; try done. apply (wf_transfer st); try done.
  intros r' Hr'. destruct (decide (r' = r)) as [->|Hne]; [done | by rewrite <- Hother].
Qed.

Lemma deselectAllObjects_safe st : wf st -> safe_at st deselectAllObjects.
Proof.
  intros Hwf. pose proof (deselectAllObjects_effect st (wf_sel _ Hwf)) as H. unfold safe_at.
  destruct (deselectAllObjects st) as [st' res].
  destruct H as (-> & Hsel & _ & _ & Hdom & _ & Hle & Hfr). exists st', tt.
  destruct Hfr as (_ & _ & Ht & Htg & _ & Hcs & _ & Hn).
  unfold step_ok; split_and!; try done. apply (wf_transfer st); try done. intros r. apply Hdom.
Qed.

Lemma log_call_safe st c : wf st -> safe_at st (log_call c).
Proof.
  intros Hwf. exists (set_log (log st ++ [c]) st), tt. split; [done|].
  split_and!; [| apply heap_shape_le_refl | done]. by apply (wf_frame st).
Qed.

Lemma updateTentativeTransitionHead_safe st x y : wf st -> safe_at st (updateTentativeTransitionHead x y).
Proof.
  intros Hwf. unfold updateTentativeTransitionHead, js_modify, safe_at.
  destruct (tentative st) as [t|] eqn:Et.
  - eexists _, tt. split; [reflexivity|]. split_and!; [| apply heap_shape_le_refl | done].
    destruct Hwf as [Hs Hf He Ht Htg]. constructor.
    + apply (sel_wf_frame st); [exact Hs | done..].
    + exact Hf.
    + exact He.
    + intros t' Ht'. simpl in Ht'. injection Ht' as <-. simpl. by apply (Ht t).
    + intros d Hd. destruct (Htg d Hd) as [H1 _]. split; [done | by eexists].
  - exists st, tt. split; [reflexivity | by apply step_ok_refl].
Qed.


Lemma safe_at_get_bind {A} st (f : StateManager -> js StateManager A) :
  safe_at st (f st) -> safe_at st (js_bind js_get f).
Proof. intros H. exact H. Qed.

Lemma safe_at_modify st (f : StateManager -> StateManager) :
  step_ok st (f st) -> safe_at st (js_modify f).
Proof. intros H. by exists (f st), tt. Qed.

Lemma shape_le_insert_fresh h r o : h !! r = None -> heap_shape_le h (<[r := o]> h).
Proof.
  intros Hr r' o' Hr'. exists o'. split; [|by destruct o'].
  rewrite lookup_insert_ne; [done|]. intros ->. congruence.
Qed.

Lemma next_ref_fresh st : wf st -> heap st !! next_ref st = None.
Proof.
  intros Hwf. destruct (heap st !! next_ref st) eqn:E; [|done].
  pose proof (wf_fresh _ Hwf (next_ref st) ltac:(by eexists)). lia.
Qed.

Lemma endpoint_pos_node st r :
  wf st -> instanceof_node st r = true -> exists p, endpoint_pos st r = Some p.
Proof.
  intros Hwf Hr. destruct (node_of st r Hr) as [n E].
  destruct (wf_ready _ (wf_sel _ Hwf) r _ E) as [v Hv].
  exists (g_pos (nodeGroup v)). unfold endpoint_pos, node_at. by rewrite E, Hv.
Qed.

Lemma updatePoints_safe st rt t :
  wf st -> heap st !! rt = Some (OTrans t) -> safe_at st (updatePoints rt).
Proof.
  intros Hwf Ht. destruct (wf_edges _ Hwf rt t Ht) as [Hs Hd].
  destruct (endpoint_pos_node st _ Hwf Hs) as [a Ha].
  destruct (endpoint_pos_node st _ Hwf Hd) as [b Hb].
  eexists _, tt. split; [unfold updatePoints; by rewrite Ht, Ha, Hb|].
  by apply (wf_set_cell st rt (OTrans t)).
Qed.

Lemma update_transitions_of_safe st r : wf st -> safe_at st (update_transitions_of r).
Proof.
  intros Hwf. apply safe_at_get_bind.
  apply (safe_at_forEach (fun _ => True)); [done | done | done |].
  intros rt st1 _ Hwf1 _. apply safe_at_get_bind.
  destruct (heap st1 !! rt) as [[n|t]|] eqn:E; try by apply safe_at_ret.
  destruct (involvesNode r t); [by apply (updatePoints_safe st1 rt t) | by apply safe_at_ret].
Qed.

Lemma fire_move_safe st r : wf st -> safe_at st (fire_move r).
Proof. apply update_transitions_of_safe. Qed.

Lemma snapToGrid_safe st r : wf st -> instanceof_node st r = true -> safe_at st (snapToGrid r).
Proof.
  intros Hwf Hr. unfold snapToGrid.
  apply safe_at_bind; [apply call_node_safe; eauto with automaton|].
  intros st1 s _ Hok1. apply safe_at_bind; [apply update_transitions_of_safe, Hok1|].
  intros st2 [] _ Hok2. apply safe_at_ret, Hok2.
Qed.

Lemma startTentativeTransition_safe st r :
  wf st -> instanceof_node st r = true -> safe_at st (startTentativeTransition r).
Proof.
  intros Hwf Hr. unfold startTentativeTransition.
  apply safe_at_bind; [apply call_node_safe; eauto with automaton|].
  intros st1 p _ (Hwf1 & Hle1 & Hc1). apply safe_at_modify.
  assert (Hr1 : instanceof_node st1 r = true) by (eapply shape_le_node; eauto).
  split_and!; [| apply heap_shape_le_refl | done].
  destruct Hwf1 as [Hs Hf He Ht Htg]. constructor.
  - apply (sel_wf_frame st1); [exact Hs | done..].
  - exact Hf.
  - exact He.
  - intros t Htt. simpl in Htt. by injection Htt as <-.
  - intros d Hd. discriminate.
Qed.

(** Allocating a transition between two nodes in the fresh cell. *)
Lemma alloc_transition_wf st src dst :
  wf st -> instanceof_node st src = true -> instanceof_node st dst = true ->
  let rt := next_ref st in
  step_ok st (set_transitions (transitions st ++ [rt])
                (set_alloc (issued st) (Pos.succ rt)
                   (set_heap (<[rt := OTrans (mkTrans src dst [] None false)]> (heap st)) st))).
Proof.
  intros Hwf Hs Hd rt. subst rt. pose proof (next_ref_fresh st Hwf) as Hfresh.
  set (rt := next_ref st) in *.
  assert (Hle := shape_le_insert_fresh (heap st) rt (OTrans (mkTrans src dst [] None false)) Hfresh).
  split_and!; [| done | done].
  destruct Hwf as [[Hnd Hsh Hrd Hsy] Hf He Ht Htg]. unfold instanceof_node in *.
  constructor; simpl.
  - constructor; simpl; [done | | |].
    + intros r Hr. destruct (decide (r = rt)) as [->|Hne];
        [by rewrite lookup_insert_eq | rewrite lookup_insert_ne by done; auto].
    + intros r o Hr. destruct (decide (r = rt)) as [->|Hne].
      * rewrite lookup_insert_eq in Hr. by injection Hr as <-.
      * rewrite lookup_insert_ne in Hr by done. eauto.
    + intros r o Hr. destruct (decide (r = rt)) as [->|Hne].
      * rewrite lookup_insert_eq in Hr. injection Hr as <-. simpl. symmetry.
        apply bool_decide_eq_false. intros Hin. destruct (Hsh rt Hin). congruence.
      * rewrite lookup_insert_ne in Hr by done. eauto.
  - intros r Hr. destruct (decide (r = rt)) as [->|Hne]; [lia|].
    rewrite lookup_insert_ne in Hr by done. specialize (Hf r Hr). lia.
  - intros rt' t Ht'. destruct (decide (rt' = rt)) as [->|Hne].
    + rewrite lookup_insert_eq in Ht'. injection Ht' as <-. simpl.
      split; eapply shape_le_node; eauto.
    + rewrite lookup_insert_ne in Ht' by done. destruct (He rt' t Ht').
      split; eapply shape_le_node; eauto.
  - intros t Htt. eapply shape_le_node; eauto.
  - intros d Hdd. destruct (Htg d Hdd). split; [eapply shape_le_node; eauto | done].
Qed.

Lemma addTransition_safe st src dst :
  wf st -> instanceof_node st src = true -> instanceof_node st dst = true ->
  safe_at st (addTransition src dst).
Proof.
  intros Hwf Hs Hd. unfold addTransition. apply safe_at_get_bind.
  try (destruct (existsb _ _); [by apply safe_at_ret|]).
  apply safe_at_bind; [apply safe_at_modify; by apply alloc_transition_wf|].
  intros st1 [] E Hok1. unfold js_modify in E. injection E as <-.
  eapply updatePoints_safe; [apply Hok1|]. simpl. apply lookup_insert_eq.
Qed.

Lemma endTentativeTransition_safe st : wf st -> safe_at st endTentativeTransition.
Proof.
  intros Hwf. unfold endTentativeTransition. apply safe_at_get_bind.
  apply safe_at_bind.
  - destruct (tentative st) as [t|] eqn:Et; [|by apply safe_at_ret].
    destruct (tentativeTransitionTarget st) as [d|] eqn:Ed; [|by apply safe_at_ret].
    apply addTransition_safe; [done | by apply (wf_tent _ Hwf) | by apply (wf_target _ Hwf)].
  - intros st1 [] _ (Hwf1 & _ & _). apply safe_at_modify.
    split_and!; [| apply heap_shape_le_refl | done].
    destruct Hwf1 as [Hs Hf He Ht Htg]. constructor.
    + apply (sel_wf_frame st1); [exact Hs | done..].
    + exact Hf.
    + exact He.
    + intros t Htt. discriminate.
    + intros d Hd. discriminate.
Qed.

(** ** The handlers *)

Lemma step_ok_node st st' r :
  step_ok st st' -> instanceof_node st r = true -> instanceof_node st' r = true.
Proof. intros (_ & Hle & _). unfold instanceof_node. eauto with automaton. Qed.

Lemma node_is_Some st r : instanceof_node st r = true -> is_Some (heap st !! r).
Proof. intros Hr. destruct (node_of st r Hr) as [n ->]. by eexists. Qed.

Lemma node_safe_stopDrag : node_safe stopDrag.
Proof. unfold stopDrag. node_safe_tac. Qed.

Lemma node_safe_dragging b : node_safe (with_view (on_group (set_dragging b))).
Proof. node_safe_tac. Qed.

Lemma node_safe_lastPos p : node_safe (js_modify (set_lastPos p)).
Proof. node_safe_tac. Qed.

Lemma node_safe_lastSnappedPos p : node_safe (js_modify (set_lastSnappedPos p)).
Proof. node_safe_tac. Qed.

Lemma node_safe_get_lastPos : node_safe get_lastPos.
Proof. unfold get_lastPos. node_safe_tac. Qed.

Lemma node_safe_get_lastSnappedPos : node_safe get_lastSnappedPos.
Proof. unfold get_lastSnappedPos. node_safe_tac. Qed.

Lemma node_safe_move dx dy :
  node_safe (let* q := position in setPosition (v2_add q dx dy)).
Proof. apply node_safe_bind; eauto with automaton. Qed.

#[export] Hint Resolve node_safe_stopDrag node_safe_dragging node_safe_lastPos
  node_safe_lastSnappedPos node_safe_get_lastPos node_safe_get_lastSnappedPos node_safe_move
  : automaton.

(** Discharges [safe_at st (call_node r m)] for a node [r] reached
    through [step_ok] steps. *)
Ltac call_node_tac :=
  apply call_node_safe; [assumption | repeat (eapply step_ok_node; [eassumption|]); assumption
                        | eauto with automaton].

(** A loop over references whose body calls a node method on the ones
    that were nodes when the loop started. *)
Lemma forEach_node_call_safe st0 st (l : list positive) (m : js NodeWrapper unit) :
  wf st -> heap_shape_le (heap st0) (heap st) -> node_safe m ->
  safe_at st (js_forEach (fun r => if instanceof_node st0 r then call_node r m else js_ret tt) l).
Proof.
  intros Hwf Hle Hm.
  apply (safe_at_forEach (fun st1 => heap_shape_le (heap st0) (heap st1))); [done | done | |].
  - intros st1 st2 H1 (_ & H12 & _). eapply heap_shape_le_trans; eauto.
  - intros r st1 _ Hwf1 H1. destruct (instanceof_node st0 r) eqn:Er; [|by apply safe_at_ret].
    apply call_node_safe; [done | | done]. unfold instanceof_node in *. eauto with automaton.
Qed.

Lemma move_other_safe st ev r : wf st -> safe_at st (move_other ev r).
Proof.
  intros Hwf. unfold move_other. apply safe_at_get_bind.
  destruct (instanceof_node st r) eqn:Er; [|by apply safe_at_ret].
  apply safe_at_bind; [apply call_node_safe; eauto with automaton|].
  intros st1 [] _ Hok1. apply fire_move_safe, Hok1.
Qed.

(** A node that was live stays live along the steps in the context. *)
Ltac safe_live := repeat (eapply step_ok_node; [eassumption|]); assumption.

(** Safety of a handler body, one statement at a time: each bind adds
    the [step_ok] of its first part to the context, so the calls that
    follow see a well-formed state in which the node is still live. *)
Ltac safe_tac :=
  repeat match goal with
  | |- safe_at _ (js_bind js_get _) => apply safe_at_get_bind
  | |- safe_at _ (js_bind _ _) =>
      apply safe_at_bind; [| let s := fresh "st" in let H := fresh "Hok" in
                             intros s ? _ H; pose proof (proj1 H)]
  | |- safe_at _ (js_ret _) => apply safe_at_ret; assumption
  | |- safe_at _ (if ?b then _ else _) => destruct b
  | |- safe_at _ (match ?x with _ => _ end) => destruct x
  | |- safe_at _ (call_node _ _) =>
      apply call_node_safe; [assumption | safe_live | repeat case_match; eauto with automaton]
  | |- safe_at _ (log_call _) => apply log_call_safe; assumption
  | |- safe_at _ (startDragStatesOperation _) => apply log_call_safe; assumption
  | |- safe_at _ (completeDragStatesOperation _) => apply log_call_safe; assumption
  | |- safe_at _ updateStartNodePosition => apply log_call_safe; assumption
  | |- safe_at _ deselectAllObjects => apply deselectAllObjects_safe; assumption
  | |- safe_at _ (selectObject _) => apply selectObject_safe; [assumption | apply node_is_Some; safe_live]
  | |- safe_at _ (fire_move _) => apply fire_move_safe; assumption
  | |- safe_at _ (updateTentativeTransitionHead _ _) => apply updateTentativeTransitionHead_safe; assumption
  | |- safe_at _ endTentativeTransition => apply endTentativeTransition_safe; assumption
  | |- safe_at _ (startTentativeTransition _) => apply startTentativeTransition_safe; [assumption | safe_live]
  | |- safe_at _ (js_forEach (move_other _) _) =>
      apply (safe_at_forEach (fun _ => True)); [assumption | done | done | intros ? ? _ ? _; by apply move_other_safe]
  | |- safe_at _ (js_forEach (fun r => if instanceof_node _ r then call_node r _ else js_ret tt) _) =>
      apply forEach_node_call_safe; [assumption | apply heap_shape_le_refl | eauto with automaton]
  | |- safe_at _ (snapToGrid _) => apply snapToGrid_safe; [assumption | unfold instanceof_node in *; eauto with automaton]
  | |- safe_at ?st0 (js_foldl _ _ _) =>
      apply (safe_at_foldl (fun st1 => heap_shape_le (heap st0) (heap st1)));
        [assumption | apply heap_shape_le_refl
        | intros ? ? ? (_ & ? & _); eapply heap_shape_le_trans; eauto
        | let Hr := fresh "Hr" in intros ? ? ? Hr ? ?; apply list_elem_of_filter in Hr as [Hr _]]
  end.

Lemma onClick_safe st this ev :
  wf st -> instanceof_node st this = true -> safe_at st (onClick this ev).
Proof. intros Hwf Hn. unfold onClick. safe_tac. Qed.

Lemma onMouseEnter_safe st this :
  wf st -> instanceof_node st this = true -> safe_at st (onMouseEnter this).
Proof.
  intros Hwf Hn. unfold onMouseEnter. apply safe_at_get_bind.
  destruct (bool_decide _ && _) eqn:Hc; [|by apply safe_at_ret].
  apply andb_true_iff in Hc as [_ Hprog]. unfold tentativeTransitionInProgress in Hprog.
  apply bool_decide_eq_true in Hprog.
  apply safe_at_bind.
  - apply safe_at_modify. split_and!; [| apply heap_shape_le_refl | done].
    destruct Hwf as [Hs Hf He Ht Htg]. constructor.
    + apply (sel_wf_frame st); [exact Hs | done..].
    + exact Hf.
    + exact He.
    + exact Ht.
    + intros d Hd. simpl in Hd. injection Hd as <-. by split.
  - intros st1 [] _ Hok1. destruct Hok1 as (Hwf1 & Hle1 & Hc1).
    apply call_node_safe; [done | | eauto with automaton]. unfold instanceof_node. eauto with automaton.
Qed.

Lemma onMouseLeave_safe st this :
  wf st -> instanceof_node st this = true -> safe_at st (onMouseLeave this).
Proof.
  intros Hwf Hn. unfold onMouseLeave. apply safe_at_get_bind.
  case_bool_decide; [|by apply safe_at_ret].
  destruct (_ && _); [|by apply safe_at_ret].
  apply safe_at_bind.
  - apply safe_at_modify. split_and!; [| apply heap_shape_le_refl | done].
    destruct Hwf as [Hs Hf He Ht Htg]. constructor.
    + apply (sel_wf_frame st); [exact Hs | done..].
    + exact Hf.
    + exact He.
    + exact Ht.
    + intros d Hd. discriminate.
  - intros st1 [] _ Hok1. apply call_node_safe; [apply Hok1 | | eauto with automaton].
    eapply step_ok_node; eauto.
Qed.

Lemma onDragStart_safe st this ev :
  wf st -> instanceof_node st this = true -> safe_at st (onDragStart this ev).
Proof. intros Hwf Hn. unfold onDragStart. safe_tac. Qed.

Lemma onDragMove_safe st this ev :
  wf st -> instanceof_node st this = true -> safe_at st (onDragMove this ev).
Proof. intros Hwf Hn. unfold onDragMove. safe_tac. Qed.

Lemma onDragEnd_safe st this :
  wf st -> instanceof_node st this = true -> safe_at st (onDragEnd this).
Proof. intros Hwf Hn. unfold onDragEnd. safe_tac. Qed.

Lemma konva_dragstart_safe st r ev :
  wf st -> instanceof_node st r = true -> safe_at st (konva_dragstart r ev).
Proof.
  intros Hwf Hn. unfold konva_dragstart. apply safe_at_bind; [call_node_tac|].
  intros st1 [] _ Hok1. apply onDragStart_safe; [apply Hok1 | eapply step_ok_node; eauto].
Qed.

Lemma konva_dragmove_safe st r p ev :
  wf st -> instanceof_node st r = true -> safe_at st (konva_dragmove r p ev).
Proof.
  intros Hwf Hn. unfold konva_dragmove. apply safe_at_get_bind.
  destruct (is_dragging st r); [|by apply safe_at_ret].
  apply safe_at_bind; [call_node_tac|].
  intros st1 [] _ Hok1. apply onDragMove_safe; [apply Hok1 | eapply step_ok_node; eauto].
Qed.

Lemma konva_dragend_safe st r :
  wf st -> instanceof_node st r = true -> safe_at st (konva_dragend r).
Proof.
  intros Hwf Hn. unfold konva_dragend. apply safe_at_get_bind.
  destruct (is_dragging st r); [|by apply safe_at_ret].
  apply safe_at_bind; [call_node_tac|].
  intros st1 [] _ Hok1. apply onDragEnd_safe; [apply Hok1 | eapply step_ok_node; eauto].
Qed.

(** ** The editor's event loop *)

Lemma init_wf cs : wf (init_state cs).
Proof.
  constructor; [apply init_sel_wf | | | |]; simpl.
  - intros r [o Ho]. by rewrite lookup_empty in Ho.
  - intros rt t Ht. by rewrite lookup_empty in Ht.
  - done.
  - done.
Qed.

Lemma addNode_step st label x y :
  wf st -> exists r, addNode label x y st = (fst (addNode label x y st), Ok r)
                     /\ step_ok st (fst (addNode label x y st)).
Proof.
  intros Hwf. pose proof (next_ref_fresh st Hwf) as Hfresh.
  destruct (addNode_sel_wf st label x y (wf_sel _ Hwf) Hfresh) as (Hres & Hsel & _).
  exists (next_ref st). split; [by destruct (addNode label x y st); simpl in *; subst|].
  unfold addNode in *. destruct (NodeWrapper_new label None (issued st)) as [n iss]. simpl in *.
  assert (Hle := shape_le_insert_fresh (heap st) (next_ref st)
                   (ONode (createKonvaObjects (colorScheme st) x y n)) Hfresh).
  split_and!; [| done | done]. destruct Hwf as [Hs Hf He Ht Htg]. unfold instanceof_node in *.
  constructor; simpl; [done | | | |].
  - intros r Hr. destruct (decide (r = next_ref st)) as [->|Hne]; [lia|].
    rewrite lookup_insert_ne in Hr by done. specialize (Hf r Hr). lia.
  - intros rt t Ht'. destruct (decide (rt = next_ref st)) as [->|Hne].
    + by rewrite lookup_insert_eq in Ht'.
    + rewrite lookup_insert_ne in Ht' by done. destruct (He rt t Ht').
      split; eapply shape_le_node; eauto.
  - intros t Htt. eapply shape_le_node; eauto.
  - intros d Hd. destruct (Htg d Hd). split; [eapply shape_le_node; eauto | done].
Qed.

(** From a well-formed state, every event of the editor (a pointer event
    on a live node, a tool or snap toggle, adding a state) returns
    normally and leaves a well-formed state. *)
Lemma dispatch_ok (st : StateManager) (e : UIEvent) :
  wf st -> (forall r, event_target e = Some r -> instanceof_node st r = true) ->
  exists st', dispatch e st = (st', Ok tt) /\ step_ok st st'.
Proof.
  intros Hwf Htarget.
  assert (Hev : forall m : js StateManager unit, safe_at st m ->
                exists st', m st = (st', Ok tt) /\ step_ok st st').
  { intros m (st' & [] & E & Hok). by exists st'. }
  destruct e as [r ev|r|r|r ev|r p ev|r|t|b|label x y]; simpl;
    try (specialize (Htarget r eq_refl); apply Hev).
  - by apply onClick_safe.
  - by apply onMouseEnter_safe.
  - by apply onMouseLeave_safe.
  - by apply konva_dragstart_safe.
  - by apply konva_dragmove_safe.
  - by apply konva_dragend_safe.
  - eexists. split; [reflexivity|]. unfold step_ok. split_and!; [by apply (wf_frame st) | apply heap_shape_le_refl | done].
  - eexists. split; [reflexivity|]. unfold step_ok. split_and!; [by apply (wf_frame st) | apply heap_shape_le_refl | done].
  - destruct (addNode_step st label x y Hwf) as (r & E & Hok).
    eexists. split; [unfold js_bind; rewrite E; reflexivity | exact Hok].
Qed.

Lemma targets_live_cons e es st :
  targets_live (e :: es) st = true ->
  (forall r, event_target e = Some r -> instanceof_node st r = true)
  /\ targets_live es (fst (dispatch e st)) = true.
Proof.
  simpl. rewrite andb_true_iff. intros [He Hes]. split; [|done].
  intros r Hr. by rewrite Hr in He.
Qed.

Lemma event_loop_wf es st :
  wf st -> targets_live es st = true ->
  wf (event_loop es st) /\ colorScheme (event_loop es st) = colorScheme st.
Proof.
  revert st. induction es as [|e es IH]; intros st Hwf Hl; [done|].
  destruct (targets_live_cons e es st Hl) as [He Hes].
  destruct (dispatch_ok st e Hwf He) as (st' & E & Hwf' & _ & Hcs). simpl. rewrite E in *. simpl.
  destruct (IH st' Hwf' Hes) as [? Hc]. split; [done | congruence].
Qed.

Lemma event_loop_reachable cs es st :
  reachable cs st -> targets_live es st = true -> reachable cs (event_loop es st).
Proof.
  revert st. induction es as [|e es IH]; intros st Hr Hl; [done|].
  destruct (targets_live_cons e es st Hl) as [He Hes]. simpl.
  apply IH; [|done]. destruct (dispatch e st) as [st' res] eqn:E.
  exact (reach_step cs st e st' res Hr He E).
Qed.

(** C1 (reachable invariant): every state the editor reaches from an
    empty diagram is well formed (the selection has no duplicates, names
    live objects and matches every object's selected look; references are
    below the allocation counter; transitions join nodes; the tentative
    source is a node; a tentative target is a node and is only set while
    a tentative transition is in progress), keeps the page's colour
    scheme, and no handler throws on it for an event on a live node. *)
Theorem reachable_wf (cs : ColorScheme) (st : StateManager) :
  reachable cs st ->
  wf st /\ colorScheme st = cs
  /\ forall e, (forall r, event_target e = Some r -> instanceof_node st r = true) ->
       exists st', dispatch e st = (st', Ok tt) /\ wf st'.
Proof.
  intros Hr. assert (Hwf : wf st /\ colorScheme st = cs).
  { induction Hr as [|st e st' res Hreach [Hwf Hcs] Htarget E].
    - split; [apply init_wf | done].
    - destruct (dispatch_ok st e Hwf Htarget) as (st'' & E' & Hwf' & _ & Hcs').
      rewrite E' in E. injection E as <- _. split; [done | congruence]. }
  destruct Hwf as [Hwf Hcs]. split_and!; [done | done |].
  intros e He. destruct (dispatch_ok st e Hwf He) as (st' & E & Hwf' & _). by exists st'.
Qed.

(** ** Witnesses *)

(** Two states, [q0] selected, then [q1] added to the selection with
    Shift, and a drag of [q0] started. *)
Definition demo_events : list UIEvent :=
  two_states ++ [Click 1 plain; Click 2 shift; DragStart 1 plain].

Definition demo_state : StateManager := event_loop demo_events (init_state example_scheme).

Lemma demo_state_wf : wf demo_state.
Proof. apply event_loop_wf; [apply init_wf | vm_compute; reflexivity]. Qed.

Lemma reachable_wf_witness :
  reachable example_scheme demo_state
  /\ (wf demo_state /\ colorScheme demo_state = example_scheme
      /\ forall e, (forall r, event_target e = Some r -> instanceof_node demo_state r = true) ->
           exists st', dispatch e demo_state = (st', Ok tt) /\ wf st').
Proof.
  assert (H : reachable example_scheme demo_state).
  { apply event_loop_reachable; [constructor | vm_compute; reflexivity]. }
  split; [exact H | exact (reachable_wf example_scheme demo_state H)].
Defined.

End Safety.
