(* ===== verification/Gestures.v ===== *)
(** * Behaviour of whole gestures: clicks, group drags, transition drags

    Functional properties of the handlers on well-formed states, stated
    with the positions of the nodes ([endpoint_pos]) and the fields of the
    StateManager.  Frames first: [quiet] (only heap cells change, and
    only through method calls) and [pos_frame] (no node below the
    allocation counter moves), each with the operations that preserve
    it; then the click, the group drag and the transition drag. *)

From S2P Require Import Prelude Konva Node StateManager Handlers Safety.

Module Gestures.
Import Konva Node StateManager Handlers Safety.

(** ** What the pointer asks for *)

(** The pointer's movement [(movementX, movementY)] applied to a
    position. *)
Definition translate (ev : MouseEvent) (q : Vector2d) : Vector2d :=
  v2_add q (movementX ev) (movementY ev).

(** The selection a click on [this] asks for (spec section 4.2): the node
    alone, or with Shift the selection with the node added once. *)
Definition clicked_selection (ev : MouseEvent) (this : positive) (sel : list positive) : list positive :=
  if shiftKey ev then sel ++ (if bool_decide (this ∈ sel) then [] else [this]) else [this].

(** ** Frames *)

(** Nothing but heap cells changed. *)
Definition quiet (st st' : StateManager) : Prop :=
  currentTool st' = currentTool st /\ transitions st' = transitions st
  /\ selectedObjects st' = selectedObjects st /\ tentative st' = tentative st
  /\ tentativeTransitionTarget st' = tentativeTransitionTarget st
  /\ snapToGridEnabled st' = snapToGridEnabled st /\ colorScheme st' = colorScheme st
  /\ log st' = log st /\ next_ref st' = next_ref st.

#[export] Instance quiet_preorder : PreOrder quiet.
Proof.
  split; [intros st; unfold quiet; by split_and! |].
  intros a b c Hab Hbc. unfold quiet in *. destruct_and!. split_and!; congruence.
Qed.

(** The position of a node as [node_pos] reads it. *)
Definition node_pos (n : NodeWrapper) : option Vector2d := (fun v => g_pos (nodeGroup v)) <$> view n.

Lemma endpoint_pos_node_at st r :
  endpoint_pos st r = match node_at st r with Some n => node_pos n | None => None end.
Proof. reflexivity. Qed.

(** No node allocated before moved, and the counter did not go back. *)
Definition pos_frame (st st' : StateManager) : Prop :=
  (next_ref st <= next_ref st')%positive
  /\ forall r, (r < next_ref st)%positive -> endpoint_pos st' r = endpoint_pos st r.

#[export] Instance pos_frame_preorder : PreOrder pos_frame.
Proof.
  split; [intros st; split; [lia | done]|].
  intros a b c [Hab Pab] [Hbc Pbc]. split; [lia|]. intros r Hr. rewrite Pbc by lia. auto.
Qed.

(** A node method that leaves a reading [g] of the node unchanged: its
    position, the marks of a drag, the shadow flag.  One family of
    lemmas and one tactic serve every reading. *)
Definition keeps {T A} (g : NodeWrapper -> T) (m : js NodeWrapper A) : Prop :=
  forall n n' a, m n = (n', Ok a) -> g n' = g n.

Lemma keeps_with_view {T} (g : NodeWrapper -> T) (f : NodeView -> NodeView) :
  (forall n v, view n = Some v -> g (set_view (Some (f v)) n) = g n) -> keeps g (with_view f).
Proof.
  intros Hf n n' a E. unfold with_view in E. destruct (view n) as [v|] eqn:Hv; [|discriminate].
  injection E as <- _. by apply Hf.
Qed.

Lemma keeps_modify {T} (g : NodeWrapper -> T) (f : NodeWrapper -> NodeWrapper) :
  (forall n, g (f n) = g n) -> keeps g (js_modify f).
Proof. intros Hf n n' a E. injection E as <- _. apply Hf. Qed.

Lemma keeps_ret {T A} (g : NodeWrapper -> T) (a : A) : keeps g (js_ret a).
Proof. intros n n' b E. by injection E as <- _. Qed.

Lemma keeps_get {T} (g : NodeWrapper -> T) : keeps g js_get.
Proof. intros n n' b E. by injection E as <- _. Qed.

Lemma keeps_read_view {T} (g : NodeWrapper -> T) : keeps g read_view.
Proof. intros n n' b E. unfold read_view in E. by destruct (view n); injection E as <- _. Qed.

Lemma keeps_bind {T A B} (g : NodeWrapper -> T) (m : js NodeWrapper A) (f : A -> js NodeWrapper B) :
  keeps g m -> (forall a, keeps g (f a)) -> keeps g (js_bind m f).
Proof.
  intros Hm Hf n n' b E. unfold js_bind in E. destruct (m n) as [n1 [a|e]] eqn:E1; [|discriminate].
  rewrite (Hf a n1 n' b E). by apply (Hm n n1 a).
Qed.

#[export] Hint Resolve keeps_ret keeps_get keeps_read_view : automaton.

(** The readings as functions of the view, unfolded by [keeps_tac]. *)
Create HintDb readings.

Ltac keeps_tac :=
  repeat match goal with
  | |- keeps _ (js_bind _ _) => apply keeps_bind; intros
  | |- keeps _ (with_view _) =>
      apply keeps_with_view; let Hv := fresh "Hv" in intros ? ? Hv;
      autounfold with readings; simpl; rewrite ?Hv; reflexivity
  | |- keeps _ (js_modify _) => apply keeps_modify; intros; autounfold with readings; reflexivity
  | |- keeps _ (match ?x with _ => _ end) => destruct x
  | |- keeps _ _ => solve [eauto with automaton]
  end.

(** The position of a node as [node_pos] reads it. *)
Abbreviation keeps_pos := (keeps node_pos).
#[export] Hint Unfold node_pos : readings.

Lemma node_at_insert_ne st r r' o : r' <> r -> node_at (set_heap (<[r := o]> (heap st)) st) r' = node_at st r'.
Proof. intros Hne. unfold node_at. simpl. by rewrite lookup_insert_ne. Qed.

(** The shadow flag of a node's background circle: the drop shadow of a
    drag and the glow of a candidate target are both this flag. *)
Definition node_shadow (n : NodeWrapper) : option bool :=
  (fun v => c_shadowEnabled (nodeBackground v)) <$> view n.

Definition shadow_at (st : StateManager) (r : positive) : option bool :=
  match node_at st r with Some n => node_shadow n | None => None end.

(** A node method that rewrites the background circle sets the flag of
    that node and of no other. *)
Lemma call_node_shadow r (f : Circle -> Circle) b st st' a :
  (forall c, c_shadowEnabled (f c) = b) ->
  call_node r (with_view (on_background f)) st = (st', Ok a) ->
  shadow_at st' r = Some b /\ forall r', r' <> r -> shadow_at st' r' = shadow_at st r'.
Proof.
  intros Hf E. unfold call_node in E. destruct (heap st !! r) as [[n|t]|] eqn:Hr; [|discriminate..].
  unfold with_view in E. destruct (view n) as [v|] eqn:Hv; [|discriminate]. injection E as <- _.
  split.
  - unfold shadow_at, node_at. simpl. rewrite lookup_insert_eq. unfold node_shadow. simpl. by rewrite Hf.
  - intros r' Hne. unfold shadow_at. by rewrite node_at_insert_ne.
Qed.

(** A method that only rewrites the group (position, dragging flag)
    changes no shadow flag. *)
Lemma call_node_group_shadow r (f : Group -> Group) st st' a :
  call_node r (with_view (on_group f)) st = (st', Ok a) -> forall r', shadow_at st' r' = shadow_at st r'.
Proof.
  intros E r'. unfold call_node in E. destruct (heap st !! r) as [[n|t]|] eqn:Hr; [|discriminate..].
  unfold with_view in E. destruct (view n) as [v|] eqn:Hv; [|discriminate]. injection E as <- _.
  unfold shadow_at. destruct (decide (r' = r)) as [->|Hne]; [|by rewrite node_at_insert_ne].
  unfold node_at. simpl. rewrite lookup_insert_eq, Hr. unfold node_shadow. by rewrite Hv.
Qed.

Lemma call_node_quiet {A} r (m : js NodeWrapper A) : js_preserves quiet (call_node r m).
Proof.
  intros st st' a E. unfold call_node in E.
  destruct (heap st !! r) as [[n|t]|]; [|discriminate..].
  destruct (m n) as [n' res]. injection E as <- _. unfold quiet. by split_and!.
Qed.

Lemma call_node_pos_frame {A} r (m : js NodeWrapper A) :
  keeps_pos m -> js_preserves pos_frame (call_node r m).
Proof.
  intros Hm st st' a E. unfold call_node in E.
  destruct (heap st !! r) as [[n|t]|] eqn:Hr; [|discriminate..].
  destruct (m n) as [n' res] eqn:Em. injection E as <- ->. split; [simpl; lia|].
  intros r' _. destruct (decide (r' = r)) as [->|Hne].
  - rewrite !endpoint_pos_node_at. unfold node_at. simpl. rewrite lookup_insert_eq, Hr.
    by apply (Hm n n' a).
  - rewrite !endpoint_pos_node_at. by rewrite node_at_insert_ne.
Qed.

Lemma updatePoints_quiet_pos rt : js_preserves (fun st st' => quiet st st' /\ pos_frame st st') (updatePoints rt).
Proof.
  intros st st' a E. unfold updatePoints in E.
  destruct (heap st !! rt) as [[n|t]|] eqn:Hrt; [discriminate| |discriminate].
  destruct (endpoint_pos st (sourceNode t)), (endpoint_pos st (destNode t)); try discriminate.
  injection E as <- _. split; [unfold quiet; by split_and!|]. split; [simpl; lia|].
  intros r _. rewrite !endpoint_pos_node_at. destruct (decide (r = rt)) as [->|Hne].
  - unfold node_at. simpl. by rewrite lookup_insert_eq, Hrt.
  - by rewrite node_at_insert_ne.
Qed.

#[export] Instance quiet_pos_preorder : PreOrder (fun st st' => quiet st st' /\ pos_frame st st').
Proof.
  split; [intros st; split; reflexivity|].
  intros a b c [H1 H2] [H3 H4]. split; etransitivity; eauto.
Qed.

Lemma update_transitions_of_quiet_pos r :
  js_preserves (fun st st' => quiet st st' /\ pos_frame st st') (update_transitions_of r).
Proof.
  unfold update_transitions_of. apply js_preserves_bind; [apply _ | apply js_preserves_get; apply _|].
  intros st0. apply js_preserves_forEach; [apply _|]. intros rt _.
  apply js_preserves_bind; [apply _ | apply js_preserves_get; apply _|]. intros st1.
  destruct (heap st1 !! rt) as [[n|t]|]; try (apply js_preserves_ret; apply _).
  destruct (involvesNode r t); [apply updatePoints_quiet_pos | apply js_preserves_ret; apply _].
Qed.

(** In a well-formed state no cell lies at or above the counter, so a
    [pos_frame] step that allocates nothing keeps every position. *)
Lemma pos_frame_all st st' :
  wf st -> wf st' -> pos_frame st st' -> next_ref st' = next_ref st ->
  forall r, endpoint_pos st' r = endpoint_pos st r.
Proof.
  intros Hwf Hwf' [_ Hp] Hn r. destruct (decide (r < next_ref st)%positive) as [Hr|Hr]; [auto|].
  rewrite !endpoint_pos_node_at. unfold node_at.
  destruct (heap st !! r) eqn:E1; [pose proof (wf_fresh _ Hwf r ltac:(by eexists)); lia|].
  destruct (heap st' !! r) eqn:E2; [pose proof (wf_fresh _ Hwf' r ltac:(by eexists)); lia|]. done.
Qed.

(** [fire_move] returns normally, moves no node and changes nothing but
    transition cells. *)
Lemma fire_move_spec st r :
  wf st -> exists st', fire_move r st = (st', Ok tt) /\ step_ok st st' /\ quiet st st'
                       /\ forall r', endpoint_pos st' r' = endpoint_pos st r'.
Proof.
  intros Hwf. destruct (fire_move_safe st r Hwf) as (st' & [] & E & Hok).
  destruct (update_transitions_of_quiet_pos r st st' tt E) as [Hq Hp].
  exists st'. split_and!; try done. apply pos_frame_all; [done | apply Hok | done | apply Hq].
Qed.

(** [move_other]: a selected node other than the anchor moves by the
    pointer's movement, nothing else moves. *)
Lemma move_other_spec st ev a :
  wf st -> exists st', move_other ev a st = (st', Ok tt) /\ step_ok st st' /\ quiet st st'
    /\ endpoint_pos st' a = translate ev <$> endpoint_pos st a
    /\ forall r, r <> a -> endpoint_pos st' r = endpoint_pos st r.
Proof.
  intros Hwf. unfold move_other. unfold js_bind at 1, js_get.
  destruct (instanceof_node st a) eqn:Ha.
  2:{ exists st. split_and!; try done; [apply step_ok_refl, Hwf|].
      rewrite endpoint_pos_node_at. unfold instanceof_node, node_at in *.
      by destruct (heap st !! a) as [[]|]. }
  destruct (node_of st a Ha) as [n En].
  destruct (wf_ready _ (wf_sel _ Hwf) a _ En) as [v Hv].
  set (n' := set_view (Some (on_group (set_position (v2_add (g_pos (nodeGroup v)) (movementX ev) (movementY ev))) v)) n).
  assert (Ecall : call_node a (let* q := position in setPosition (v2_add q (movementX ev) (movementY ev))) st
                  = (set_heap (<[a := ONode n']> (heap st)) st, Ok tt)).
  { apply (call_node_ok _ _ n); [done|]. unfold position, setPosition, js_bind, read_view, with_view, js_ret.
    rewrite Hv. simpl. by rewrite Hv. }
  assert (Hok1 : step_ok st (set_heap (<[a := ONode n']> (heap st)) st)).
  { apply (wf_set_cell st a (ONode n)); try done; simpl; [by eexists|].
    unfold looks_selected. by rewrite Hv. }
  destruct (fire_move_spec _ a (proj1 Hok1)) as (st2 & E2 & Hok2 & Hq2 & Hp2).
  exists st2. rewrite (js_bind_ok _ _ _ _ _ Ecall), E2. split_and!.
  - done.
  - by eapply step_ok_trans.
  - etransitivity; [|exact Hq2]. unfold quiet. by split_and!.
  - rewrite Hp2, !endpoint_pos_node_at. unfold node_at. simpl. rewrite lookup_insert_eq, En.
    unfold node_pos. by rewrite Hv.
  - intros r Hne. rewrite Hp2, !endpoint_pos_node_at. by rewrite node_at_insert_ne.
Qed.

(** The loop of [onDragMove] over distinct references. *)
Lemma move_loop st ev (l : list positive) :
  wf st -> NoDup l ->
  exists st', js_forEach (move_other ev) l st = (st', Ok tt) /\ step_ok st st' /\ quiet st st'
    /\ forall r, endpoint_pos st' r =
                 if bool_decide (r ∈ l)
                 then translate ev <$> endpoint_pos st r
                 else endpoint_pos st r.
Proof.
  revert st. induction l as [|a l IH]; intros st Hwf Hnd.
  - exists st. split_and!; [done | by apply step_ok_refl | reflexivity | intros r; by rewrite bool_decide_eq_false_2 by set_solver].
  - apply NoDup_cons in Hnd as [Ha Hnd].
    destruct (move_other_spec st ev a Hwf) as (st1 & E1 & Hok1 & Hq1 & Ha1 & Hr1).
    destruct (IH st1 (proj1 Hok1) Hnd) as (st2 & E2 & Hok2 & Hq2 & Hp2).
    exists st2. simpl. rewrite (js_bind_ok _ _ _ _ _ E1), E2. split_and!.
    + done.
    + by eapply step_ok_trans.
    + by etransitivity.
    + intros r. rewrite Hp2. destruct (decide (r = a)) as [->|Hne].
      * rewrite bool_decide_eq_false_2 by done. rewrite bool_decide_eq_true_2 by set_solver. done.
      * rewrite !Hr1 by done. by rewrite (bool_decide_ext (r ∈ a :: l) (r ∈ l)) by set_solver.
Qed.

(** Konva placing the anchor at the pointer. *)
Lemma setPosition_at st r p :
  wf st -> instanceof_node st r = true ->
  exists st', call_node r (setPosition p) st = (st', Ok tt) /\ step_ok st st' /\ quiet st st'
    /\ endpoint_pos st' r = Some p /\ forall r', r' <> r -> endpoint_pos st' r' = endpoint_pos st r'.
Proof.
  intros Hwf Hr. destruct (node_of st r Hr) as [n En].
  destruct (wf_ready _ (wf_sel _ Hwf) r _ En) as [v Hv].
  set (n' := set_view (Some (on_group (set_position p) v)) n).
  assert (E : call_node r (setPosition p) st = (set_heap (<[r := ONode n']> (heap st)) st, Ok tt)).
  { apply (call_node_ok _ _ n); [done|]. unfold setPosition, with_view. by rewrite Hv. }
  eexists. rewrite E. split_and!; [done | | | |].
  - apply (wf_set_cell st r (ONode n)); try done; simpl; [by eexists|].
    unfold looks_selected. by rewrite Hv.
  - unfold quiet. by split_and!.
  - rewrite endpoint_pos_node_at. unfold node_at. simpl. by rewrite lookup_insert_eq.
  - intros r' Hne. rewrite !endpoint_pos_node_at. by rewrite node_at_insert_ne.
Qed.

(** One pointer move of a Select drag (the body of the group drag
    claim, shared with the whole-gesture theorems of [Drag]). *)
Lemma dragmove_select_effect (st : StateManager) (this : positive) (p : Vector2d) (ev : MouseEvent) :
  wf st -> instanceof_node st this = true -> currentTool st = Select -> is_dragging st this = true ->
  exists st', konva_dragmove this p ev st = (st', Ok tt) /\ step_ok st st'
    /\ endpoint_pos st' this = Some p
    /\ (forall r, r <> this -> r ∈ selectedObjects st ->
         endpoint_pos st' r = translate ev <$> endpoint_pos st r)
    /\ (forall r, r <> this -> r ∉ selectedObjects st -> endpoint_pos st' r = endpoint_pos st r)
    /\ selectedObjects st' = selectedObjects st.
Proof.
  intros Hwf Hn Htool Hdrag. unfold konva_dragmove. rewrite js_bind_get, Hdrag.
  destruct (setPosition_at st this p Hwf Hn) as (st1 & E1 & Hok1 & Hq1 & Hp1 & Ho1).
  rewrite (js_bind_ok _ _ _ _ _ E1). unfold onDragMove. rewrite js_bind_get.
  destruct Hq1 as (Ht1 & _ & Hs1 & _). rewrite Ht1, Htool.
  destruct (fire_move_spec st1 this (proj1 Hok1)) as (st2 & E2 & Hok2 & Hq2 & Hp2).
  rewrite (js_bind_ok _ _ _ _ _ E2), js_bind_get.
  destruct Hq2 as (_ & _ & Hs2 & _).
  assert (Hnd : NoDup (filter (fun r => r <> this) (selectedObjects st2))).
  { apply NoDup_filter. rewrite Hs2, Hs1. apply (wf_nodup _ (wf_sel _ Hwf)). }
  destruct (move_loop st2 ev _ (proj1 Hok2) Hnd) as (st3 & E3 & Hok3 & Hq3 & Hp3).
  assert (Hok : step_ok st st3) by (by eapply step_ok_trans; [eapply step_ok_trans|]).
  exists st3. rewrite E3. destruct Hq3 as (_ & _ & Hs3 & _). split; [done|]. split; [exact Hok|].
  split_and!.
  - rewrite Hp3, bool_decide_eq_false_2; [by rewrite Hp2 | rewrite list_elem_of_filter; tauto].
  - intros r Hne Hin. rewrite Hp3, bool_decide_eq_true_2.
    + by rewrite Hp2, Ho1.
    + rewrite list_elem_of_filter, Hs2, Hs1. tauto.
  - intros r Hne Hin. rewrite Hp3, bool_decide_eq_false_2.
    + by rewrite Hp2, Ho1.
    + rewrite list_elem_of_filter, Hs2, Hs1. tauto.
  - congruence.
Qed.

(** C3 (group drag rigidity): while a node is dragged with the Select
    tool, one pointer move puts the anchor at the pointer's position and
    moves every other selected node by the pointer's movement, exactly
    once; nodes outside the selection do not move, and the handler
    returns normally and keeps the invariant. *)
Theorem group_drag_rigid (st : StateManager) (this : positive) (p : Vector2d) (ev : MouseEvent) :
  wf st -> instanceof_node st this = true -> currentTool st = Select -> is_dragging st this = true ->
  exists st', konva_dragmove this p ev st = (st', Ok tt) /\ wf st'
    /\ endpoint_pos st' this = Some p
    /\ (forall r, r <> this -> r ∈ selectedObjects st ->
         endpoint_pos st' r = translate ev <$> endpoint_pos st r)
    /\ (forall r, r <> this -> r ∉ selectedObjects st -> endpoint_pos st' r = endpoint_pos st r)
    /\ selectedObjects st' = selectedObjects st.
Proof.
  intros Hwf Hn Htool Hdrag.
  destruct (dragmove_select_effect st this p ev Hwf Hn Htool Hdrag) as (st' & E & Hok & H).
  exists st'. split; [exact E|]. split; [apply Hok | exact H].
Qed.

(** The state a handler reaches is the one its safety lemma gives. *)
Lemma safe_at_wf {A} st (m : js StateManager A) st' a :
  safe_at st m -> m st = (st', Ok a) -> wf st'.
Proof. intros (st'' & b & E & Hok) E'. rewrite E in E'. injection E' as <- _. apply Hok. Qed.

(** C4 (click contract): a click on a node with the Select tool makes
    it the only selected object, or, with Shift held, adds it to the
    selection unless it is already there; with another tool a click
    changes nothing. *)
Theorem onClick_selection (st : StateManager) (this : positive) (ev : MouseEvent) :
  wf st -> instanceof_node st this = true ->
  exists st', onClick this ev st = (st', Ok tt) /\ wf st'
    /\ if bool_decide (currentTool st = Select) then
         selectedObjects st' = clicked_selection ev this (selectedObjects st)
       else st' = st.
Proof.
  intros Hwf Hn. unfold clicked_selection. pose proof (onClick_safe st this ev Hwf Hn) as Hsafe.
  case_bool_decide as Ht; cycle 1.
  { exists st. unfold onClick. rewrite js_bind_get, bool_decide_eq_false_2 by done. done. }
  assert (Hc : forall st1, (if negb (shiftKey ev) then deselectAllObjects else js_ret tt) st = (st1, Ok tt) ->
            onClick this ev st = selectObject this st1).
  { intros st1 E. unfold onClick. rewrite js_bind_get, bool_decide_eq_true_2 by done.
    exact (js_bind_ok _ (fun _ => selectObject this) _ _ _ E). }
  destruct (shiftKey ev); simpl in Hc.
  - pose proof (selectObject_effect st this (wf_sel _ Hwf) (node_is_Some _ _ Hn)) as H.
    destruct (selectObject this st) as [st1 r1] eqn:E1. destruct H as (-> & _ & Hsel & _).
    exists st1. rewrite (Hc st), E1 by done. split_and!; [done | | done].
    apply (safe_at_wf st _ st1 tt Hsafe). by rewrite (Hc st), E1.
  - pose proof (deselectAllObjects_effect st (wf_sel _ Hwf)) as H.
    destruct (deselectAllObjects st) as [st1 r1] eqn:E1.
    destruct H as (-> & Hsel1 & Hempty & _ & Hdom & _ & _ & _).
    assert (Hr : is_Some (heap st1 !! this)) by (apply Hdom, node_is_Some, Hn).
    pose proof (selectObject_effect st1 this Hsel1 Hr) as H.
    destruct (selectObject this st1) as [st2 r2] eqn:E2. destruct H as (-> & _ & Hsel2 & _).
    exists st2. rewrite (Hc st1), E2 by done. split_and!; [done | | by rewrite Hsel2, Hempty].
    apply (safe_at_wf st _ st2 tt Hsafe). by rewrite (Hc st1), E2.
Qed.

(** ** Adding transitions *)

(** Whether a transition from [a] to [b] is drawn: the test
    [addTransition] makes before adding one. *)
Definition has_transition (st : StateManager) (a b : positive) : bool :=
  existsb (fun rt => edge_between a b (heap st !! rt)) (transitions st).

Lemma edge_between_shape a b o o' :
  edge_between a b (Some o) = true -> same_shape o o' -> edge_between a b (Some o') = true.
Proof.
  destruct o as [|t], o' as [|t']; simpl; try done.
  intros Hb [-> ->]. exact Hb.
Qed.

Lemma has_transition_mono st st' a b :
  heap_shape_le (heap st) (heap st') -> (forall rt, rt ∈ transitions st -> rt ∈ transitions st') ->
  has_transition st a b = true -> has_transition st' a b = true.
Proof.
  unfold has_transition. rewrite !existsb_exists. intros Hh Ht (rt & Hin & He).
  exists rt. split; [apply list_elem_of_In, Ht, list_elem_of_In, Hin|].
  destruct (heap st !! rt) as [o|] eqn:Ho; [|done].
  destruct (Hh rt o Ho) as (o' & -> & Hs). by apply (edge_between_shape _ _ o).
Qed.

Lemma updatePoints_edge st st' rt t :
  heap st !! rt = Some (OTrans t) -> updatePoints rt st = (st', Ok tt) ->
  edge_between (sourceNode t) (destNode t) (heap st' !! rt) = true.
Proof.
  intros Ht E. unfold updatePoints in E. rewrite Ht in E.
  destruct (endpoint_pos st (sourceNode t)), (endpoint_pos st (destNode t)); try discriminate.
  injection E as <-. simpl. rewrite lookup_insert_eq. simpl. by apply bool_decide_eq_true.
Qed.

(** [addTransition(src, dst)] draws the edge, once: the list of
    transitions grows by the fresh cell exactly when no edge from [src] to
    [dst] was drawn. *)
Lemma addTransition_effect st src dst :
  wf st -> instanceof_node st src = true -> instanceof_node st dst = true ->
  exists st', addTransition src dst st = (st', Ok tt) /\ step_ok st st'
    /\ has_transition st' src dst = true
    /\ transitions st' = transitions st ++ (if has_transition st src dst then [] else [next_ref st])
    /\ selectedObjects st' = selectedObjects st /\ currentTool st' = currentTool st.
Proof.
  intros Hwf Hs Hd. destruct (addTransition_safe st src dst Hwf Hs Hd) as (st' & [] & E & Hok).
  exists st'. split_and!; [done | done | | | |].
  all: unfold addTransition in E; rewrite js_bind_get in E; fold (has_transition st src dst) in E.
  all: destruct (has_transition st src dst) eqn:Hh; [injection E as <-; by rewrite ?app_nil_r|].
  all: erewrite js_bind_ok in E; [|reflexivity].
  all: pose proof (updatePoints_quiet_pos _ _ _ _ E) as [(Htool & Htr & Hsel & _) _]; simpl in *.
  - unfold has_transition. apply existsb_exists. exists (next_ref st). split.
    + rewrite Htr. apply in_or_app. right. by left.
    + refine (updatePoints_edge _ _ _ (mkTrans src dst [] None false) _ E). simpl. apply lookup_insert_eq.
  - done.
  - done.
  - done.
Qed.

(** [endTentativeTransition()] adds the transition from the source to the
    target unless one is already drawn, never removes one, and clears the
    tentative transition and the target in every case. *)
Lemma endTentativeTransition_effect (st : StateManager) :
  wf st ->
  exists st', endTentativeTransition st = (st', Ok tt) /\ wf st'
    /\ tentative st' = None /\ tentativeTransitionTarget st' = None
    /\ selectedObjects st' = selectedObjects st
    /\ (forall a b, has_transition st a b = true -> has_transition st' a b = true)
    /\ match tentative st, tentativeTransitionTarget st with
       | Some t, Some d =>
           has_transition st' (tt_source t) d = true
           /\ transitions st' = transitions st
                ++ (if has_transition st (tt_source t) d then [] else [next_ref st])
       | _, _ => transitions st' = transitions st
       end.
Proof.
  intros Hwf. destruct (endTentativeTransition_safe st Hwf) as (st' & [] & E & Hok).
  exists st'. split_and!; [done | apply Hok | | | | |].
  all: unfold endTentativeTransition in E; rewrite js_bind_get in E.
  all: destruct (tentative st) as [t|] eqn:Et; [destruct (tentativeTransitionTarget st) as [d|] eqn:Ed|].
  all: try (erewrite js_bind_ok in E; [|reflexivity]; injection E as <-; simpl;
            by rewrite ?Et, ?Ed).
  all: destruct (addTransition_effect st (tt_source t) d Hwf (wf_tent _ Hwf t Et)
                   (proj1 (wf_target _ Hwf d Ed))) as (st1 & E1 & _ & Hh & Htr & Hsel & _).
  all: erewrite js_bind_ok in E; [|exact E1]; injection E as <-; simpl; try done.
  - intros a b. apply has_transition_mono; [apply Hok|]. intros rt Hin. simpl. rewrite Htr.
    apply elem_of_app. by left.
Qed.

(** C7 (releasing a drawn transition): releasing a node with the
    Transitions tool ends the tentative transition: the transition from
    its source to the target is added unless one is already drawn, none
    is removed, the tentative transition and the target are cleared in
    every case, and the selection is untouched. *)
Theorem onDragEnd_transitions (st : StateManager) (this : positive) :
  wf st -> currentTool st = Transitions ->
  exists st', onDragEnd this st = (st', Ok tt) /\ wf st'
    /\ tentative st' = None /\ tentativeTransitionTarget st' = None
    /\ selectedObjects st' = selectedObjects st
    /\ (forall a b, has_transition st a b = true -> has_transition st' a b = true)
    /\ match tentative st, tentativeTransitionTarget st with
       | Some t, Some d =>
           has_transition st' (tt_source t) d = true
           /\ transitions st' = transitions st
                ++ (if has_transition st (tt_source t) d then [] else [next_ref st])
       | _, _ => transitions st' = transitions st
       end.
Proof.
  intros Hwf Ht. assert (E : onDragEnd this st = endTentativeTransition st).
  { unfold onDragEnd. rewrite js_bind_get, Ht. reflexivity. }
  rewrite E. by apply endTentativeTransition_effect.
Qed.

(** ** Witnesses *)

(** A tentative transition drawn from [q0] with the pointer over [q1]. *)
Definition tentative_state : StateManager :=
  event_loop (two_states ++ [SetTool Transitions; DragStart 1 plain; MouseEnter 2])
    (init_state example_scheme).

Lemma tentative_state_wf : wf tentative_state.
Proof. apply event_loop_wf; [apply init_wf | vm_compute; reflexivity]. Qed.

Lemma group_drag_rigid_witness :
  exists st', konva_dragmove 1 (Vec 120 100) (moved 20 0) demo_state = (st', Ok tt) /\ wf st'
    /\ endpoint_pos st' 1 = Some (Vec 120 100)
    /\ (forall r, r <> 1%positive -> r ∈ selectedObjects demo_state ->
         endpoint_pos st' r = translate (moved 20 0) <$> endpoint_pos demo_state r)
    /\ (forall r, r <> 1%positive -> r ∉ selectedObjects demo_state ->
         endpoint_pos st' r = endpoint_pos demo_state r)
    /\ selectedObjects st' = selectedObjects demo_state.
Proof.
  exact (group_drag_rigid demo_state 1 (Vec 120 100) (moved 20 0) demo_state_wf
           ltac:(vm_compute; reflexivity) ltac:(vm_compute; reflexivity) ltac:(vm_compute; reflexivity)).
Defined.

Lemma onClick_selection_witness :
  exists st', onClick 1 shift demo_state = (st', Ok tt) /\ wf st'
    /\ if bool_decide (currentTool demo_state = Select) then
         selectedObjects st' = clicked_selection shift 1 (selectedObjects demo_state)
       else st' = demo_state.
Proof.
  exact (onClick_selection demo_state 1 shift demo_state_wf ltac:(vm_compute; reflexivity)).
Defined.

Lemma onDragEnd_transitions_witness :
  exists st', onDragEnd 1 tentative_state = (st', Ok tt) /\ wf st'
    /\ tentative st' = None /\ tentativeTransitionTarget st' = None
    /\ selectedObjects st' = selectedObjects tentative_state
    /\ (forall a b, has_transition tentative_state a b = true -> has_transition st' a b = true)
    /\ match tentative tentative_state, tentativeTransitionTarget tentative_state with
       | Some t, Some d =>
           has_transition st' (tt_source t) d = true
           /\ transitions st' = transitions tentative_state
                ++ (if has_transition tentative_state (tt_source t) d then [] else [next_ref tentative_state])
       | _, _ => transitions st' = transitions tentative_state
       end.
Proof.
  exact (onDragEnd_transitions tentative_state 1 tentative_state_wf ltac:(vm_compute; reflexivity)).
Defined.

End Gestures.
