(* ===== verification/Builder.v ===== *)
(** * The tentative-transition builder (spec section 4.4) and its refinement

    Spec section 4.4 describes the builder as a state machine: idle, or
    drawing from a source with an optional target.  A drag start with the
    Transitions tool begins a drawing ([Begin]), entering a node sets the
    target ([Hover]), leaving the target clears it ([Leave]), and the
    release ([Finish]) adds the edge source -> target when a target is set
    and abandons the gesture otherwise.  [Spec] is that machine together
    with the set of edges of the diagram, and [spec_step] its labelled
    steps.  The label [None] is a step that changes neither, a stutter as
    in TLA-style refinement.

    [abs] reads a StateManager as a [Spec]: the tentative record and the
    target give the phase, and the transition cells named by
    [transitions] give the edges.  The refinement theorem says that every
    event the editor handles, from a reachable state, is one [spec_step]
    of the abstraction.  So every run of the editor is a run of the
    machine. *)

From S2P Require Import Prelude Konva Node StateManager Handlers Safety Gestures.

Module Builder.
Import Konva Node StateManager Handlers Safety Gestures.

(** ** The machine of spec section 4.4 *)

Inductive Phase :=
| Idle
| Drawing (src : positive) (target : option positive).

#[export] Instance Phase_eq_dec : EqDecision Phase.
Proof. solve_decision. Defined.

Record Spec := mkSpec { phase : Phase; edges : gset (positive * positive) }.

Inductive Action :=
| Begin (src : positive)
| Hover (d : positive)
| Leave (d : positive)
| Finish.

(** A drag start may begin a drawing from any phase: the code restarts a
    drawing left open (see [Scenarios]); the source of a drawing changes
    only by [Begin]. *)
Inductive spec_step : Spec -> option Action -> Spec -> Prop :=
| step_stutter s : spec_step s None s
| step_begin s src : spec_step s (Some (Begin src)) (mkSpec (Drawing src None) (edges s))
| step_hover src t d E :
    spec_step (mkSpec (Drawing src t) E) (Some (Hover d)) (mkSpec (Drawing src (Some d)) E)
| step_leave src d E :
    spec_step (mkSpec (Drawing src (Some d)) E) (Some (Leave d)) (mkSpec (Drawing src None) E)
| step_finish src d E :
    spec_step (mkSpec (Drawing src (Some d)) E) (Some Finish) (mkSpec Idle ({[(src, d)]} ∪ E))
| step_abandon src E :
    spec_step (mkSpec (Drawing src None) E) (Some Finish) (mkSpec Idle E).

(** The states of the machine reachable from an empty, idle diagram. *)
Inductive spec_reach : Spec -> Prop :=
| sreach_init : spec_reach (mkSpec Idle ∅)
| sreach_step s l s' : spec_reach s -> spec_step s l s' -> spec_reach s'.

(** ** The abstraction of the editor's state *)

Definition phase_of (st : StateManager) : Phase :=
  match tentative st with
  | Some t => Drawing (tt_source t) (tentativeTransitionTarget st)
  | None => Idle
  end.

Definition edge_in (h : gmap positive Obj) (rt : positive) : option (positive * positive) :=
  match h !! rt with Some (OTrans t) => Some (sourceNode t, destNode t) | _ => None end.

Definition edges_in (h : gmap positive Obj) (l : list positive) : gset (positive * positive) :=
  list_to_set (omap (edge_in h) l).

Definition abs (st : StateManager) : Spec :=
  mkSpec (phase_of st) (edges_in (heap st) (transitions st)).

(** Every reference in [transitions] names a transition cell. *)
Definition trans_ok (st : StateManager) : Prop :=
  forall rt, rt ∈ transitions st -> exists t, heap st !! rt = Some (OTrans t).

Lemma trans_ok_nil st : transitions st = [] -> trans_ok st.
Proof. intros Ht rt Hrt. rewrite Ht in Hrt. by apply not_elem_of_nil in Hrt. Qed.

(** A step that changes neither the phase nor the list of transitions. *)
Definition tkeep (st st' : StateManager) : Prop :=
  phase_of st' = phase_of st /\ transitions st' = transitions st.

#[export] Instance tkeep_preorder : PreOrder tkeep.
Proof. split; [by intros st | intros a b c [H1 H2] [H3 H4]; split; congruence]. Qed.

(** ** Edges *)

Lemma edge_in_shape h h' rt o :
  h !! rt = Some o -> heap_shape_le h h' -> edge_in h' rt = edge_in h rt.
Proof.
  intros Ho Hle. destruct (Hle rt o Ho) as (o' & Ho' & Hs). unfold edge_in. rewrite Ho, Ho'.
  destruct o, o'; simpl in Hs; try done. by destruct Hs as [-> ->].
Qed.

Lemma edges_in_ext h h' l :
  (forall rt, rt ∈ l -> edge_in h' rt = edge_in h rt) -> edges_in h' l = edges_in h l.
Proof.
  intros H. unfold edges_in. f_equal. apply list_omap_ext, Forall2_same_length_lookup.
  split; [done|]. intros i x y Hx Hy. rewrite Hx in Hy. injection Hy as <-.
  apply H, list_elem_of_lookup_2 with i, Hx.
Qed.

Lemma edges_in_app h l1 l2 : edges_in h (l1 ++ l2) = edges_in h l1 ∪ edges_in h l2.
Proof. unfold edges_in. by rewrite omap_app, list_to_set_app_L. Qed.

Lemma elem_of_edges_in h l e : e ∈ edges_in h l <-> exists rt, rt ∈ l /\ edge_in h rt = Some e.
Proof. unfold edges_in. by rewrite elem_of_list_to_set, list_elem_of_omap. Qed.

(** A step that keeps the list of transitions and the class of every
    cell keeps the edges. *)
Lemma edges_frame st st' :
  trans_ok st -> heap_shape_le (heap st) (heap st') -> transitions st' = transitions st ->
  edges_in (heap st') (transitions st') = edges_in (heap st) (transitions st) /\ trans_ok st'.
Proof.
  intros Hok Hle Ht. split.
  - rewrite Ht. apply edges_in_ext. intros rt Hrt. destruct (Hok rt Hrt) as [t Hh].
    by apply (edge_in_shape _ _ _ _ Hh).
  - intros rt Hrt. rewrite Ht in Hrt. destruct (Hok rt Hrt) as [t Hh].
    destruct (Hle rt _ Hh) as ([|t'] & Ho' & Hs); [done | eauto].
Qed.

Lemma abs_frame st st' :
  trans_ok st -> step_ok st st' -> transitions st' = transitions st ->
  abs st' = mkSpec (phase_of st') (edges (abs st)) /\ trans_ok st'.
Proof.
  intros Hok (_ & Hle & _) Ht. destruct (edges_frame st st' Hok Hle Ht) as [He Hok'].
  unfold abs. simpl. by rewrite He.
Qed.

Lemma tkeep_abs st st' :
  trans_ok st -> step_ok st st' -> tkeep st st' -> abs st' = abs st /\ trans_ok st'.
Proof.
  intros Hok Hs [Hp Ht]. destruct (abs_frame st st' Hok Hs Ht) as [-> Hok'].
  rewrite Hp. split; [|done]. by destruct (abs st) eqn:E; unfold abs in E; injection E as <- <-.
Qed.

Lemma stutter_step st st' :
  trans_ok st -> step_ok st st' -> tkeep st st' -> spec_step (abs st) None (abs st') /\ trans_ok st'.
Proof. intros Hok Hs K. destruct (tkeep_abs st st' Hok Hs K) as [-> Hok']. split; [constructor | done]. Qed.

(** ** Operations that keep the builder *)

Lemma quiet_tkeep st st' : quiet st st' -> tkeep st st'.
Proof.
  intros (_ & Ht & _ & Htent & Htg & _). split; [|done]. unfold phase_of. by rewrite Htent, Htg.
Qed.

Lemma call_node_tkeep {A} r (m : js NodeWrapper A) : js_preserves tkeep (call_node r m).
Proof. apply (js_preserves_weaken quiet); [apply quiet_tkeep | apply call_node_quiet]. Qed.

Lemma call_obj_tkeep mn mt r : js_preserves tkeep (call_obj mn mt r).
Proof.
  intros st st' a E. unfold call_obj in E.
  destruct (heap st !! r) as [[n|t]|]; [destruct (mn n) | destruct (mt t) | ]; by injection E as <-.
Qed.

Lemma update_transitions_of_tkeep r : js_preserves tkeep (update_transitions_of r).
Proof.
  apply (js_preserves_weaken (fun st st' => quiet st st' /\ pos_frame st st'));
    [intros ? ? [? _]; by apply quiet_tkeep | apply update_transitions_of_quiet_pos].
Qed.

Lemma modify_tkeep (f : StateManager -> StateManager) :
  (forall st, tentative (f st) = tentative st /\ tentativeTransitionTarget (f st) = tentativeTransitionTarget st
              /\ transitions (f st) = transitions st) ->
  js_preserves tkeep (js_modify f).
Proof.
  intros Hf. apply js_preserves_modify. intros st. destruct (Hf st) as (H1 & H2 & H3).
  split; [unfold phase_of; by rewrite H1, H2 | done].
Qed.

Lemma updateTentativeTransitionHead_tkeep x y : js_preserves tkeep (updateTentativeTransitionHead x y).
Proof.
  unfold updateTentativeTransitionHead. apply js_preserves_modify. intros st.
  unfold tkeep, phase_of. destruct (tentative st) eqn:E; simpl; rewrite ?E; split; reflexivity.
Qed.

Create HintDb builder.

#[export] Hint Resolve call_node_tkeep call_obj_tkeep update_transitions_of_tkeep
  updateTentativeTransitionHead_tkeep : builder.

(** The composition rules of [js_preserves] for [tkeep], then the
    operations above. *)
Ltac tkeep_tac :=
  repeat match goal with
  | |- forall _, _ => intros
  | |- PreOrder tkeep => apply _
  | |- js_preserves tkeep (js_bind _ _) => apply js_preserves_bind
  | |- js_preserves tkeep js_get => apply js_preserves_get
  | |- js_preserves tkeep (js_ret _) => apply js_preserves_ret
  | |- js_preserves tkeep (js_forEach _ _) => apply js_preserves_forEach
  | |- js_preserves tkeep (js_foldl _ _ _) => apply js_preserves_foldl
  | |- js_preserves tkeep (js_modify _) => apply modify_tkeep; intros; simpl; split_and!; done
  | |- js_preserves tkeep ((fun _ => _) _) => cbv beta
  | |- js_preserves tkeep (if ?b then _ else _) => destruct b
  | |- js_preserves tkeep (match ?x with _ => _ end) => destruct x
  | |- js_preserves tkeep _ => solve [eauto with builder]
  end.

Lemma selectObject_tkeep r : js_preserves tkeep (selectObject r).
Proof. unfold selectObject, select_obj. tkeep_tac. Qed.

Lemma deselectAllObjects_tkeep : js_preserves tkeep deselectAllObjects.
Proof. unfold deselectAllObjects, deselect_obj. tkeep_tac. Qed.

Lemma log_call_tkeep c : js_preserves tkeep (log_call c).
Proof. unfold log_call. tkeep_tac. Qed.

Lemma snapToGrid_tkeep r : js_preserves tkeep (snapToGrid r).
Proof. unfold snapToGrid. tkeep_tac. Qed.

Lemma move_other_tkeep ev r : js_preserves tkeep (move_other ev r).
Proof. unfold move_other, fire_move. tkeep_tac. Qed.

#[export] Hint Resolve selectObject_tkeep deselectAllObjects_tkeep log_call_tkeep
  snapToGrid_tkeep move_other_tkeep : builder.

Lemma onClick_tkeep r ev : js_preserves tkeep (onClick r ev).
Proof. unfold onClick. tkeep_tac. Qed.

Lemma konva_dragmove_tkeep r p ev : js_preserves tkeep (konva_dragmove r p ev).
Proof. unfold konva_dragmove, onDragMove, fire_move. tkeep_tac. Qed.

(** [E : m s = (s', Ok a)] for an [m] built from operations that keep the
    builder gives [tkeep s s']. *)
Ltac tkeep_in E :=
  match type of E with
  | ?m ?s = (?s', Ok ?a) =>
      let K := fresh "K" in
      assert (K : js_preserves tkeep m) by tkeep_tac; specialize (K s s' a E)
  end.

(** Splitting [E : js_bind m f s = (s', Ok b)] at a call of a node
    method, which is [quiet]. *)
Ltac node_step E st1 Q :=
  let E1 := fresh "E" in
  apply js_bind_inv in E as (st1 & ? & E1 & E);
  pose proof (call_node_quiet _ _ _ _ _ E1) as Q.

(** ** The phase after each handler *)

Lemma quiet_tool st st' : quiet st st' -> currentTool st' = currentTool st.
Proof. by intros [? _]. Qed.

Lemma startTentativeTransition_phase r st st' :
  startTentativeTransition r st = (st', Ok tt) ->
  transitions st' = transitions st /\ phase_of st' = Drawing r None.
Proof.
  intros E. unfold startTentativeTransition in E. node_step E st1 Hq.
  injection E as <-. destruct (quiet_tkeep _ _ Hq) as [_ Ht]. by split.
Qed.

Lemma onDragStart_phase r ev st st' :
  onDragStart r ev st = (st', Ok tt) ->
  transitions st' = transitions st
  /\ phase_of st' = if bool_decide (currentTool st = Transitions) then Drawing r None else phase_of st.
Proof.
  intros E. unfold onDragStart in E. node_step E st1 Q1. node_step E st2 Q2.
  rewrite js_bind_get in E. rewrite <- (quiet_tool _ _ Q1), <- (quiet_tool _ _ Q2).
  assert (K0 : tkeep st st2) by (etransitivity; apply quiet_tkeep; eauto).
  destruct K0 as [Hp0 Ht0]. destruct (currentTool st2).
  - tkeep_in E. destruct K as [Hp Ht]. split; simpl; congruence.
  - tkeep_in E. destruct K as [Hp Ht]. split; simpl; congruence.
  - destruct (startTentativeTransition_phase _ _ _ E). split; [congruence | done].
Qed.

Lemma konva_dragstart_phase r ev st st' :
  konva_dragstart r ev st = (st', Ok tt) ->
  transitions st' = transitions st
  /\ phase_of st' = if bool_decide (currentTool st = Transitions) then Drawing r None else phase_of st.
Proof.
  intros E. unfold konva_dragstart in E. node_step E st1 Q1.
  destruct (onDragStart_phase _ _ _ _ E) as [Ht Hp]. destruct (quiet_tkeep _ _ Q1) as [Hp1 Ht1].
  rewrite (quiet_tool _ _ Q1) in Hp. split; [congruence|]. rewrite Hp. by case_bool_decide.
Qed.

Lemma onDragEnd_cases r st st' :
  onDragEnd r st = (st', Ok tt) ->
  (currentTool st = Transitions /\ endTentativeTransition st = (st', Ok tt))
  \/ (currentTool st <> Transitions /\ tkeep st st').
Proof.
  intros E. unfold onDragEnd in E. rewrite js_bind_get in E.
  destruct (currentTool st) eqn:Ht; simpl in E.
  - right. split; [done|]. destruct (snapToGridEnabled st); simpl in E; tkeep_in E; exact K.
  - right. split; [done|]. injection E as <-. reflexivity.
  - by left.
Qed.

Lemma konva_dragend_cases r st st' :
  konva_dragend r st = (st', Ok tt) ->
  if is_dragging st r && bool_decide (currentTool st = Transitions)
  then exists st1, call_node r stopDrag st = (st1, Ok tt) /\ endTentativeTransition st1 = (st', Ok tt)
  else tkeep st st'.
Proof.
  intros E. unfold konva_dragend in E. rewrite js_bind_get in E.
  destruct (is_dragging st r); simpl; [|injection E as <-; reflexivity].
  apply js_bind_inv in E as (st1 & [] & E1 & E). pose proof (call_node_quiet _ _ _ _ _ E1) as Q1.
  rewrite <- (quiet_tool _ _ Q1).
  destruct (onDragEnd_cases _ _ _ E) as [[Ht E2] | [Ht K]].
  - rewrite bool_decide_eq_true_2 by done. by exists st1.
  - rewrite bool_decide_eq_false_2 by done. etransitivity; [apply quiet_tkeep, Q1 | exact K].
Qed.

Lemma onMouseEnter_phase r st st' :
  onMouseEnter r st = (st', Ok tt) ->
  transitions st' = transitions st
  /\ if bool_decide (currentTool st = Transitions) && tentativeTransitionInProgress st
     then exists src t, phase_of st = Drawing src t /\ phase_of st' = Drawing src (Some r)
                        /\ shadow_at st' r = Some true
     else st' = st.
Proof.
  intros E. unfold onMouseEnter in E. rewrite js_bind_get in E.
  destruct (_ && _) eqn:Hc; [|by injection E as <-].
  apply andb_true_iff in Hc as [_ Hp]. unfold tentativeTransitionInProgress in Hp.
  apply bool_decide_eq_true in Hp as [t Ht].
  apply js_bind_inv in E as (st1 & [] & E1 & E). injection E1 as <-.
  destruct (quiet_tkeep _ _ (call_node_quiet _ _ _ _ _ E)) as [Hp' Ht'].
  unfold enableNewConnectionGlow in E. eapply (call_node_shadow _ _ true) in E as [Hg _]; [|intros; reflexivity].
  split; [done|]. exists (tt_source t), (tentativeTransitionTarget st).
  unfold phase_of in *. simpl in *. rewrite Ht in *. done.
Qed.

Lemma onMouseLeave_phase r st st' :
  onMouseLeave r st = (st', Ok tt) ->
  transitions st' = transitions st
  /\ if bool_decide (currentTool st = Transitions) && tentativeTransitionInProgress st
         && bool_decide (tentativeTransitionTarget st = Some r)
     then exists src, phase_of st = Drawing src (Some r) /\ phase_of st' = Drawing src None
                      /\ shadow_at st' r = Some false
     else st' = st.
Proof.
  intros E. unfold onMouseLeave in E. rewrite js_bind_get in E.
  destruct (bool_decide (currentTool st = Transitions)); simpl in *; [|by injection E as <-].
  destruct (_ && _) eqn:Hc; [|by injection E as <-].
  apply andb_true_iff in Hc as [Hp Hd]. unfold tentativeTransitionInProgress in Hp.
  apply bool_decide_eq_true in Hp as [t Ht]. apply bool_decide_eq_true in Hd.
  apply js_bind_inv in E as (st1 & [] & E1 & E). injection E1 as <-.
  destruct (quiet_tkeep _ _ (call_node_quiet _ _ _ _ _ E)) as [Hp' Ht'].
  unfold disableShadowEffects in E. eapply (call_node_shadow _ _ false) in E as [Hg _]; [|intros; reflexivity].
  split; [done|]. exists (tt_source t). unfold phase_of in *. simpl in *. rewrite Ht, Hd in *. done.
Qed.

(** ** Adding and finishing a transition *)

Lemma edges_in_singleton h rt t :
  h !! rt = Some (OTrans t) -> edges_in h [rt] = {[(sourceNode t, destNode t)]}.
Proof. intros Ht. unfold edges_in. simpl. unfold edge_in. rewrite Ht. set_solver. Qed.

Lemma edge_between_in st src dst :
  existsb (fun rt => edge_between src dst (heap st !! rt)) (transitions st) = true ->
  (src, dst) ∈ edges_in (heap st) (transitions st).
Proof.
  intros Hh. apply existsb_exists in Hh as (rt & Hin & He).
  apply elem_of_edges_in. exists rt. split; [by apply list_elem_of_In|].
  unfold edge_in. unfold edge_between in He.
  destruct (heap st !! rt) as [[|t]|]; try done. by apply bool_decide_eq_true in He as [<- <-].
Qed.

(** [addTransition src dst] adds the edge [(src, dst)] to the diagram's
    set of edges, and nothing else. *)
Lemma addTransition_edges st src dst :
  wf st -> trans_ok st -> instanceof_node st src = true -> instanceof_node st dst = true ->
  exists st', addTransition src dst st = (st', Ok tt) /\ step_ok st st' /\ trans_ok st'
    /\ phase_of st' = phase_of st
    /\ edges_in (heap st') (transitions st') = {[(src, dst)]} ∪ edges_in (heap st) (transitions st).
Proof.
  intros Hwf Hok Hs Hd. destruct (addTransition_safe st src dst Hwf Hs Hd) as (st' & [] & E & Hst).
  exists st'. split; [done|]. split; [done|].
  unfold addTransition in E. rewrite js_bind_get in E. destruct (existsb _ _) eqn:Hh.
  - injection E as <-. split_and!; [done | done |]. pose proof (edge_between_in st src dst Hh). set_solver.
  - erewrite js_bind_ok in E; [|reflexivity]. pose proof (next_ref_fresh st Hwf) as Hfresh.
    unfold updatePoints in E. simpl in E. rewrite lookup_insert_eq in E.
    repeat match type of E with context [endpoint_pos ?s ?r] => destruct (endpoint_pos s r) end;
      try discriminate.
    injection E as <-.
    unfold trans_ok, phase_of. simpl. set (rt := next_ref st) in *.
    assert (Hne : forall r, r ∈ transitions st -> r <> rt).
    { intros r Hr ->. destruct (Hok rt Hr). congruence. }
    split_and!; [| done |].
    + intros r Hr. apply elem_of_app in Hr as [Hr|Hr%list_elem_of_singleton].
      * rewrite !lookup_insert_ne by (symmetry; by apply Hne). by apply Hok.
      * subst r. rewrite lookup_insert_eq. by eexists.
    + rewrite edges_in_app. erewrite edges_in_singleton by apply lookup_insert_eq.
      erewrite (edges_in_ext (heap st) _ (transitions st)); [simpl; set_solver|].
      intros r Hr. unfold edge_in. rewrite !lookup_insert_ne by (symmetry; by apply Hne). done.
Qed.

(** The release with the Transitions tool: [Finish], or a stutter when
    no drawing is in progress. *)
Lemma endTentativeTransition_step st st' :
  wf st -> trans_ok st -> endTentativeTransition st = (st', Ok tt) ->
  step_ok st st' -> trans_ok st' /\ exists l, spec_step (abs st) l (abs st').
Proof.
  intros Hwf Hok E Hst. unfold endTentativeTransition in E. rewrite js_bind_get in E.
  destruct (tentative st) as [t|] eqn:Et; [destruct (tentativeTransitionTarget st) as [d|] eqn:Ed|].
  - destruct (addTransition_edges st (tt_source t) d Hwf Hok (wf_tent _ Hwf t Et)
                (proj1 (wf_target _ Hwf d Ed))) as (st1 & E1 & _ & Hok1 & _ & He1).
    rewrite (js_bind_ok _ _ _ _ _ E1) in E. injection E as <-.
    split; [exact Hok1|]. exists (Some Finish). unfold abs, phase_of. simpl. rewrite Et, Ed, He1.
    constructor.
  - rewrite (js_bind_ok _ _ st st tt) in E by done. injection E as <-.
    split; [exact Hok|]. exists (Some Finish). unfold abs, phase_of. simpl. rewrite Et, Ed.
    constructor.
  - rewrite (js_bind_ok _ _ st st tt) in E by done. injection E as <-.
    split; [exact Hok|]. exists None. unfold abs, phase_of. simpl. rewrite Et. constructor.
Qed.

(** ** One event is one step of the machine *)

Lemma dispatch_sim st e :
  wf st -> trans_ok st -> (forall r, event_target e = Some r -> instanceof_node st r = true) ->
  exists st', dispatch e st = (st', Ok tt) /\ step_ok st st' /\ trans_ok st'
    /\ exists l, spec_step (abs st) l (abs st').
Proof.
  intros Hwf Hok Ht. destruct (dispatch_ok st e Hwf Ht) as (st' & E & Hst).
  exists st'. split; [done|]. split; [done|].
  assert (Hstut : tkeep st st' -> trans_ok st' /\ exists l, spec_step (abs st) l (abs st')).
  { intros K. destruct (stutter_step st st' Hok Hst K). eauto. }
  destruct e as [r ev|r|r|r ev|r p ev|r|t|b|label x y]; simpl in E.
  - apply Hstut, (onClick_tkeep r ev st st' tt E).
  - destruct (onMouseEnter_phase r st st' E) as [Htr Hc].
    destruct (_ && _); [|subst st'; apply Hstut; reflexivity].
    destruct Hc as (src & t & Hp & Hp' & _). destruct (abs_frame st st' Hok Hst Htr) as [Ha Hok'].
    split; [done|]. exists (Some (Hover r)). rewrite Ha, Hp'. unfold abs at 1. rewrite Hp. constructor.
  - destruct (onMouseLeave_phase r st st' E) as [Htr Hc].
    destruct (_ && _); [|subst st'; apply Hstut; reflexivity].
    destruct Hc as (src & Hp & Hp' & _). destruct (abs_frame st st' Hok Hst Htr) as [Ha Hok'].
    split; [done|]. exists (Some (Leave r)). rewrite Ha, Hp'. unfold abs at 1. rewrite Hp. constructor.
  - destruct (konva_dragstart_phase r ev st st' E) as [Htr Hp].
    case_bool_decide; [|by apply Hstut].
    destruct (abs_frame st st' Hok Hst Htr) as [Ha Hok'].
    split; [done|]. exists (Some (Begin r)). rewrite Ha, Hp. constructor.
  - apply Hstut, (konva_dragmove_tkeep r p ev st st' tt E).
  - pose proof (konva_dragend_cases r st st' E) as Hc.
    destruct (_ && _); [destruct Hc as (st1 & E1 & E2) | by apply Hstut].
    destruct (call_node_safe st r stopDrag Hwf (Ht r eq_refl) node_safe_stopDrag)
      as (st1' & a & E1' & Hst1).
    rewrite E1 in E1'. injection E1' as <- _.
    destruct (tkeep_abs st st1 Hok Hst1 (call_node_tkeep r stopDrag st st1 tt E1)) as [Habs Hok1].
    rewrite <- Habs.
    destruct (endTentativeTransition_safe st1 (proj1 Hst1)) as (st'' & [] & E'' & Hst'').
    rewrite E2 in E''. injection E'' as <-.
    by apply (endTentativeTransition_step st1 st' (proj1 Hst1) Hok1 E2).
  - injection E as <-. by apply Hstut.
  - injection E as <-. by apply Hstut.
  - apply js_bind_inv in E as (st1 & r & E1 & E). injection E as <-.
    unfold addNode in E1. destruct (NodeWrapper_new label None (issued st)). injection E1 as <- _.
    by apply Hstut.
Qed.

Lemma init_abs cs : abs (init_state cs) = mkSpec Idle ∅ /\ trans_ok (init_state cs).
Proof. split; [reflexivity | intros rt Hrt; simpl in Hrt; set_solver]. Qed.

(** C2 (refinement of the builder): every state the editor reaches
    from an empty diagram reads as a state of the machine of spec section
    4.4 reachable from an idle, empty diagram, and every event on it
    returns normally and is one step of that machine (a stutter, [Begin],
    [Hover], [Leave] or [Finish]); in particular a transition is only
    ever added by a release over a target, and only the edge from the
    drawing's source to that target. *)
Theorem reachable_refines (cs : ColorScheme) (st : StateManager) :
  reachable cs st ->
  spec_reach (abs st) /\ trans_ok st
  /\ forall e, (forall r, event_target e = Some r -> instanceof_node st r = true) ->
       exists st' l, dispatch e st = (st', Ok tt) /\ spec_step (abs st) l (abs st').
Proof.
  intros Hr. assert (H : wf st /\ trans_ok st /\ spec_reach (abs st)).
  { induction Hr as [|st e st' res Hreach (Hwf & Hok & Hs) Ht E].
    - destruct (init_abs cs) as [-> Hok]. split_and!; [apply init_wf | done | constructor].
    - destruct (dispatch_sim st e Hwf Hok Ht) as (st'' & E' & Hst & Hok' & l & Hl).
      rewrite E' in E. injection E as <- _. split_and!; [apply Hst | done | econstructor; eauto]. }
  destruct H as (Hwf & Hok & Hs). split_and!; [done | done |].
  intros e Ht. destruct (dispatch_sim st e Hwf Hok Ht) as (st' & E & _ & _ & l & Hl). eauto.
Qed.

(** ** Hovering *)

Lemma in_progress_phase st :
  tentativeTransitionInProgress st = match phase_of st with Idle => false | _ => true end.
Proof. unfold tentativeTransitionInProgress, phase_of. by destruct (tentative st). Qed.

(** C8 (hover sets the target): entering a node while drawing with the
    Transitions tool makes it the target of the drawing, whatever node it
    is (the source included), keeps the source and lights the node's
    candidate-target glow; with another tool or while idle, entering a
    node changes nothing. *)
Theorem onMouseEnter_target (st : StateManager) (this : positive) :
  wf st -> instanceof_node st this = true ->
  exists st', onMouseEnter this st = (st', Ok tt) /\ wf st'
    /\ (currentTool st = Transitions ->
        forall src t, phase_of st = Drawing src t ->
          phase_of st' = Drawing src (Some this) /\ shadow_at st' this = Some true)
    /\ (currentTool st <> Transitions \/ phase_of st = Idle -> st' = st).
Proof.
  intros Hwf Hn. destruct (onMouseEnter_safe st this Hwf Hn) as (st' & [] & E & Hst).
  exists st'. split_and!; [done | apply Hst | |];
    destruct (onMouseEnter_phase this st st' E) as [_ Hc]; rewrite in_progress_phase in Hc.
  - intros Ht src t Hp. rewrite Ht, Hp in Hc. destruct Hc as (src' & t' & Hp' & -> & Hg).
    split; [congruence | done].
  - intros Hi. destruct (bool_decide _) eqn:Ht, (phase_of st) eqn:Hp; simpl in Hc; try done.
    apply bool_decide_eq_true in Ht. by destruct Hi.
Qed.

(** C9 (stale mouse-leave): leaving the target of a drawing with the
    Transitions tool clears the target, keeps the source and removes the
    node's glow; leaving a node that is not the current target changes
    nothing. *)
Theorem onMouseLeave_target (st : StateManager) (this : positive) :
  wf st -> instanceof_node st this = true ->
  exists st', onMouseLeave this st = (st', Ok tt) /\ wf st'
    /\ (currentTool st = Transitions ->
        forall src, phase_of st = Drawing src (Some this) ->
          phase_of st' = Drawing src None /\ shadow_at st' this = Some false)
    /\ (tentativeTransitionTarget st <> Some this -> st' = st).
Proof.
  intros Hwf Hn. destruct (onMouseLeave_safe st this Hwf Hn) as (st' & [] & E & Hst).
  exists st'. split_and!; [done | apply Hst | |];
    destruct (onMouseLeave_phase this st st' E) as [_ Hc]; rewrite in_progress_phase in Hc.
  - intros Ht src Hp.
    assert (Htg : tentativeTransitionTarget st = Some this)
      by (unfold phase_of in Hp; destruct (tentative st); [by injection Hp | done]).
    rewrite Ht, Hp, Htg in Hc. rewrite !bool_decide_eq_true_2 in Hc by done. simpl in Hc.
    destruct Hc as (src' & Hp' & -> & Hg). split; [congruence | done].
  - intros Hne. rewrite (bool_decide_eq_false_2 (tentativeTransitionTarget st = Some this)) in Hc
      by done. by rewrite andb_false_r in Hc.
Qed.

(** ** Recovering the idle phase *)

(** A node method that keeps the node's view object. *)
Definition keeps_view {A} (m : js NodeWrapper A) : Prop :=
  forall n n' a, m n = (n', Ok a) -> view n' = view n.

Lemma keeps_view_position : keeps_view position.
Proof.
  intros n n' a E. unfold position, js_bind, read_view in E.
  destruct (view n) eqn:Hv; cbn in E; unfold js_ret in E; [congruence | discriminate].
Qed.

Lemma keeps_view_lastPos p : keeps_view (js_modify (set_lastPos p)).
Proof. intros n n' a E. by injection E as <- _. Qed.

(** Konva's dragging flag of node [r]. *)
Lemma call_node_dragging {A} r (m : js NodeWrapper A) st st' a r' :
  keeps_view m -> call_node r m st = (st', Ok a) -> is_dragging st' r' = is_dragging st r'.
Proof.
  intros Hm E. unfold call_node in E. destruct (heap st !! r) as [[n|t]|] eqn:Hr; try discriminate.
  destruct (m n) as [n' res] eqn:Em. injection E as <- ->.
  unfold is_dragging, node_at. simpl. destruct (decide (r' = r)) as [->|Hne].
  - rewrite lookup_insert_eq, Hr. by rewrite (Hm n n' a Em).
  - by rewrite lookup_insert_ne.
Qed.

(** A drag started with the Transitions tool keeps the node dragging:
    the Transitions branch of [onDragStart] does not call [stopDrag]. *)
Lemma konva_dragstart_dragging r ev st st' :
  konva_dragstart r ev st = (st', Ok tt) -> currentTool st = Transitions ->
  is_dragging st' r = true /\ currentTool st' = Transitions.
Proof.
  intros E Ht. unfold konva_dragstart in E. node_step E st1 Q1.
  assert (D1 : is_dragging st1 r = true).
  { match goal with H : call_node r _ st = _ |- _ => unfold call_node in H; rename H into E1 end.
    destruct (heap st !! r) as [[n|t]|] eqn:Hr; try discriminate.
    unfold with_view in E1. destruct (view n) as [v|] eqn:Hv; [|discriminate].
    injection E1 as <-. unfold is_dragging, node_at. simpl. by rewrite lookup_insert_eq. }
  unfold onDragStart in E. node_step E st2 Q2. node_step E st3 Q3.
  rewrite js_bind_get, (quiet_tool _ _ Q3), (quiet_tool _ _ Q2), (quiet_tool _ _ Q1), Ht in E.
  unfold startTentativeTransition in E. node_step E st4 Q4. injection E as <-.
  split; [|simpl; rewrite (quiet_tool _ _ Q4), (quiet_tool _ _ Q3), (quiet_tool _ _ Q2),
                              (quiet_tool _ _ Q1); done].
  transitivity (is_dragging st4 r); [reflexivity|].
  rewrite (call_node_dragging _ _ _ _ _ _ keeps_view_position E3),
    (call_node_dragging _ _ _ _ _ _ (keeps_view_lastPos _) E2),
    (call_node_dragging _ _ _ _ _ _ keeps_view_position E1).
  exact D1.
Qed.

(** C10 (liveness: the builder can always be brought back to idle):
    from every well-formed state, choosing the Transitions tool, pressing
    on a node and releasing it leaves the builder idle with the diagram's
    edges unchanged, whatever drawing was left open before (for instance
    by a tool switch in the middle of a gesture). *)
Theorem builder_recovers (st : StateManager) (r : positive) :
  wf st -> trans_ok st -> instanceof_node st r = true ->
  abs (event_loop [SetTool Transitions; DragStart r plain; DragEnd r] st) = mkSpec Idle (edges (abs st)).
Proof.
  intros Hwf Hok Hr. cbn [event_loop]. set (st1 := fst (dispatch (SetTool Transitions) st)).
  assert (Hwf1 : wf st1) by (apply (wf_frame st); done).
  destruct (dispatch_sim st1 (DragStart r plain) Hwf1 Hok ltac:(by intros ? [= <-]))
    as (st2 & E2 & Hst2 & Hok2 & _).
  rewrite E2. simpl in E2 |- *.
  destruct (konva_dragstart_phase _ _ _ _ E2) as [Htr2 Hp2].
  destruct (konva_dragstart_dragging _ _ _ _ E2 eq_refl) as [D2 Ht2].
  simpl in Hp2. destruct (abs_frame st1 st2 Hok Hst2 Htr2) as [Ha2 _].
  assert (Hr2 : instanceof_node st2 r = true) by (eapply shape_le_node; [apply Hst2 | done]).
  destruct (konva_dragend_safe st2 r (proj1 Hst2) Hr2) as (st3 & [] & E3 & Hst3).
  change (dispatch (DragEnd r) st2) with (konva_dragend r st2). rewrite E3. simpl.
  pose proof (konva_dragend_cases r st2 st3 E3) as Hc. rewrite D2, Ht2 in Hc. simpl in Hc.
  destruct Hc as (st2' & E2' & E4).
  destruct (call_node_safe st2 r stopDrag (proj1 Hst2) Hr2 node_safe_stopDrag)
    as (st2'' & a & E2'' & Hst2'). rewrite E2' in E2''. injection E2'' as <- _.
  destruct (tkeep_abs st2 st2' Hok2 Hst2' (call_node_tkeep r stopDrag st2 st2' tt E2')) as [Ha2' _].
  assert (Hp2' : phase_of st2' = Drawing r None)
    by (change (phase_of st2') with (phase (abs st2')); rewrite Ha2'; exact Hp2).
  unfold endTentativeTransition in E4. rewrite js_bind_get in E4. unfold phase_of in Hp2'.
  destruct (tentative st2') as [t|]; [|discriminate]. injection Hp2' as _ Htg. rewrite Htg in E4.
  rewrite (js_bind_ok _ _ st2' st2' tt) in E4 by done. injection E4 as <-.
  unfold abs at 1. simpl. change (edges_in (heap st2') (transitions st2')) with (edges (abs st2')).
  by rewrite Ha2', Ha2.
Qed.

(** ** Witnesses *)

(** [q0 -> q1] drawn with the Transitions tool. *)
Definition drawn_state : StateManager :=
  event_loop (two_states ++ [SetTool Transitions; DragStart 1 plain; MouseEnter 2; DragEnd 1])
    (init_state example_scheme).

Lemma reachable_refines_witness :
  reachable example_scheme drawn_state
  /\ (spec_reach (abs drawn_state) /\ trans_ok drawn_state
      /\ forall e, (forall r, event_target e = Some r -> instanceof_node drawn_state r = true) ->
           exists st' l, dispatch e drawn_state = (st', Ok tt) /\ spec_step (abs drawn_state) l (abs st')).
Proof.
  assert (H : reachable example_scheme drawn_state).
  { apply event_loop_reachable; [constructor | vm_compute; reflexivity]. }
  split; [exact H | exact (reachable_refines example_scheme drawn_state H)].
Defined.

Lemma onMouseEnter_target_witness :
  exists st', onMouseEnter 1 tentative_state = (st', Ok tt) /\ wf st'
    /\ (currentTool tentative_state = Transitions ->
        forall src t, phase_of tentative_state = Drawing src t ->
          phase_of st' = Drawing src (Some 1%positive) /\ shadow_at st' 1 = Some true)
    /\ (currentTool tentative_state <> Transitions \/ phase_of tentative_state = Idle -> st' = tentative_state).
Proof.
  exact (onMouseEnter_target tentative_state 1 tentative_state_wf ltac:(vm_compute; reflexivity)).
Defined.

Lemma onMouseLeave_target_witness :
  exists st', onMouseLeave 2 tentative_state = (st', Ok tt) /\ wf st'
    /\ (currentTool tentative_state = Transitions ->
        forall src, phase_of tentative_state = Drawing src (Some 2%positive) ->
          phase_of st' = Drawing src None /\ shadow_at st' 2 = Some false)
    /\ (tentativeTransitionTarget tentative_state <> Some 2%positive -> st' = tentative_state).
Proof.
  exact (onMouseLeave_target tentative_state 2 tentative_state_wf ltac:(vm_compute; reflexivity)).
Defined.

Lemma builder_recovers_witness :
  abs (event_loop [SetTool Transitions; DragStart 1 plain; DragEnd 1] tentative_state)
  = mkSpec Idle (edges (abs tentative_state)).
Proof.
  assert (Hok : trans_ok tentative_state)
    by (apply trans_ok_nil; vm_compute; reflexivity).
  exact (builder_recovers tentative_state 1 tentative_state_wf Hok ltac:(vm_compute; reflexivity)).
Defined.

End Builder.
