(* ===== verification/Drag.v ===== *)
(** * Whole drag gestures with the Select tool

    A drag gesture is Konva's [dragstart], any number of [dragmove]s and a
    [dragend] on the same node.  What happens between them is kept by the
    frame [gkeep]: the action log, the tool, the snap flag and Konva's
    dragging flag of every node are unchanged; [still] adds every node's
    position.  Both are proved for the operations the handlers call by
    the tactics [gkeep_tac] and [still_tac], in the style of
    [Builder.tkeep].  Each event of a Select gesture then gets a lemma
    saying what it changes: [dragstart] logs [StartDragStatesOperation] at
    the node's position, each [dragmove] puts the anchor at the pointer
    ([Gestures.dragmove_select_effect]), and without snapping [dragend]
    logs [CompleteDragStatesOperation] at the node's final position.  The
    frame [cells g] keeps the reading [g] of every node: with
    [node_shadow] it follows the drop shadow, which [dragstart] turns on
    for every selected node ([forEach_shadow]) and the release without
    snapping turns off.  The theorems compose the events by induction on
    the pointer moves.  [Snap] and
    [TransitionDrag] build on the frames and event lemmas of this file. *)

From S2P Require Import Prelude Konva Node StateManager Handlers Safety Gestures.

Module Drag.
Import Konva Node StateManager Handlers Safety Gestures.

(** ** What a drag reads at its end

    Konva's dragging flag and the node's [lastSnappedPos]: the two fields
    of a node that [konva_dragend] and the snapping branch of [onDragEnd]
    read, and that nothing but the drag itself changes. *)

Definition node_drag (n : NodeWrapper) : bool :=
  match view n with Some v => g_dragging (nodeGroup v) | None => false end.

Definition node_marks (n : NodeWrapper) : bool * Vector2d := (node_drag n, lastSnappedPos n).

Definition marks_at (st : StateManager) (r : positive) : option (bool * Vector2d) := node_marks <$> node_at st r.

Lemma is_dragging_node_drag st r :
  is_dragging st r = match node_at st r with Some n => node_drag n | None => false end.
Proof. reflexivity. Qed.

Lemma marks_dragging st st' r : marks_at st' r = marks_at st r -> is_dragging st' r = is_dragging st r.
Proof.
  unfold marks_at, node_marks. rewrite !is_dragging_node_drag.
  destruct (node_at st' r), (node_at st r); simpl; intros H; simplify_eq; congruence.
Qed.

Lemma marks_lsp st st' r :
  marks_at st' r = marks_at st r -> lastSnappedPos <$> node_at st' r = lastSnappedPos <$> node_at st r.
Proof.
  unfold marks_at, node_marks.
  destruct (node_at st' r), (node_at st r); simpl; intros H; simplify_eq; congruence.
Qed.

(** A node method that leaves the marks alone. *)
Abbreviation keeps_drag := (keeps node_marks).
#[export] Hint Unfold node_marks node_drag : readings.

Create HintDb drag.

(** ** Cell frames

    [cells g]: the reading [g] of every node is unchanged.  A reading is
    [None] exactly where no node is, so the class of every reference is
    kept as well.  [cells node_marks] is the last part of [gkeep] below,
    [cells node_shadow] the frame of the shadow flags and
    [cells (fun _ => tt)] the frame of the classes alone. *)

Definition cells {T} (g : NodeWrapper -> T) (st st' : StateManager) : Prop :=
  forall r, g <$> node_at st' r = g <$> node_at st r.

#[export] Instance cells_preorder {T} (g : NodeWrapper -> T) : PreOrder (cells g).
Proof. split; [by intros st r | intros a b c H1 H2 r; by rewrite H2, H1]. Qed.

Lemma cells_node {T} (g : NodeWrapper -> T) st st' r :
  cells g st st' -> instanceof_node st' r = instanceof_node st r.
Proof.
  intros H. specialize (H r). unfold instanceof_node, node_at in *.
  destruct (heap st' !! r) as [[]|], (heap st !! r) as [[]|]; by inversion H.
Qed.

(** Writing one heap cell keeps the readings when a node stays a node
    with the same reading and a transition stays a transition. *)
Lemma cells_set_cell {T} (g : NodeWrapper -> T) st r o o' :
  heap st !! r = Some o ->
  (forall n, o = ONode n -> exists n', o' = ONode n' /\ g n' = g n) ->
  (forall t, o = OTrans t -> exists t', o' = OTrans t') ->
  cells g st (set_heap (<[r := o']> (heap st)) st).
Proof.
  intros Ho Hn Ht r'. unfold node_at. simpl.
  destruct (decide (r' = r)) as [->|Hne]; [|by rewrite lookup_insert_ne].
  rewrite lookup_insert_eq, Ho. destruct o as [n|t].
  - destruct (Hn n eq_refl) as (n' & -> & H). simpl. by rewrite H.
  - by destruct (Ht t eq_refl) as (t' & ->).
Qed.

Lemma keeps_const {T A} (c : T) (m : js NodeWrapper A) : keeps (fun _ => c) m.
Proof. by intros n n' a _. Qed.

Lemma call_node_cells {T A} (g : NodeWrapper -> T) r (m : js NodeWrapper A) :
  keeps g m -> js_preserves (cells g) (call_node r m).
Proof.
  intros Hm st st' a E. unfold call_node in E.
  destruct (heap st !! r) as [[n|t]|] eqn:Hr; [|discriminate..].
  destruct (m n) as [n' res] eqn:Em. injection E as <- ->.
  apply (cells_set_cell g st r (ONode n)); [done | | done].
  intros ? [= <-]. exists n'. split; [done|]. by apply (Hm n n' a).
Qed.

Lemma call_obj_cells {T} (g : NodeWrapper -> T) mn mt r : keeps g mn -> js_preserves (cells g) (call_obj mn mt r).
Proof.
  intros Hm st st' a E. unfold call_obj in E.
  destruct (heap st !! r) as [[n|t]|] eqn:Hr; [| |discriminate].
  - destruct (mn n) as [n' res] eqn:Em. injection E as <- ->.
    apply (cells_set_cell g st r (ONode n)); [done | | done].
    intros ? [= <-]. exists n'. split; [done|]. by apply (Hm n n' a).
  - destruct (mt t) as [t' res]. injection E as <- _.
    apply (cells_set_cell g st r (OTrans t)); [done | done | by exists t'].
Qed.

Lemma updatePoints_cells {T} (g : NodeWrapper -> T) rt : js_preserves (cells g) (updatePoints rt).
Proof.
  intros st st' a E. unfold updatePoints in E.
  destruct (heap st !! rt) as [[n|t]|] eqn:Hrt; [discriminate| |discriminate].
  destruct (endpoint_pos st (sourceNode t)), (endpoint_pos st (destNode t)); try discriminate.
  injection E as <- _. apply (cells_set_cell g st rt (OTrans t)); [done | done | by eexists].
Qed.

Lemma modify_cells {T} (g : NodeWrapper -> T) (f : StateManager -> StateManager) :
  (forall st, heap (f st) = heap st) -> js_preserves (cells g) (js_modify f).
Proof. intros Hf. apply js_preserves_modify. intros st r. unfold node_at. by rewrite Hf. Qed.

(** ** The frame of a gesture *)

Definition gkeep (st st' : StateManager) : Prop :=
  log st' = log st /\ currentTool st' = currentTool st
  /\ snapToGridEnabled st' = snapToGridEnabled st /\ cells node_marks st st'.

#[export] Instance gkeep_preorder : PreOrder gkeep.
Proof.
  split; [intros st; unfold gkeep; by split_and! |].
  intros a b c (H1 & H2 & H3 & H4) (H5 & H6 & H7 & H8). unfold gkeep.
  split_and!; first [congruence | by etransitivity].
Qed.

Lemma call_node_gkeep {A} r (m : js NodeWrapper A) : keeps_drag m -> js_preserves gkeep (call_node r m).
Proof.
  intros Hm st st' a E. pose proof (call_node_cells node_marks r m Hm st st' a E) as Hc.
  unfold call_node in E. destruct (heap st !! r) as [[n|t]|]; [|discriminate..].
  destruct (m n). injection E as <- _. by split_and!.
Qed.

Lemma call_obj_gkeep mn mt r : keeps_drag mn -> js_preserves gkeep (call_obj mn mt r).
Proof.
  intros Hm st st' a E. pose proof (call_obj_cells node_marks mn mt r Hm st st' a E) as Hc.
  unfold call_obj in E. destruct (heap st !! r) as [[n|t]|]; [destruct (mn n) | destruct (mt t) | ];
    injection E as <- _; by split_and!.
Qed.

Lemma updatePoints_gkeep rt : js_preserves gkeep (updatePoints rt).
Proof.
  intros st st' a E. pose proof (updatePoints_cells node_marks rt st st' a E) as Hc.
  unfold updatePoints in E. destruct (heap st !! rt) as [[n|t]|]; [discriminate| |discriminate].
  destruct (endpoint_pos st (sourceNode t)), (endpoint_pos st (destNode t)); try discriminate.
  injection E as <- _. by split_and!.
Qed.

Lemma modify_gkeep (f : StateManager -> StateManager) :
  (forall st, log (f st) = log st /\ currentTool (f st) = currentTool st
              /\ snapToGridEnabled (f st) = snapToGridEnabled st /\ heap (f st) = heap st) ->
  js_preserves gkeep (js_modify f).
Proof.
  intros Hf. apply js_preserves_modify. intros st. destruct (Hf st) as (H1 & H2 & H3 & H4).
  unfold gkeep. split_and!; try done. intros r. unfold node_at. by rewrite H4.
Qed.

Lemma keeps_drag_select cs : keeps_drag (select cs).
Proof. unfold select. keeps_tac. Qed.

Lemma keeps_drag_deselect cs : keeps_drag (deselect cs).
Proof. unfold deselect. keeps_tac. Qed.

#[export] Hint Resolve keeps_drag_select keeps_drag_deselect : automaton drag.
#[export] Hint Resolve updatePoints_gkeep : drag.

Ltac gkeep_tac :=
  frame_tac gkeep ltac:(first
    [ apply modify_gkeep; intros; simpl; repeat case_match; split_and!; done
    | apply call_node_gkeep; keeps_tac
    | apply call_obj_gkeep; simpl; eauto with drag
    | solve [eauto with drag] ]).

Lemma selectObject_gkeep r : js_preserves gkeep (selectObject r).
Proof. unfold selectObject, select_obj. gkeep_tac. Qed.

Lemma deselectAllObjects_gkeep : js_preserves gkeep deselectAllObjects.
Proof. unfold deselectAllObjects, deselect_obj. gkeep_tac. Qed.

Lemma update_transitions_of_gkeep r : js_preserves gkeep (update_transitions_of r).
Proof. unfold update_transitions_of. gkeep_tac. Qed.

#[export] Hint Resolve selectObject_gkeep deselectAllObjects_gkeep update_transitions_of_gkeep : drag.

Lemma move_other_gkeep ev r : js_preserves gkeep (move_other ev r).
Proof. unfold move_other, fire_move, position, setPosition. gkeep_tac. Qed.

#[export] Hint Resolve move_other_gkeep : drag.

(** ** Steps that move no node

    [still] is [gkeep] together with every position: what the handlers
    do around a drag that is not the drag itself. *)

Definition samepos (st st' : StateManager) : Prop :=
  forall r, endpoint_pos st' r = endpoint_pos st r.

#[export] Instance samepos_preorder : PreOrder samepos.
Proof. split; [by intros st r | intros a b c P1 P2 r; by rewrite P2, P1]. Qed.

Definition still (st st' : StateManager) : Prop := gkeep st st' /\ samepos st st'.

#[export] Instance still_preorder : PreOrder still.
Proof.
  split; [intros st; split; reflexivity|].
  intros a b c [G1 P1] [G2 P2]. split; by etransitivity.
Qed.

Lemma samepos_call_node {A} r (m : js NodeWrapper A) st st' a :
  keeps_pos m -> call_node r m st = (st', Ok a) -> samepos st st'.
Proof.
  intros Hm E r'. unfold call_node in E.
  destruct (heap st !! r) as [[n|t]|] eqn:Hr; [|discriminate..].
  destruct (m n) as [n' res] eqn:Em. injection E as <- ->. rewrite !endpoint_pos_node_at.
  destruct (decide (r' = r)) as [->|Hne]; [|by rewrite node_at_insert_ne].
  unfold node_at. simpl. rewrite lookup_insert_eq, Hr. by apply (Hm n n' a).
Qed.

Lemma call_node_still {A} r (m : js NodeWrapper A) :
  keeps_drag m -> keeps_pos m -> js_preserves still (call_node r m).
Proof.
  intros Hd Hp st st' a E. split; [by apply (call_node_gkeep r m Hd st st' a) | by eapply samepos_call_node].
Qed.

Lemma call_obj_still mn mt r : keeps_drag mn -> keeps_pos mn -> js_preserves still (call_obj mn mt r).
Proof.
  intros Hd Hp st st' a E. split; [by apply (call_obj_gkeep mn mt r Hd st st' a)|].
  intros r'. unfold call_obj in E. rewrite !endpoint_pos_node_at.
  destruct (heap st !! r) as [[n|t]|] eqn:Hr; [| |discriminate].
  - destruct (mn n) as [n' res] eqn:Em. injection E as <- ->.
    destruct (decide (r' = r)) as [->|Hne]; [|by rewrite node_at_insert_ne].
    unfold node_at. simpl. rewrite lookup_insert_eq, Hr. by apply (Hp n n' a).
  - destruct (mt t) as [t' res]. injection E as <- _.
    destruct (decide (r' = r)) as [->|Hne]; [|by rewrite node_at_insert_ne].
    unfold node_at. simpl. by rewrite lookup_insert_eq, Hr.
Qed.

Lemma modify_still (f : StateManager -> StateManager) :
  (forall st, log (f st) = log st /\ currentTool (f st) = currentTool st
              /\ snapToGridEnabled (f st) = snapToGridEnabled st /\ heap (f st) = heap st) ->
  js_preserves still (js_modify f).
Proof.
  intros Hf st st' a E. split; [by apply (modify_gkeep f Hf st st' a)|].
  injection E as <- _. intros r. rewrite !endpoint_pos_node_at. unfold node_at. by rewrite (proj2 (proj2 (proj2 (Hf st)))).
Qed.

Lemma keeps_pos_select cs : keeps_pos (select cs).
Proof. unfold select. keeps_tac. Qed.

Lemma keeps_pos_deselect cs : keeps_pos (deselect cs).
Proof. unfold deselect. keeps_tac. Qed.

Lemma keeps_drag_enableDragDropShadow cs : keeps_drag (enableDragDropShadow cs).
Proof. unfold enableDragDropShadow. keeps_tac. Qed.

Lemma keeps_drag_disableShadowEffects : keeps_drag disableShadowEffects.
Proof. unfold disableShadowEffects. keeps_tac. Qed.

Lemma keeps_pos_enableDragDropShadow cs : keeps_pos (enableDragDropShadow cs).
Proof. unfold enableDragDropShadow. keeps_tac. Qed.

Lemma keeps_pos_disableShadowEffects : keeps_pos disableShadowEffects.
Proof. unfold disableShadowEffects. keeps_tac. Qed.

#[export] Hint Resolve keeps_pos_select keeps_pos_deselect keeps_drag_enableDragDropShadow
  keeps_drag_disableShadowEffects keeps_pos_enableDragDropShadow keeps_pos_disableShadowEffects : automaton drag.

Ltac still_tac :=
  frame_tac still ltac:(first
    [ apply modify_still; intros; simpl; split_and!; done
    | apply call_node_still; [keeps_tac | keeps_tac; eauto with drag]
    | apply call_obj_still; simpl; eauto with drag ]).

Ltac still_in E :=
  match type of E with
  | ?m ?s = (?s', Ok ?a) =>
      let K := fresh "K" in
      assert (K : js_preserves still m) by (unfold selectObject, deselectAllObjects, select_obj, deselect_obj; still_tac);
      specialize (K s s' a E)
  end.

(** [cells g] through the handlers' operations, by the same frame. *)
Ltac cells_tac g :=
  frame_tac (cells g) ltac:(first
    [ apply modify_cells; intros; simpl; repeat case_match; done
    | apply call_node_cells; first [assumption | apply keeps_const | solve [keeps_tac]]
    | apply call_obj_cells; first [apply keeps_const | solve [simpl; eauto with drag]]
    | solve [eauto with drag] ]).

Ltac cells_in_by g E tac :=
  match type of E with
  | ?m ?s = (?s', Ok ?a) =>
      let C := fresh "C" in
      assert (C : js_preserves (cells g) m) by tac;
      specialize (C s s' a E)
  end.

Ltac cells_in g E :=
  cells_in_by g E ltac:(unfold selectObject, deselectAllObjects, select_obj, deselect_obj; cells_tac g).

Lemma cells_shadow st st' r : cells node_shadow st st' -> shadow_at st' r = shadow_at st r.
Proof.
  intros H. specialize (H r). unfold shadow_at.
  destruct (node_at st' r), (node_at st r); simpl in H; congruence.
Qed.

(** The classes of the heap cells. *)
Abbreviation kinds := (cells (fun _ : NodeWrapper => tt)).

#[export] Hint Unfold node_shadow : readings.

Lemma keeps_shadow_select cs : keeps node_shadow (select cs).
Proof. unfold select. keeps_tac. Qed.

Lemma keeps_shadow_deselect cs : keeps node_shadow (deselect cs).
Proof. unfold deselect. keeps_tac. Qed.

#[export] Hint Resolve keeps_shadow_select keeps_shadow_deselect updatePoints_cells : drag.

Lemma update_transitions_of_cells {T} (g : NodeWrapper -> T) r :
  js_preserves (cells g) (update_transitions_of r).
Proof. unfold update_transitions_of. cells_tac g. Qed.

#[export] Hint Resolve update_transitions_of_cells : drag.

Lemma move_other_shadows ev r : js_preserves (cells node_shadow) (move_other ev r).
Proof. unfold move_other, fire_move, position, setPosition. cells_tac node_shadow. Qed.

#[export] Hint Resolve move_other_shadows : drag.

(** A pointer move changes no shadow flag and no class, with every tool. *)
Lemma konva_dragmove_shadows r p ev : js_preserves (cells node_shadow) (konva_dragmove r p ev).
Proof.
  unfold konva_dragmove, onDragMove, fire_move, updateTentativeTransitionHead, setPosition, get_lastPos.
  cells_tac node_shadow.
Qed.

(** [dragstart] allocates nothing and changes no class, with every tool. *)
Lemma konva_dragstart_kinds r ev : js_preserves kinds (konva_dragstart r ev).
Proof.
  unfold konva_dragstart, onDragStart, startTentativeTransition, selectObject, deselectAllObjects,
    select_obj, deselect_obj, startDragStatesOperation, log_call.
  cells_tac (fun _ : NodeWrapper => tt).
Qed.

(** A loop of node calls keeps what each call keeps. *)
Lemma forEach_call_cells {T} (g : NodeWrapper -> T) (st0 : StateManager) (m : js NodeWrapper unit) l :
  keeps g m ->
  js_preserves (cells g) (js_forEach (fun r => if instanceof_node st0 r then call_node r m else js_ret tt) l).
Proof. intros Hm. cells_tac g. Qed.

(** A loop that calls a method rewriting the background circle on each
    node of a list sets the shadow flag of every listed node to the
    method's value and leaves every other flag alone. *)
Lemma forEach_shadow (st0 : StateManager) (f : Circle -> Circle) b l st st' :
  (forall c, c_shadowEnabled (f c) = b) ->
  js_forEach (fun r => if instanceof_node st0 r then call_node r (with_view (on_background f))
                       else js_ret tt) l st = (st', Ok tt) ->
  (forall r, r ∈ l -> instanceof_node st0 r = true -> shadow_at st' r = Some b)
  /\ (forall r, r ∉ l -> shadow_at st' r = shadow_at st r).
Proof.
  intros Hf. revert st. induction l as [|x l IH]; intros st E.
  { injection E as <-. split; [intros r Hr; by apply not_elem_of_nil in Hr | done]. }
  cbn [js_forEach] in E. apply js_bind_inv in E as (st1 & [] & E1 & E).
  destruct (IH st1 E) as [Hin Hout].
  assert (Hx : forall r, r <> x -> shadow_at st1 r = shadow_at st r).
  { destruct (instanceof_node st0 x); [|injection E1 as <-; done].
    exact (proj2 (call_node_shadow x f b st st1 tt Hf E1)). }
  split.
  - intros r Hr Hn. destruct (decide (r ∈ l)) as [Hl|Hl]; [by apply Hin|].
    assert (r = x) as -> by (apply elem_of_cons in Hr as [|]; [done | contradiction]).
    rewrite Hout by done. rewrite Hn in E1. exact (proj1 (call_node_shadow x f b st st1 tt Hf E1)).
  - intros r Hr. apply not_elem_of_cons in Hr as [Hne Hr]. by rewrite Hout, Hx.
Qed.

(** ** The events of a gesture one at a time *)

(** Konva's [startDrag]/[stopDrag] on the group of [r]. *)
Lemma set_dragging_effect r b st st' a :
  call_node r (with_view (on_group (set_dragging b))) st = (st', Ok a) ->
  is_dragging st' r = b /\ (forall r', r' <> r -> is_dragging st' r' = is_dragging st r')
  /\ quiet st st' /\ samepos st st'
  /\ forall r', lastSnappedPos <$> node_at st' r' = lastSnappedPos <$> node_at st r'.
Proof.
  intros E. pose proof (call_node_quiet _ _ _ _ _ E) as Hq.
  assert (Hp : samepos st st') by (eapply samepos_call_node; [|exact E]; keeps_tac).
  unfold call_node in E. destruct (heap st !! r) as [[n|t]|] eqn:Hr; [|discriminate..].
  unfold with_view in E. destruct (view n) as [v|] eqn:Hv; [|discriminate]. injection E as <- _.
  split_and!; [| |done|done|].
  - unfold is_dragging, node_at. simpl. by rewrite lookup_insert_eq.
  - intros r' Hne. unfold is_dragging. by rewrite node_at_insert_ne.
  - intros r'. destruct (decide (r' = r)) as [->|Hne]; [|by rewrite node_at_insert_ne].
    unfold node_at. simpl. by rewrite lookup_insert_eq, Hr.
Qed.

(** A selected object stays selected through a write to a heap cell. *)
Lemma call_obj_sel mn mt r st st' res :
  call_obj mn mt r st = (st', res) -> selectedObjects st' = selectedObjects st.
Proof.
  unfold call_obj. destruct (heap st !! r) as [[n|t]|].
  - destruct (mn n). intros E. by injection E as <- _.
  - destruct (mt t). intros E. by injection E as <- _.
  - intros E. by injection E as <- _.
Qed.

Lemma selectObject_in r st st' : selectObject r st = (st', Ok tt) -> r ∈ selectedObjects st'.
Proof.
  unfold selectObject. rewrite js_bind_get. case_bool_decide as Hin; [intros E; by injection E as <-|].
  intros E. apply js_bind_inv in E as (st1 & [] & E1 & E). unfold js_modify in E1. injection E1 as <-.
  unfold select_obj in E. rewrite js_bind_get in E. rewrite (call_obj_sel _ _ _ _ _ _ E). simpl.
  rewrite elem_of_app, list_elem_of_singleton. by right.
Qed.

Lemma selectObject_sel r st st' : selectObject r st = (st', Ok tt) ->
  selectedObjects st' = selectedObjects st ++ (if bool_decide (r ∈ selectedObjects st) then [] else [r]).
Proof.
  unfold selectObject. rewrite js_bind_get. case_bool_decide as Hin; intros E.
  - injection E as <-. by rewrite app_nil_r.
  - apply js_bind_inv in E as (st1 & [] & E1 & E). unfold js_modify in E1. injection E1 as <-.
    unfold select_obj in E. rewrite js_bind_get in E. by rewrite (call_obj_sel _ _ _ _ _ _ E).
Qed.

Lemma deselectAllObjects_sel st st' : deselectAllObjects st = (st', Ok tt) -> selectedObjects st' = [].
Proof.
  unfold deselectAllObjects. rewrite js_bind_get. intros E.
  apply js_bind_inv in E as (st1 & [] & _ & E). unfold js_modify in E. by injection E as <-.
Qed.

(** The node calls of a loop over references change no field of the
    editor but heap cells. *)
Lemma forEach_call_quiet (st0 : StateManager) (m : js NodeWrapper unit) (l : list positive) :
  js_preserves quiet (js_forEach (fun r => if instanceof_node st0 r then call_node r m else js_ret tt) l).
Proof.
  apply js_preserves_forEach; [apply _|]. intros r _.
  destruct (instanceof_node st0 r); [apply call_node_quiet | apply js_preserves_ret, _].
Qed.

(** Reading the position of a node changes nothing. *)
Lemma call_node_position r st st' p :
  call_node r position st = (st', Ok p) -> st' = st /\ endpoint_pos st r = Some p.
Proof.
  intros E. unfold call_node in E. destruct (heap st !! r) as [[n|t]|] eqn:Hr; [|discriminate..].
  unfold position, js_bind, read_view in E. destruct (view n) as [v|] eqn:Hv; [|discriminate].
  injection E as <- <-. split.
  - unfold set_heap. rewrite insert_id by done. by destruct st.
  - rewrite endpoint_pos_node_at. unfold node_at, node_pos. by rewrite Hr, Hv.
Qed.

Lemma quiet_gkeep_fields st st' :
  quiet st st' -> log st' = log st /\ currentTool st' = currentTool st
                  /\ snapToGridEnabled st' = snapToGridEnabled st.
Proof. unfold quiet. intros. destruct_and!. by split_and!. Qed.

(** The selection [onDragStart] leaves with the Select tool: without
    Shift a selection of exactly one object is replaced by the node,
    otherwise the node is appended unless already selected. *)
Definition dragstart_selection (ev : MouseEvent) (this : positive) (sel : list positive) : list positive :=
  if negb (shiftKey ev) && bool_decide (length sel = 1%nat) then [this]
  else sel ++ (if bool_decide (this ∈ sel) then [] else [this]).

(** [dragstart] with the Select tool: the group is dragging, no node has
    moved, the selection is [dragstart_selection], every selected node
    shows the drop shadow and [StartDragStatesOperation] is logged at the
    node's position. *)
Lemma konva_dragstart_select r ev st st' :
  konva_dragstart r ev st = (st', Ok tt) -> currentTool st = Select ->
  exists p0, endpoint_pos st r = Some p0
    /\ log st' = log st ++ [StartDragStatesOperation p0]
    /\ currentTool st' = Select /\ snapToGridEnabled st' = snapToGridEnabled st
    /\ is_dragging st' r = true /\ samepos st st' /\ r ∈ selectedObjects st'
    /\ (forall r', lastSnappedPos <$> node_at st' r' = lastSnappedPos <$> node_at st r')
    /\ selectedObjects st' = dragstart_selection ev r (selectedObjects st)
    /\ (forall r', r' ∈ selectedObjects st' -> instanceof_node st' r' = true -> shadow_at st' r' = Some true)
    /\ forall r', r' ∉ selectedObjects st' -> shadow_at st' r' = shadow_at st r'.
Proof.
  intros E Ht. unfold konva_dragstart in E. apply js_bind_inv in E as (st1 & [] & E1 & E).
  cells_in node_shadow E1.
  destruct (set_dragging_effect _ _ _ _ _ E1) as (D1 & _ & Q1 & P1 & M1).
  destruct (quiet_gkeep_fields _ _ Q1) as (L1 & T1 & S1).
  unfold onDragStart in E. apply js_bind_inv in E as (st2 & p & E2 & E).
  destruct (call_node_position _ _ _ _ E2) as [-> Hp].
  apply js_bind_inv in E as (st3 & [] & E3 & E). still_in E3. cells_in node_shadow E3.
  pose proof (call_node_quiet _ _ _ _ _ E3) as Q3.
  rewrite js_bind_get in E. destruct K as [(L3 & T3 & S3 & D3) P3].
  rewrite T3, T1, Ht in E.
  apply js_bind_inv in E as (st4 & [] & E4 & E). still_in E4. cells_in node_shadow E4.
  assert (Sel4 : selectedObjects st4 = if negb (shiftKey ev) && bool_decide (length (selectedObjects st3) = 1%nat)
                                       then [] else selectedObjects st3).
  { destruct (negb (shiftKey ev) && _); [exact (deselectAllObjects_sel _ _ E4) | by injection E4 as <-]. }
  apply js_bind_inv in E as (st5 & [] & E5 & E). still_in E5. cells_in node_shadow E5.
  pose proof (selectObject_in _ _ _ E5) as Hin. pose proof (selectObject_sel _ _ _ E5) as Sel5.
  rewrite js_bind_get in E. apply js_bind_inv in E as (st6 & [] & E6 & E). still_in E6.
  pose proof (forEach_call_quiet _ _ _ _ _ _ E6) as Q6.
  pose proof (forEach_call_cells (fun _ => tt) _ _ _ (keeps_const _ _) _ _ _ E6) as C6.
  unfold enableDragDropShadow in E6. apply (forEach_shadow _ _ true) in E6 as [Sh6 Out6]; [|done].
  unfold startDragStatesOperation, log_call, js_modify in E. injection E as <-.
  destruct K1 as [(L6 & T6 & S6 & D6) P6], K0 as [(L5 & T5 & S5 & D5) P5],
           K as [(L4 & T4 & S4 & D4) P4].
  destruct Q6 as (_ & _ & Hs6 & _). destruct Q3 as (_ & _ & Hs3 & _). destruct Q1 as (_ & _ & Hs1 & _).
  assert (M : marks_at st6 r = marks_at st1 r) by (by unfold marks_at; rewrite D6, D5, D4, D3).
  exists p. rewrite <- P1. split; [done|]. split_and!; simpl; try congruence.
  - change (is_dragging st6 r = true). by rewrite (marks_dragging _ _ _ M).
  - intros r'. change (endpoint_pos st6 r' = endpoint_pos st r'). by rewrite P6, P5, P4, P3, P1.
  - intros r'. change (lastSnappedPos <$> node_at st6 r' = lastSnappedPos <$> node_at st r').
    rewrite <- M1. apply marks_lsp. by unfold marks_at; rewrite D6, D5, D4, D3.
  - rewrite Hs6, Sel5, Sel4, Hs3, Hs1. unfold dragstart_selection.
    by destruct (shiftKey ev); simpl; repeat (case_bool_decide; simpl).
  - intros r' Hr' Hn. rewrite Hs6 in Hr'. apply Sh6; [done|].
    change (instanceof_node st6 r' = true) in Hn. by rewrite (cells_node _ _ _ _ C6) in Hn.
  - intros r' Hr'. rewrite Hs6 in Hr'. change (shadow_at st6 r' = shadow_at st r').
    rewrite Out6 by done. by rewrite (cells_shadow _ _ _ C2), (cells_shadow _ _ _ C1), (cells_shadow _ _ _ C0), (cells_shadow _ _ _ C).
Qed.

(** [dragend] with the Select tool and no snapping: the group stops,
    no node moves and [CompleteDragStatesOperation] is logged at the
    node's position. *)
Lemma konva_dragend_select r st st' :
  konva_dragend r st = (st', Ok tt) -> currentTool st = Select -> snapToGridEnabled st = false ->
  is_dragging st r = true ->
  exists q, endpoint_pos st r = Some q
    /\ log st' = log st ++ [CompleteDragStatesOperation q]
    /\ currentTool st' = Select /\ snapToGridEnabled st' = false
    /\ is_dragging st' r = false /\ samepos st st'
    /\ selectedObjects st' = selectedObjects st
    /\ forall r', r' ∈ selectedObjects st' -> instanceof_node st' r' = true -> shadow_at st' r' = Some false.
Proof.
  intros E Ht Hs Hd. unfold konva_dragend in E. rewrite js_bind_get, Hd in E.
  apply js_bind_inv in E as (st1 & [] & E1 & E). unfold stopDrag in E1.
  destruct (set_dragging_effect _ _ _ _ _ E1) as (D1 & _ & Q1 & P1 & _).
  destruct (quiet_gkeep_fields _ _ Q1) as (L1 & T1 & S1).
  unfold onDragEnd in E. rewrite js_bind_get, T1, S1, Ht, Hs in E.
  rewrite bool_decide_eq_false_2 in E by done. rewrite andb_false_r in E.
  rewrite bool_decide_eq_false_2, bool_decide_eq_true_2 in E by done.
  apply js_bind_inv in E as (st2 & [] & E2 & E). still_in E2.
  pose proof (forEach_call_quiet _ _ _ _ _ _ E2) as (_ & _ & Hs2 & _).
  pose proof (forEach_call_cells (fun _ => tt) _ _ _ (keeps_const _ _) _ _ _ E2) as C2.
  unfold disableShadowEffects in E2. apply (forEach_shadow _ _ false) in E2 as [Sh2 _]; [|done].
  apply js_bind_inv in E as (st3 & q & E3 & E).
  destruct (call_node_position _ _ _ _ E3) as [-> Hq].
  unfold completeDragStatesOperation, log_call, js_modify in E. injection E as <-.
  destruct K as [(L2 & T2 & S2 & D2) P2]. destruct Q1 as (_ & _ & Hs1 & _).
  exists q. rewrite <- P1, <- P2. split; [done|]. split_and!; simpl; try congruence.
  - change (is_dragging st2 r = false). by rewrite (marks_dragging _ _ _ (D2 r)).
  - intros r'. change (endpoint_pos st2 r' = endpoint_pos st r'). by rewrite P2, P1.
  - intros r' Hr' Hn. rewrite Hs2 in Hr'. apply Sh2; [done|].
    change (instanceof_node st2 r' = true) in Hn. by rewrite (cells_node _ _ _ _ C2) in Hn.
Qed.

(** A pointer move keeps the frame of the gesture, with every tool. *)
Lemma konva_dragmove_gkeep r p ev : js_preserves gkeep (konva_dragmove r p ev).
Proof.
  unfold konva_dragmove, onDragMove, fire_move, updateTentativeTransitionHead, setPosition, get_lastPos.
  gkeep_tac.
Qed.

(** ** Event sequences *)

Lemma event_loop_cons_ok e es st st1 res :
  dispatch e st = (st1, res) -> event_loop (e :: es) st = event_loop es st1.
Proof. intros E. simpl. by rewrite E. Qed.

Lemma event_loop_app es1 es2 st : event_loop (es1 ++ es2) st = event_loop es2 (event_loop es1 st).
Proof. revert st. induction es1 as [|e es1 IH]; intros st; [done|]. apply IH. Qed.

Lemma last_cons_default {A} (x d : A) l : List.last (x :: l) d = List.last l x.
Proof.
  revert x d. induction l as [|y l IH]; intros x d; [done|].
  change (List.last (y :: l) d = List.last (y :: l) x). by rewrite !IH.
Qed.

Definition drag_moves (r : positive) (moves : list (Vector2d * MouseEvent)) : list UIEvent :=
  map (fun m => DragMove r m.1 m.2) moves.

(** The pointer moves of a Select drag: the anchor ends at the last
    pointer position, the selection, the shadows and the frame of the
    gesture are kept. *)
Lemma select_moves st r moves p :
  wf st -> instanceof_node st r = true -> currentTool st = Select -> is_dragging st r = true ->
  endpoint_pos st r = Some p ->
  let st' := event_loop (drag_moves r moves) st in
  wf st' /\ instanceof_node st' r = true /\ gkeep st st'
  /\ endpoint_pos st' r = Some (List.last (map fst moves) p) /\ selectedObjects st' = selectedObjects st
  /\ cells node_shadow st st'.
Proof.
  revert st p. induction moves as [|[p1 ev1] moves IH]; intros st p Hwf Hn Ht Hd Hp.
  { simpl. by split_and!. }
  destruct (dragmove_select_effect st r p1 ev1 Hwf Hn Ht Hd) as (st1 & E & Hok & Hp1 & _ & _ & Hs1).
  pose proof (konva_dragmove_gkeep r p1 ev1 st st1 tt E) as G1.
  pose proof (konva_dragmove_shadows r p1 ev1 st st1 tt E) as C1.
  destruct G1 as (L1 & T1 & S1 & D1) eqn:HG1.
  change (drag_moves r ((p1, ev1) :: moves)) with (DragMove r p1 ev1 :: drag_moves r moves).
  change (map fst ((p1, ev1) :: moves)) with (p1 :: map fst moves).
  rewrite last_cons_default, (event_loop_cons_ok (DragMove r p1 ev1) _ _ _ _ E).
  destruct (IH st1 p1) as (W & N & G & P & Hs & C); [apply Hok | eapply step_ok_node; eauto | congruence
                                                    | by rewrite (marks_dragging _ _ _ (D1 r)) | done|].
  split_and!; [done | done | by etransitivity | done | congruence | by etransitivity].
Qed.

(** The only target of a pointer event is its node. *)
Lemma target_node e r st : event_target e = Some r -> instanceof_node st r = true ->
  forall r', event_target e = Some r' -> instanceof_node st r' = true.
Proof. intros He Hn r' He'. rewrite He in He'. by injection He' as <-. Qed.

(** ** Whole gestures *)

(** C15 (dragstart with the Select tool): pressing on a node of a
    well-formed editor with the Select tool returns normally into a
    well-formed state in which the selection is the one
    [dragstart_selection] describes (without Shift a single selected
    object is replaced by the node, otherwise the node is appended unless
    already there), every selected node shows the drop shadow, no other
    node's shadow changed, [StartDragStatesOperation] is logged at the
    node's position, the node is dragging, no node moved and no object
    was created or removed. *)
Theorem dragstart_select_contract (st : StateManager) (r : positive) (ev : MouseEvent) :
  wf st -> instanceof_node st r = true -> currentTool st = Select ->
  exists st' p0, dispatch (DragStart r ev) st = (st', Ok tt) /\ wf st'
    /\ endpoint_pos st r = Some p0 /\ log st' = log st ++ [StartDragStatesOperation p0]
    /\ selectedObjects st' = dragstart_selection ev r (selectedObjects st)
    /\ (forall r', r' ∈ selectedObjects st' -> instanceof_node st' r' = true -> shadow_at st' r' = Some true)
    /\ (forall r', r' ∉ selectedObjects st' -> shadow_at st' r' = shadow_at st r')
    /\ is_dragging st' r = true /\ samepos st st'
    /\ forall r', instanceof_node st' r' = instanceof_node st r'.
Proof.
  intros Hwf Hn Ht.
  destruct (dispatch_ok st (DragStart r ev) Hwf (target_node (DragStart r ev) r st eq_refl Hn)) as (st1 & E1 & Hok1).
  pose proof (konva_dragstart_kinds r ev st st1 tt E1) as K1.
  destruct (konva_dragstart_select r ev st st1 E1 Ht) as (p0 & Hp0 & L1 & _ & _ & D1 & P1 & _ & _ & Sel1 & Sh1 & O1).
  exists st1, p0. split_and!; [by try apply Hok1.. | intros r'; exact (cells_node _ _ _ _ K1)].
Qed.

Lemma dragstart_select_contract_witness :
  exists st' p0, dispatch (DragStart 2 plain) demo_state = (st', Ok tt) /\ wf st'
    /\ endpoint_pos demo_state 2 = Some p0 /\ log st' = log demo_state ++ [StartDragStatesOperation p0]
    /\ selectedObjects st' = dragstart_selection plain 2 (selectedObjects demo_state)
    /\ (forall r', r' ∈ selectedObjects st' -> instanceof_node st' r' = true -> shadow_at st' r' = Some true)
    /\ (forall r', r' ∉ selectedObjects st' -> shadow_at st' r' = shadow_at demo_state r')
    /\ is_dragging st' 2 = true /\ samepos demo_state st'
    /\ forall r', instanceof_node st' r' = instanceof_node demo_state r'.
Proof.
  exact (dragstart_select_contract demo_state 2 plain demo_state_wf
           ltac:(vm_compute; reflexivity) ltac:(vm_compute; reflexivity)).
Defined.



End Drag.
