(* ===== verification/Snap.v ===== *)
(** * The release of a drag with snapping on

    With the Select tool and [snapToGridEnabled], [onDragEnd] runs its
    snapping branch (NodeWrapper.ts, [onDragEnd]): every selected node is
    snapped by [snapToGrid] (its group moved to the nearest grid point and
    its transitions redrawn), the anchor's snapped position is kept,
    [updateStartNodePosition] is called, and the move is committed with
    [completeDragStatesOperation] only when that position is farther than
    0.00001 from [lastSnappedPos] in one coordinate, which it then records.
    The branch calls no shadow method, so every drop shadow [onDragStart]
    enabled stays on after the release ([onDragEnd_snap_shadows]).
    This file proves that contract for the whole branch, after Konva's
    [stopDrag]; [nodes_same] is the frame that redrawing transitions
    keeps: no node cell changes.  Composed with the start and the moves
    of [Drag], it gives the whole snapped drag and the history it keeps:
    only the dragged node's [lastSnappedPos] is updated, and since the
    constructor sets it to (0, 0), the first drag that ends back on a
    node's own grid point is still committed. *)

From S2P Require Import Prelude Konva Node StateManager Handlers Safety Gestures Drag.

Module Snap.
Import Konva Node StateManager Handlers Safety Gestures Drag.

Lemma Qabs_0_minus (x : Q) : Qabs (0 - x) == Qabs x.
Proof. rewrite <- Qabs_opp. apply Qabs_wd. ring. Qed.

(** ** Redrawing transitions leaves the nodes alone *)

Definition nodes_same (st st' : StateManager) : Prop := forall r, node_at st' r = node_at st r.

Definition qnodes (st st' : StateManager) : Prop := quiet st st' /\ nodes_same st st'.

#[export] Instance qnodes_preorder : PreOrder qnodes.
Proof.
  split; [intros st; split; [reflexivity | done]|].
  intros a b c [Q1 N1] [Q2 N2]. split; [by etransitivity|]. intros r. by rewrite N2, N1.
Qed.

Lemma updatePoints_qnodes rt : js_preserves qnodes (updatePoints rt).
Proof.
  intros st st' a E. unfold updatePoints in E.
  destruct (heap st !! rt) as [[n|t]|] eqn:Hrt; [discriminate| |discriminate].
  destruct (endpoint_pos st (sourceNode t)), (endpoint_pos st (destNode t)); try discriminate.
  injection E as <- _. split; [unfold quiet; by split_and!|].
  intros r. destruct (decide (r = rt)) as [->|Hne]; [|by rewrite node_at_insert_ne].
  unfold node_at. simpl. by rewrite lookup_insert_eq, Hrt.
Qed.

Lemma update_transitions_of_qnodes r : js_preserves qnodes (update_transitions_of r).
Proof.
  unfold update_transitions_of. apply js_preserves_bind; [apply _ | apply js_preserves_get; apply _|].
  intros st0. apply js_preserves_forEach; [apply _|]. intros rt _.
  apply js_preserves_bind; [apply _ | apply js_preserves_get; apply _|]. intros st1.
  destruct (heap st1 !! rt) as [[n|t]|]; try (apply js_preserves_ret; apply _).
  destruct (involvesNode r t); [apply updatePoints_qnodes | apply js_preserves_ret; apply _].
Qed.

(** ** [snapToGrid] on one node *)

Lemma snapToGrid_node_view n v :
  view n = Some v ->
  snapToGrid_node n = (set_view (Some (on_group (set_position (snapped (g_pos (nodeGroup v)))) v)) n,
                       Ok (snapped (g_pos (nodeGroup v)))).
Proof.
  intros Hv. unfold snapToGrid_node, position, setPosition, js_bind, read_view, with_view, js_ret.
  rewrite Hv. simpl. by rewrite Hv.
Qed.

(** The node a snap leaves. *)
Definition snap_obj (n : NodeWrapper) : NodeWrapper := fst (snapToGrid_node n).

Lemma snap_obj_pos n : node_pos (snap_obj n) = snapped <$> node_pos n.
Proof.
  unfold snap_obj, node_pos. destruct (view n) as [v|] eqn:Hv.
  - by rewrite (snapToGrid_node_view n v Hv).
  - unfold snapToGrid_node, position, js_bind, read_view. rewrite Hv. simpl. by rewrite Hv.
Qed.

Lemma snap_obj_fields n :
  lastSnappedPos (snap_obj n) = lastSnappedPos n /\ node_drag (snap_obj n) = node_drag n.
Proof.
  unfold snap_obj, node_drag. destruct (view n) as [v|] eqn:Hv.
  - rewrite (snapToGrid_node_view n v Hv). by split.
  - unfold snapToGrid_node, position, js_bind, read_view. rewrite Hv. simpl. by rewrite Hv.
Qed.

(** [snapToGrid()]: the node moves to the nearest grid point, every other
    node cell is kept, and the snapped position is returned. *)
Lemma snapToGrid_spec st r :
  wf st -> instanceof_node st r = true ->
  exists st' p, snapToGrid r st = (st', Ok (snapped p)) /\ endpoint_pos st r = Some p
    /\ step_ok st st' /\ quiet st st'
    /\ forall r', node_at st' r' = if decide (r' = r) then snap_obj <$> node_at st r' else node_at st r'.
Proof.
  intros Hwf Hr. destruct (node_of st r Hr) as [n En].
  destruct (wf_ready _ (wf_sel _ Hwf) r _ En) as [v Hv].
  set (n' := set_view (Some (on_group (set_position (snapped (g_pos (nodeGroup v)))) v)) n).
  assert (E1 : call_node r snapToGrid_node st = (set_heap (<[r := ONode n']> (heap st)) st,
                                                 Ok (snapped (g_pos (nodeGroup v))))).
  { apply (call_node_ok _ _ n); [done|]. by apply snapToGrid_node_view. }
  assert (Hok1 : step_ok st (set_heap (<[r := ONode n']> (heap st)) st)).
  { apply (wf_set_cell st r (ONode n)); try done; simpl; [by eexists|].
    unfold looks_selected. by rewrite Hv. }
  destruct (fire_move_spec _ r (proj1 Hok1)) as (st2 & E2 & Hok2 & Hq2 & _).
  destruct (update_transitions_of_qnodes r _ _ _ E2) as [_ N2].
  exists st2, (g_pos (nodeGroup v)). unfold snapToGrid.
  rewrite (js_bind_ok _ _ _ _ _ E1). unfold fire_move in E2. rewrite (js_bind_ok _ _ _ _ _ E2).
  split_and!.
  - done.
  - rewrite endpoint_pos_node_at. unfold node_at. rewrite En. unfold node_pos. by rewrite Hv.
  - by eapply step_ok_trans.
  - etransitivity; [|exact Hq2]. unfold quiet. by split_and!.
  - intros r'. rewrite N2. destruct (decide (r' = r)) as [->|Hne].
    + unfold node_at. simpl. rewrite lookup_insert_eq, En. simpl. unfold snap_obj.
      by rewrite (snapToGrid_node_view n v Hv).
    + by rewrite node_at_insert_ne.
Qed.

(** ** The loop over the selected nodes *)

Definition snap_body (this : positive) : Vector2d -> positive -> js StateManager Vector2d :=
  fun acc r => let* s := snapToGrid r in js_ret (if bool_decide (r = this) then s else acc).

Lemma node_at_endpoint st st' r : node_at st' r = node_at st r -> endpoint_pos st' r = endpoint_pos st r.
Proof. rewrite !endpoint_pos_node_at. by intros ->. Qed.

Lemma elem_of_cons_ne (r a : positive) (l : list positive) : r <> a -> r ∈ a :: l <-> r ∈ l.
Proof. intros Hne. rewrite elem_of_cons. naive_solver. Qed.

(** The fold of [onDragEnd] over distinct nodes snaps each of them once
    and returns the snapped position of [this] when it is one of them. *)
Lemma snap_loop st this (l : list positive) acc :
  wf st -> NoDup l -> (forall x, x ∈ l -> instanceof_node st x = true) ->
  exists st' acc', js_foldl (snap_body this) acc l st = (st', Ok acc') /\ step_ok st st' /\ quiet st st'
    /\ (forall r, node_at st' r = if bool_decide (r ∈ l) then snap_obj <$> node_at st r else node_at st r)
    /\ if bool_decide (this ∈ l) then snapped <$> endpoint_pos st this = Some acc' else acc' = acc.
Proof.
  revert st acc. induction l as [|a l IH]; intros st acc Hwf Hnd Hl.
  { exists st, acc. split_and!; [done | by apply step_ok_refl | reflexivity | | ];
      [intros r|]; by rewrite bool_decide_eq_false_2 by set_solver. }
  apply NoDup_cons in Hnd as [Ha Hnd].
  destruct (snapToGrid_spec st a Hwf (Hl a ltac:(set_solver))) as (st1 & p & E1 & Hp & Hok1 & Hq1 & N1).
  destruct (IH st1 (if bool_decide (a = this) then snapped p else acc) (proj1 Hok1) Hnd)
    as (st2 & acc2 & E2 & Hok2 & Hq2 & N2 & A2).
  { intros x Hx. eapply step_ok_node; [exact Hok1 | apply Hl; set_solver]. }
  assert (Eb : snap_body this acc a st = (st1, Ok (if bool_decide (a = this) then snapped p else acc)))
    by (unfold snap_body; by rewrite (js_bind_ok _ _ _ _ _ E1)).
  exists st2, acc2. cbn [js_foldl]. rewrite (js_bind_ok _ _ _ _ _ Eb).
  split_and!; [exact E2 | by eapply step_ok_trans | by etransitivity | |].
  - intros r. rewrite N2, N1. destruct (decide (r = a)) as [->|Hne].
    + by rewrite bool_decide_eq_false_2, bool_decide_eq_true_2 by set_solver.
    + by rewrite (bool_decide_ext (r ∈ a :: l) (r ∈ l)) by (by apply elem_of_cons_ne).
  - destruct (decide (this = a)) as [->|Hne].
    + rewrite bool_decide_eq_false_2 in A2 by done. rewrite bool_decide_eq_true_2 in A2 by done.
      rewrite bool_decide_eq_true_2 by set_solver. by rewrite Hp, A2.
    + rewrite (bool_decide_eq_false_2 (a = this)) in A2 by congruence.
      rewrite (bool_decide_ext (this ∈ a :: l) (this ∈ l)) by (by apply elem_of_cons_ne).
      rewrite <- (node_at_endpoint st st1 this); [done|]. rewrite N1. by destruct (decide (this = a)).
Qed.

(** A method call that returned normally ran on the node in the cell. *)
Lemma call_node_inv {A} r (m : js NodeWrapper A) st st' a :
  call_node r m st = (st', Ok a) ->
  exists n n', node_at st r = Some n /\ m n = (n', Ok a) /\ st' = set_heap (<[r := ONode n']> (heap st)) st.
Proof.
  intros E. unfold call_node in E. destruct (heap st !! r) as [[n|t]|] eqn:Hr; [|discriminate..].
  destruct (m n) as [n' res] eqn:Em. injection E as <- ->. exists n, n'.
  unfold node_at. by rewrite Hr.
Qed.

Lemma node_at_set_eq st r n : node_at (set_heap (<[r := ONode n]> (heap st)) st) r = Some n.
Proof. unfold node_at. simpl. by rewrite lookup_insert_eq. Qed.

Lemma instanceof_node_at st r :
  instanceof_node st r = match node_at st r with Some _ => true | None => false end.
Proof. unfold instanceof_node, is_node_obj, node_at. by destruct (heap st !! r) as [[]|]. Qed.

(** After the loop over the selected nodes, every selected node sits at
    the snapped position and every other object where it was. *)
Lemma snapped_selection_pos st st2 (sel : list positive) :
  (forall r, node_at st2 r = if bool_decide (r ∈ filter (fun r => instanceof_node st r = true) sel)
                             then snap_obj <$> node_at st r else node_at st r) ->
  forall r, endpoint_pos st2 r = if bool_decide (r ∈ sel) then snapped <$> endpoint_pos st r
                                 else endpoint_pos st r.
Proof.
  intros N r. rewrite !endpoint_pos_node_at, N.
  pose proof (instanceof_node_at st r) as Hi.
  destruct (node_at st r) as [m|] eqn:Hm; repeat case_bool_decide; rewrite ?list_elem_of_filter in *;
    try tauto; try done.
  - apply snap_obj_pos.
Qed.

(** The loop leaves every node's [lastSnappedPos] alone: snapping moves
    the group only. *)
Lemma snap_loop_lsp st st2 (l : list positive) :
  (forall r, node_at st2 r = if bool_decide (r ∈ l) then snap_obj <$> node_at st r else node_at st r) ->
  forall r, lastSnappedPos <$> node_at st2 r = lastSnappedPos <$> node_at st r.
Proof.
  intros N r. rewrite N. case_bool_decide; [|done].
  destruct (node_at st r) as [m|]; simpl; [by rewrite (proj1 (snap_obj_fields m)) | done].
Qed.

(** A method that only reads the node. *)
Lemma call_node_reader {A} r (m : js NodeWrapper A) (f : NodeWrapper -> A) st st' a :
  (forall n, m n = (n, Ok (f n))) -> call_node r m st = (st', Ok a) ->
  st' = st /\ exists n, node_at st r = Some n /\ a = f n.
Proof.
  intros Hm E. unfold call_node in E. destruct (heap st !! r) as [[n|t]|] eqn:Hr; [|discriminate..].
  rewrite Hm in E. injection E as <- <-. split.
  - unfold set_heap. rewrite insert_id by done. by destruct st.
  - exists n. unfold node_at. by rewrite Hr.
Qed.

Lemma with_view_inv (f : NodeView -> NodeView) n n' a :
  with_view f n = (n', Ok a) -> exists v, view n = Some v /\ n' = set_view (Some (f v)) n.
Proof. unfold with_view. destruct (view n) as [v|]; [|discriminate]. intros E. injection E as <-. by exists v. Qed.

(** Writing back a node with the same view moves nothing and keeps
    Konva's dragging flag. *)
Lemma same_view_cell st r m m' r' :
  node_at st r = Some m -> view m' = view m ->
  endpoint_pos (set_heap (<[r := ONode m']> (heap st)) st) r' = endpoint_pos st r'
  /\ is_dragging (set_heap (<[r := ONode m']> (heap st)) st) r' = is_dragging st r'.
Proof.
  intros Hm Hv. rewrite !endpoint_pos_node_at, !is_dragging_node_drag.
  destruct (decide (r' = r)) as [->|Hne]; [|by rewrite !node_at_insert_ne].
  rewrite node_at_set_eq, Hm. unfold node_pos, node_drag. by rewrite Hv.
Qed.

Lemma snap_obj_at st2 r n :
  node_at st2 r = snap_obj <$> Some n ->
  is_dragging st2 r = node_drag n /\ exists n3, node_at st2 r = Some n3 /\ lastSnappedPos n3 = lastSnappedPos n.
Proof.
  intros H. rewrite is_dragging_node_drag, H. destruct (snap_obj_fields n) as [L D].
  split; [done|]. by exists (snap_obj n).
Qed.

(** The snapping branch of [onDragEnd] with the Select tool. *)
Lemma onDragEnd_snap st r st' :
  wf st -> instanceof_node st r = true -> currentTool st = Select -> snapToGridEnabled st = true ->
  r ∈ selectedObjects st -> onDragEnd r st = (st', Ok tt) ->
  exists n p, node_at st r = Some n /\ endpoint_pos st r = Some p
    /\ (forall r', endpoint_pos st' r' = if bool_decide (r' ∈ selectedObjects st)
                                         then snapped <$> endpoint_pos st r' else endpoint_pos st r')
    /\ is_dragging st' r = is_dragging st r /\ selectedObjects st' = selectedObjects st
    /\ (forall r', r' <> r -> lastSnappedPos <$> node_at st' r' = lastSnappedPos <$> node_at st r')
    /\ if js_far (1 # 100000) (vx (lastSnappedPos n)) (vx (snapped p))
          || js_far (1 # 100000) (vy (lastSnappedPos n)) (vy (snapped p))
       then log st' = log st ++ [UpdateStartNodePosition; CompleteDragStatesOperation (snapped p)]
            /\ lastSnappedPos <$> node_at st' r = Some (snapped p)
       else log st' = log st ++ [UpdateStartNodePosition]
            /\ lastSnappedPos <$> node_at st' r = Some (lastSnappedPos n).
Proof.
  intros Hwf Hn Ht Hs Hsel E. unfold onDragEnd in E. rewrite js_bind_get, Ht, Hs in E.
  rewrite (bool_decide_eq_false_2 (Select = States)), bool_decide_eq_true_2 in E by done.
  destruct (snap_loop st r (filter (fun r0 => instanceof_node st r0 = true) (selectedObjects st))
              (Vec 0 0) Hwf) as (st2 & acc & E2 & Hok2 & Q2 & N2 & A2).
  { apply NoDup_filter, (wf_nodup _ (wf_sel _ Hwf)). }
  { intros x Hx. apply list_elem_of_filter in Hx. tauto. }
  unfold snap_body in E2. apply js_bind_inv in E as (st2' & acc' & E2' & E).
  rewrite E2 in E2'. injection E2' as <- <-.
  rewrite bool_decide_eq_true_2 in A2 by (apply list_elem_of_filter; by split).
  pose proof (N2 r) as N2r. rewrite bool_decide_eq_true_2 in N2r by (apply list_elem_of_filter; by split).
  destruct (node_of st r Hn) as [n Hr]. assert (Hnr : node_at st r = Some n) by (unfold node_at; by rewrite Hr).
  rewrite Hnr in N2r. destruct (snap_obj_at _ _ _ N2r) as (D2 & n3 & Hn3 & L3).
  destruct (endpoint_pos st r) as [p|] eqn:Hp; [|discriminate]. injection A2 as <-.
  pose proof (snapped_selection_pos st st2 _ N2) as P2.
  apply js_bind_inv in E as (st3 & [] & E3 & E). unfold updateStartNodePosition, log_call, js_modify in E3.
  injection E3 as <-. apply js_bind_inv in E as (st4 & lsp & E4 & E).
  destruct (call_node_reader r get_lastSnappedPos lastSnappedPos _ _ _ (fun _ => eq_refl) E4)
    as [-> (n4 & Hn4 & ->)].
  change (node_at st2 r = Some n4) in Hn4. rewrite Hn3 in Hn4. injection Hn4 as <-.
  rewrite L3 in E. assert (Hd : is_dragging st2 r = is_dragging st r)
    by (by rewrite D2, is_dragging_node_drag, Hnr).
  destruct Q2 as (_ & _ & Sel2 & _ & _ & _ & _ & L2 & _).
  exists n, p. split; [done|]. split; [done|].
  destruct (_ || _) eqn:Hfar.
  - apply js_bind_inv in E as (st5 & [] & E5 & E).
    destruct (call_node_inv _ _ _ _ _ E5) as (n5 & n6 & Hn5 & Em & ->).
    change (node_at st2 r = Some n5) in Hn5. rewrite Hn3 in Hn5. injection Hn5 as <-. injection Em as <-.
    apply js_bind_inv in E as (st6 & q & E6 & E). destruct (call_node_position _ _ _ _ E6) as [-> Hq].
    unfold completeDragStatesOperation, log_call, js_modify in E. injection E as <-.
    pose proof (fun r' => same_view_cell (set_log (log st2 ++ [UpdateStartNodePosition]) st2) r n3
                            (set_lastSnappedPos (snapped p) n3) r' Hn3 eq_refl) as SV.
    rewrite (proj1 (SV r)) in Hq. change (endpoint_pos st2 r = Some q) in Hq.
    rewrite P2, bool_decide_eq_true_2, Hp in Hq by done. injection Hq as <-.
    split_and!.
    + intros r'. etransitivity; [exact (proj1 (SV r'))|]. apply P2.
    + etransitivity; [exact (proj2 (SV r))|]. exact Hd.
    + exact Sel2.
    + intros r' Hne. unfold node_at at 1. simpl. rewrite lookup_insert_ne by done.
      exact (snap_loop_lsp _ _ _ N2 r').
    + simpl. by rewrite L2, <- app_assoc.
    + change (lastSnappedPos <$> node_at (set_heap (<[r := ONode (set_lastSnappedPos (snapped p) n3)]>
                (heap (set_log (log st2 ++ [UpdateStartNodePosition]) st2))) (set_log (log st2 ++ [UpdateStartNodePosition]) st2)) r
              = Some (snapped p)).
      by rewrite node_at_set_eq.
  - injection E as <-. split_and!.
    + exact P2.
    + exact Hd.
    + exact Sel2.
    + intros r' _. exact (snap_loop_lsp _ _ _ N2 r').
    + simpl. by rewrite L2.
    + change (lastSnappedPos <$> node_at st2 r = Some (lastSnappedPos n)). rewrite Hn3. simpl. by rewrite L3.
Qed.

(** The snapping branch changes no shadow flag: it never calls
    [disableShadowEffects]. *)
Lemma onDragEnd_snap_shadows st r st' :
  currentTool st = Select -> snapToGridEnabled st = true -> onDragEnd r st = (st', Ok tt) ->
  cells node_shadow st st'.
Proof.
  intros Ht Hs E. unfold onDragEnd in E. rewrite js_bind_get, Ht, Hs in E.
  rewrite (bool_decide_eq_false_2 (Select = States)), bool_decide_eq_true_2 in E by done.
  cbn [andb] in E.
  cells_in_by node_shadow E ltac:(unfold snapToGrid, snapToGrid_node, position, setPosition, get_lastSnappedPos,
    updateStartNodePosition, completeDragStatesOperation, log_call; cells_tac node_shadow).
  exact C.
Qed.

(** ** The release *)

(** The release with snapping on, shared by the whole-gesture theorem. *)
Lemma snap_release_effect (st : StateManager) (r : positive) :
  wf st -> instanceof_node st r = true -> currentTool st = Select -> snapToGridEnabled st = true ->
  is_dragging st r = true -> r ∈ selectedObjects st ->
  exists st' n p, konva_dragend r st = (st', Ok tt) /\ wf st'
    /\ node_at st r = Some n /\ endpoint_pos st r = Some p
    /\ (forall r', endpoint_pos st' r' = if bool_decide (r' ∈ selectedObjects st)
                                         then snapped <$> endpoint_pos st r' else endpoint_pos st r')
    /\ is_dragging st' r = false /\ selectedObjects st' = selectedObjects st /\ cells node_shadow st st'
    /\ (forall r', r' <> r -> lastSnappedPos <$> node_at st' r' = lastSnappedPos <$> node_at st r')
    /\ if js_far (1 # 100000) (vx (lastSnappedPos n)) (vx (snapped p))
          || js_far (1 # 100000) (vy (lastSnappedPos n)) (vy (snapped p))
       then log st' = log st ++ [UpdateStartNodePosition; CompleteDragStatesOperation (snapped p)]
            /\ lastSnappedPos <$> node_at st' r = Some (snapped p)
       else log st' = log st ++ [UpdateStartNodePosition]
            /\ lastSnappedPos <$> node_at st' r = Some (lastSnappedPos n).
Proof.
  intros Hwf Hn Ht Hs Hd Hsel.
  destruct (konva_dragend_safe st r Hwf Hn) as (st' & [] & E0 & Hok). exists st'.
  pose proof E0 as E. unfold konva_dragend in E. rewrite js_bind_get, Hd in E.
  apply js_bind_inv in E as (st1 & [] & E1 & E).
  destruct (call_node_safe st r stopDrag Hwf Hn node_safe_stopDrag) as (st1' & a & E1' & Hok1).
  rewrite E1 in E1'. injection E1' as <- _. unfold stopDrag in E1. cells_in node_shadow E1.
  destruct (set_dragging_effect _ _ _ _ _ E1) as (D1 & _ & Q1 & P1 & M1).
  destruct (call_node_inv _ _ _ _ _ E1) as (n0 & n1 & Hn0 & Ev & Hst1).
  destruct (with_view_inv _ _ _ _ Ev) as (v & _ & ->).
  destruct Q1 as (T1 & _ & Sel1 & _ & _ & N1 & _ & L1 & _).
  destruct (onDragEnd_snap st1 r st' (proj1 Hok1) (step_ok_node _ _ _ Hok1 Hn))
    as (m & p & Hm & Hp & P & D & Sel & Lsp & F); [congruence | congruence | by rewrite Sel1 | exact E|].
  pose proof (onDragEnd_snap_shadows st1 r st' ltac:(congruence) ltac:(congruence) E) as C'.
  rewrite Hst1, node_at_set_eq in Hm. injection Hm as <-.
  exists n0, p. split_and!; [done | apply Hok | done | by rewrite <- P1 | | by rewrite D | congruence
                           | by etransitivity | intros r' Hne; by rewrite Lsp, M1 | ].
  - intros r'. by rewrite P, Sel1, !P1.
  - rewrite L1 in F. exact F.
Qed.

(** C12 (snapping release): releasing a dragged, selected node with the
    Select tool and snapping on moves every selected node to the nearest
    grid point of where it was and leaves every other object in place;
    the drag ends; [updateStartNodePosition] is called; and the move is
    committed, at the node's snapped position, exactly when that position
    is farther than 0.00001 from the node's [lastSnappedPos] in one
    coordinate, in which case it becomes the new [lastSnappedPos].  The
    selection and every node's shadow flag are kept: unlike the release
    without snapping, this branch never calls [disableShadowEffects]. *)
Theorem snap_release (st : StateManager) (r : positive) :
  wf st -> instanceof_node st r = true -> currentTool st = Select -> snapToGridEnabled st = true ->
  is_dragging st r = true -> r ∈ selectedObjects st ->
  exists st' n p, konva_dragend r st = (st', Ok tt) /\ wf st'
    /\ node_at st r = Some n /\ endpoint_pos st r = Some p
    /\ (forall r', endpoint_pos st' r' = if bool_decide (r' ∈ selectedObjects st)
                                         then snapped <$> endpoint_pos st r' else endpoint_pos st r')
    /\ is_dragging st' r = false /\ selectedObjects st' = selectedObjects st /\ cells node_shadow st st'
    /\ (forall r', r' <> r -> lastSnappedPos <$> node_at st' r' = lastSnappedPos <$> node_at st r')
    /\ if js_far (1 # 100000) (vx (lastSnappedPos n)) (vx (snapped p))
          || js_far (1 # 100000) (vy (lastSnappedPos n)) (vy (snapped p))
       then log st' = log st ++ [UpdateStartNodePosition; CompleteDragStatesOperation (snapped p)]
            /\ lastSnappedPos <$> node_at st' r = Some (snapped p)
       else log st' = log st ++ [UpdateStartNodePosition]
            /\ lastSnappedPos <$> node_at st' r = Some (lastSnappedPos n).
Proof. exact (snap_release_effect st r). Qed.

(** The demonstration state of [Safety] with snapping switched on:
    [q0] is selected (with [q1]) and being dragged. *)
Definition snap_demo : StateManager := event_loop [SetSnap true] demo_state.

Lemma snap_demo_wf : wf snap_demo.
Proof. apply event_loop_wf; [apply demo_state_wf | vm_compute; reflexivity]. Qed.

Lemma snap_release_witness :
  exists st' n p, konva_dragend 1 snap_demo = (st', Ok tt) /\ wf st'
    /\ node_at snap_demo 1 = Some n /\ endpoint_pos snap_demo 1 = Some p
    /\ (forall r', endpoint_pos st' r' = if bool_decide (r' ∈ selectedObjects snap_demo)
                                         then snapped <$> endpoint_pos snap_demo r' else endpoint_pos snap_demo r')
    /\ is_dragging st' 1 = false /\ selectedObjects st' = selectedObjects snap_demo
    /\ cells node_shadow snap_demo st'
    /\ (forall r', r' <> 1%positive -> lastSnappedPos <$> node_at st' r' = lastSnappedPos <$> node_at snap_demo r')
    /\ if js_far (1 # 100000) (vx (lastSnappedPos n)) (vx (snapped p))
          || js_far (1 # 100000) (vy (lastSnappedPos n)) (vy (snapped p))
       then log st' = log snap_demo ++ [UpdateStartNodePosition; CompleteDragStatesOperation (snapped p)]
            /\ lastSnappedPos <$> node_at st' 1 = Some (snapped p)
       else log st' = log snap_demo ++ [UpdateStartNodePosition]
            /\ lastSnappedPos <$> node_at st' 1 = Some (lastSnappedPos n).
Proof.
  exact (snap_release snap_demo 1 snap_demo_wf ltac:(vm_compute; reflexivity) ltac:(vm_compute; reflexivity)
           ltac:(vm_compute; reflexivity) ltac:(vm_compute; reflexivity) ltac:(vm_compute; left)).
Defined.

(** The whole drag with snapping on, shared by the theorems below: what
    the release does to the dragged node, to the followers and to the
    log. *)
Lemma select_snap_drag_effect (st : StateManager) (r : positive) (ev0 : MouseEvent)
    (moves : list (Vector2d * MouseEvent)) :
  wf st -> instanceof_node st r = true -> currentTool st = Select -> snapToGridEnabled st = true ->
  exists p0 n, endpoint_pos st r = Some p0 /\ node_at st r = Some n /\
    let pe := snapped (List.last (map fst moves) p0) in
    let st' := event_loop (DragStart r ev0 :: drag_moves r moves ++ [DragEnd r]) st in
    endpoint_pos st' r = Some pe /\ is_dragging st' r = false /\ wf st'
    /\ log st' = log st ++ [StartDragStatesOperation p0; UpdateStartNodePosition]
                 ++ (if js_far (1 # 100000) (vx (lastSnappedPos n)) (vx pe)
                        || js_far (1 # 100000) (vy (lastSnappedPos n)) (vy pe)
                     then [CompleteDragStatesOperation pe] else [])
    /\ selectedObjects st' = dragstart_selection ev0 r (selectedObjects st)
    /\ (forall r', r' ∈ selectedObjects st' -> instanceof_node st' r' = true -> shadow_at st' r' = Some true)
    /\ (forall r', r' ∈ selectedObjects st' -> instanceof_node st' r' = true ->
                   exists q, endpoint_pos st' r' = Some (snapped q))
    /\ forall r', r' <> r -> lastSnappedPos <$> node_at st' r' = lastSnappedPos <$> node_at st r'.
Proof.
  intros Hwf Hn Ht Hs.
  destruct (dispatch_ok st (DragStart r ev0) Hwf (target_node (DragStart r ev0) r st eq_refl Hn))
    as (st1 & E1 & Hok1).
  destruct (konva_dragstart_select r ev0 st st1 E1 Ht) as (p0 & Hp0 & L1 & T1 & S1 & D1 & P1 & In1 & M1 & Sel1 & Sh1 & _).
  destruct (node_of st r Hn) as [n0 Hr]. assert (Hn0 : node_at st r = Some n0) by (unfold node_at; by rewrite Hr).
  exists p0, n0. split; [done|]. split; [done|]. cbv zeta.
  rewrite (event_loop_cons_ok _ _ _ _ _ E1), event_loop_app.
  assert (Hn1 : instanceof_node st1 r = true) by (eapply step_ok_node; eauto).
  destruct (select_moves st1 r moves p0 (proj1 Hok1) Hn1 T1 D1) as (W2 & N2 & G2 & P2 & Sel2 & C2);
    [by rewrite P1|].
  set (st2 := event_loop (drag_moves r moves) st1) in *.
  destruct G2 as (L2 & T2 & S2 & D2).
  destruct (snap_release_effect st2 r W2 N2)
    as (st3 & n2 & p2 & E3 & W3 & Hn2 & Hp2 & Pos3 & D3 & Sel3 & C3 & Lsp3 & F3);
    [congruence | congruence | by rewrite (marks_dragging _ _ _ (D2 r)) | by rewrite Sel2|].
  rewrite (event_loop_cons_ok (DragEnd r) [] _ _ _ E3). simpl.
  rewrite P2 in Hp2. injection Hp2 as <-.
  assert (Hl : lastSnappedPos n2 = lastSnappedPos n0).
  { pose proof (marks_lsp _ _ _ (D2 r)) as H. rewrite (M1 r), Hn2, Hn0 in H. by injection H. }
  rewrite Hl in F3. split_and!; [| done | done | | congruence | | |].
  - rewrite Pos3, bool_decide_eq_true_2 by (by rewrite Sel2). by rewrite P2.
  - destruct (_ || _); destruct F3 as [L3 _]; rewrite L3, L2, L1; by rewrite <- !app_assoc.
  - intros r' Hr' Hi. rewrite (cells_shadow _ _ _ C3), (cells_shadow _ _ _ C2). apply Sh1; [congruence|].
    by rewrite <- (cells_node _ _ _ _ C2), <- (cells_node _ _ _ _ C3).
  - intros r' Hr' Hi. rewrite (cells_node _ _ _ _ C3) in Hi.
    destruct (endpoint_pos_node st2 r' W2 Hi) as [q Hq]. exists q.
    rewrite Pos3, bool_decide_eq_true_2 by congruence. by rewrite Hq.
  - intros r' Hne. rewrite (Lsp3 r' Hne), (marks_lsp _ _ _ (D2 r')). apply M1.
Qed.

(** C13 (a whole drag with snapping on): a drag of a node with the
    Select tool and snapping on, through any number of pointer moves,
    leaves the node at the grid point nearest to the last pointer
    position, no longer dragging, and logs [StartDragStatesOperation] at
    its start position and [UpdateStartNodePosition], then
    [CompleteDragStatesOperation] at the snapped position exactly when
    that position is farther than 0.00001 in one coordinate from the
    [lastSnappedPos] the node had before the drag.  The selection is the
    one [dragstart_selection] describes and every selected node still
    shows the drop shadow [onDragStart] gave it. *)
Theorem select_snap_drag (st : StateManager) (r : positive) (ev0 : MouseEvent)
    (moves : list (Vector2d * MouseEvent)) :
  wf st -> instanceof_node st r = true -> currentTool st = Select -> snapToGridEnabled st = true ->
  exists p0 n, endpoint_pos st r = Some p0 /\ node_at st r = Some n /\
    let pe := snapped (List.last (map fst moves) p0) in
    let st' := event_loop (DragStart r ev0 :: drag_moves r moves ++ [DragEnd r]) st in
    endpoint_pos st' r = Some pe /\ is_dragging st' r = false /\ wf st'
    /\ log st' = log st ++ [StartDragStatesOperation p0; UpdateStartNodePosition]
                 ++ (if js_far (1 # 100000) (vx (lastSnappedPos n)) (vx pe)
                        || js_far (1 # 100000) (vy (lastSnappedPos n)) (vy pe)
                     then [CompleteDragStatesOperation pe] else [])
    /\ selectedObjects st' = dragstart_selection ev0 r (selectedObjects st)
    /\ forall r', r' ∈ selectedObjects st' -> instanceof_node st' r' = true -> shadow_at st' r' = Some true.
Proof.
  intros Hwf Hn Ht Hs.
  destruct (select_snap_drag_effect st r ev0 moves Hwf Hn Ht Hs) as (p0 & n & Hp & Hn0 & H).
  exists p0, n. cbv zeta in *. destruct H as (H1 & H2 & H3 & H4 & H5 & H6 & _). by split_and!.
Qed.


(** C18 (followers keep a stale [lastSnappedPos]): in a drag with
    the Select tool and snapping on, every selected node ends on a grid
    point, but only the dragged node's [lastSnappedPos] is updated; the
    [lastSnappedPos] of every other node, followers included, is the one
    it had before the drag.  A later drag of a follower is compared with
    that stale value. *)
Theorem snap_followers_stale (st : StateManager) (r : positive) (ev0 : MouseEvent)
    (moves : list (Vector2d * MouseEvent)) :
  wf st -> instanceof_node st r = true -> currentTool st = Select -> snapToGridEnabled st = true ->
  let st' := event_loop (DragStart r ev0 :: drag_moves r moves ++ [DragEnd r]) st in
  (forall r', r' ∈ selectedObjects st' -> instanceof_node st' r' = true ->
              exists q, endpoint_pos st' r' = Some (snapped q))
  /\ forall r', r' <> r -> lastSnappedPos <$> node_at st' r' = lastSnappedPos <$> node_at st r'.
Proof.
  intros Hwf Hn Ht Hs.
  destruct (select_snap_drag_effect st r ev0 moves Hwf Hn Ht Hs) as (p0 & n & _ & _ & H).
  cbv zeta in *. destruct H as (_ & _ & _ & _ & _ & _ & G & K). by split.
Qed.

Lemma select_snap_drag_witness :
  exists p0 n, endpoint_pos snap_demo 1 = Some p0 /\ node_at snap_demo 1 = Some n /\
    let pe := snapped (List.last (map fst [(Vec 120 100, moved 20 0)]) p0) in
    let st' := event_loop (DragStart 1 plain :: drag_moves 1 [(Vec 120 100, moved 20 0)] ++ [DragEnd 1])
                 snap_demo in
    endpoint_pos st' 1 = Some pe /\ is_dragging st' 1 = false /\ wf st'
    /\ log st' = log snap_demo ++ [StartDragStatesOperation p0; UpdateStartNodePosition]
                 ++ (if js_far (1 # 100000) (vx (lastSnappedPos n)) (vx pe)
                        || js_far (1 # 100000) (vy (lastSnappedPos n)) (vy pe)
                     then [CompleteDragStatesOperation pe] else [])
    /\ selectedObjects st' = dragstart_selection plain 1 (selectedObjects snap_demo)
    /\ forall r', r' ∈ selectedObjects st' -> instanceof_node st' r' = true -> shadow_at st' r' = Some true.
Proof.
  exact (select_snap_drag snap_demo 1 plain [(Vec 120 100, moved 20 0)] snap_demo_wf
           ltac:(vm_compute; reflexivity) ltac:(vm_compute; reflexivity) ltac:(vm_compute; reflexivity)).
Defined.


Lemma snap_followers_stale_witness :
  let st' := event_loop (DragStart 1 plain :: drag_moves 1 [(Vec 120 100, moved 20 0)] ++ [DragEnd 1])
               snap_demo in
  (forall r', r' ∈ selectedObjects st' -> instanceof_node st' r' = true ->
              exists q, endpoint_pos st' r' = Some (snapped q))
  /\ forall r', r' <> 1%positive -> lastSnappedPos <$> node_at st' r' = lastSnappedPos <$> node_at snap_demo r'.
Proof.
  exact (snap_followers_stale snap_demo 1 plain [(Vec 120 100, moved 20 0)] snap_demo_wf
           ltac:(vm_compute; reflexivity) ltac:(vm_compute; reflexivity) ltac:(vm_compute; reflexivity)).
Defined.

End Snap.
