(* ===== verification/TransitionDrag.v ===== *)
(** * A drag with the Transitions tool moves no node

    With the Transitions tool a drag draws a transition instead of moving
    the node (NodeWrapper.ts): [onDragStart] records the node's position
    in [lastPos] and starts the tentative transition, every [onDragMove]
    puts the group back at [lastPos] after Konva moved it to the pointer,
    and [onDragEnd] ends the tentative transition, which may allocate a
    [TransitionWrapper] but no node.  The lemmas below follow the node's
    cell through each event; the theorem composes them over a whole
    gesture. *)

From S2P Require Import Prelude Konva Node StateManager Handlers Safety Gestures Drag Snap.

Module TransitionDrag.
Import Konva Node StateManager Handlers Safety Gestures Drag Snap.

(** ** Node cells *)

Lemma node_at_heap st st' : heap st' = heap st -> forall r, node_at st' r = node_at st r.
Proof. intros H r. unfold node_at. by rewrite H. Qed.

(** A method call that returned normally wrote its node back and touched
    no other cell. *)
Lemma call_node_at {A} r (m : js NodeWrapper A) st st' a :
  call_node r m st = (st', Ok a) ->
  exists n n', node_at st r = Some n /\ m n = (n', Ok a) /\ node_at st' r = Some n'
    /\ (forall r', r' <> r -> node_at st' r' = node_at st r') /\ quiet st st'.
Proof.
  intros E. pose proof (call_node_quiet _ _ _ _ _ E) as Hq.
  destruct (call_node_inv _ _ _ _ _ E) as (n & n' & Hn & Em & ->).
  exists n, n'. split_and!; [done | done | apply node_at_set_eq | | done].
  intros r' Hne. by apply node_at_insert_ne.
Qed.

(** Positions and the dragging flag are read from the node cells. *)
Lemma samepos_one st st' r n n' :
  node_at st r = Some n -> node_at st' r = Some n' -> node_pos n' = node_pos n ->
  (forall r', r' <> r -> node_at st' r' = node_at st r') -> samepos st st'.
Proof.
  intros Hn Hn' Hp Ho r'. rewrite !endpoint_pos_node_at.
  destruct (decide (r' = r)) as [->|Hne]; [by rewrite Hn, Hn'|by rewrite Ho].
Qed.

Lemma setPosition_node p n n' a :
  setPosition p n = (n', Ok a) ->
  node_pos n' = Some p /\ node_drag n' = node_drag n /\ lastPos n' = lastPos n.
Proof.
  intros E. destruct (with_view_inv _ _ _ _ E) as (v & Hv & ->).
  unfold node_pos, node_drag. simpl. by rewrite Hv.
Qed.

Lemma updateTentativeTransitionHead_heap x y st st' a :
  updateTentativeTransitionHead x y st = (st', Ok a) ->
  heap st' = heap st /\ currentTool st' = currentTool st.
Proof. unfold updateTentativeTransitionHead, js_modify. intros E. injection E as <- _. by case_match. Qed.

Definition last_pos (st : StateManager) (r : positive) : option (option Vector2d) := lastPos <$> node_at st r.

(** ** The events of a Transitions drag *)

(** [dragstart]: no node moves, the group is dragging and [lastPos]
    holds the node's position. *)
Lemma konva_dragstart_transitions r ev st st' :
  konva_dragstart r ev st = (st', Ok tt) -> currentTool st = Transitions ->
  exists p, endpoint_pos st r = Some p /\ last_pos st' r = Some (Some p)
    /\ samepos st st' /\ is_dragging st' r = true /\ currentTool st' = Transitions
    /\ log st' = log st /\ snapToGridEnabled st' = snapToGridEnabled st.
Proof.
  intros E Ht. unfold konva_dragstart in E. apply js_bind_inv in E as (st1 & [] & E1 & E).
  destruct (set_dragging_effect _ _ _ _ _ E1) as (D1 & _ & Q1 & P1 & _).
  unfold onDragStart in E. apply js_bind_inv in E as (st2 & p & E2 & E).
  destruct (call_node_position _ _ _ _ E2) as [-> Hp].
  apply js_bind_inv in E as (st3 & [] & E3 & E).
  destruct (call_node_at _ _ _ _ _ E3) as (n1 & n3 & Hn1 & Em & Hn3 & Ho3 & Q3).
  injection Em as <-. destruct (quiet_gkeep_fields _ _ Q1) as (L1 & T1 & S1).
  destruct (quiet_gkeep_fields _ _ Q3) as (L3 & T3 & S3). rewrite js_bind_get, T3, T1, Ht in E.
  unfold startTentativeTransition in E. apply js_bind_inv in E as (st4 & p4 & E4 & E).
  destruct (call_node_position _ _ _ _ E4) as [-> _].
  unfold js_modify in E. injection E as <-.
  assert (P3 : samepos st1 st3) by (eapply samepos_one; eauto).
  exists p. rewrite <- P1. split_and!; [done | | | | | simpl; by rewrite L3, L1 | simpl; by rewrite S3, S1].
  - change (lastPos <$> node_at st3 r = Some (Some p)). by rewrite Hn3.
  - intros r'. change (endpoint_pos st3 r' = endpoint_pos st r'). by rewrite P3, P1.
  - change (is_dragging st3 r = true). rewrite !is_dragging_node_drag, Hn3.
    rewrite is_dragging_node_drag, Hn1 in D1. done.
  - simpl. by rewrite T3, T1.
Qed.

(** [dragmove]: Konva moves the group to the pointer and [onDragMove]
    puts it back at [lastPos], so no node has moved. *)
Lemma konva_dragmove_transitions r p ev st st' q :
  konva_dragmove r p ev st = (st', Ok tt) -> currentTool st = Transitions -> is_dragging st r = true ->
  last_pos st r = Some (Some q) -> endpoint_pos st r = Some q ->
  samepos st st' /\ last_pos st' r = Some (Some q) /\ is_dragging st' r = true
  /\ currentTool st' = Transitions.
Proof.
  intros E Ht Hd Hl Hq. unfold konva_dragmove in E. rewrite js_bind_get, Hd in E.
  apply js_bind_inv in E as (st1 & [] & E1 & E).
  destruct (call_node_at _ _ _ _ _ E1) as (n0 & n1 & Hn0 & Em1 & Hn1 & Ho1 & Q1).
  destruct (setPosition_node _ _ _ _ Em1) as (_ & D1 & L1).
  destruct (quiet_gkeep_fields _ _ Q1) as (_ & T1 & _).
  unfold onDragMove in E. rewrite js_bind_get, T1, Ht in E.
  apply js_bind_inv in E as (st2 & lp & E2 & E).
  destruct (call_node_reader r get_lastPos lastPos _ _ _ (fun _ => eq_refl) E2) as [-> (n1' & Hn1' & ->)].
  rewrite Hn1 in Hn1'. injection Hn1' as <-.
  unfold last_pos in Hl. rewrite Hn0 in Hl. injection Hl as Hl. rewrite L1, Hl in E. cbn iota beta in E.
  apply js_bind_inv in E as (st3 & [] & E3 & E).
  destruct (call_node_at _ _ _ _ _ E3) as (n1' & n3 & Hn1' & Em3 & Hn3 & Ho3 & Q3).
  rewrite Hn1 in Hn1'. injection Hn1' as <-.
  destruct (setPosition_node _ _ _ _ Em3) as (P3 & D3 & L3).
  destruct (quiet_gkeep_fields _ _ Q3) as (_ & T3 & _).
  destruct (updateTentativeTransitionHead_heap _ _ _ _ _ E) as [Hh T4].
  pose proof (node_at_heap _ _ Hh) as N4.
  split_and!.
  - intros r'. rewrite !endpoint_pos_node_at, N4. destruct (decide (r' = r)) as [->|Hne].
    + rewrite Hn3, Hn0, P3. rewrite endpoint_pos_node_at, Hn0 in Hq. by rewrite Hq.
    + by rewrite Ho3, Ho1.
  - unfold last_pos. rewrite N4, Hn3. simpl. by rewrite L3, L1, Hl.
  - rewrite is_dragging_node_drag, N4, Hn3, D3, D1. by rewrite is_dragging_node_drag, Hn0 in Hd.
  - by rewrite T4, T3, T1.
Qed.

(** [addTransition] allocates at the counter, where no cell is, so every
    node cell is kept. *)
Lemma addTransition_nodes src dst st st' a :
  wf st -> addTransition src dst st = (st', Ok a) -> nodes_same st st'.
Proof.
  intros Hwf E. unfold addTransition in E. rewrite js_bind_get in E.
  destruct (existsb _ _); [by injection E as <- _|].
  apply js_bind_inv in E as (st1 & [] & E1 & E). unfold js_modify in E1. injection E1 as <-.
  destruct (updatePoints_qnodes _ _ _ _ E) as [_ N]. intros r. rewrite N.
  unfold node_at. simpl. destruct (decide (r = next_ref st)) as [->|Hne].
  - rewrite lookup_insert_eq. destruct (heap st !! next_ref st) eqn:Hf; [|done].
    pose proof (wf_fresh _ Hwf (next_ref st) ltac:(by eexists)). lia.
  - by rewrite lookup_insert_ne.
Qed.

Lemma endTentativeTransition_nodes st st' a :
  wf st -> endTentativeTransition st = (st', Ok a) -> nodes_same st st'.
Proof.
  intros Hwf E. unfold endTentativeTransition in E. rewrite js_bind_get in E.
  apply js_bind_inv in E as (st1 & [] & E1 & E). unfold js_modify in E. injection E as <-.
  intros r. change (node_at st1 r = node_at st r). revert r.
  destruct (tentative st), (tentativeTransitionTarget st);
    try (injection E1 as <-; done). by apply (addTransition_nodes _ _ _ _ _ Hwf E1).
Qed.

(** [dragend]: the group stops and the tentative transition ends; no
    node moves. *)
Lemma konva_dragend_transitions r st st' :
  wf st -> instanceof_node st r = true ->
  konva_dragend r st = (st', Ok tt) -> currentTool st = Transitions -> is_dragging st r = true ->
  samepos st st' /\ is_dragging st' r = false /\ (forall r', shadow_at st' r' = shadow_at st r')
  /\ forall r', last_pos st' r' = last_pos st r'.
Proof.
  intros Hwf Hn E Ht Hd. unfold konva_dragend in E. rewrite js_bind_get, Hd in E.
  apply js_bind_inv in E as (st1 & [] & E1 & E).
  destruct (call_node_safe st r stopDrag Hwf Hn node_safe_stopDrag) as (st1' & a & E1' & Hok1).
  rewrite E1 in E1'. injection E1' as <- _. unfold stopDrag in E1. cells_in lastPos E1.
  destruct (set_dragging_effect _ _ _ _ _ E1) as (D1 & _ & Q1 & P1 & _).
  pose proof (call_node_group_shadow _ _ _ _ _ E1) as G1.
  destruct (quiet_gkeep_fields _ _ Q1) as (_ & T1 & _).
  unfold onDragEnd in E. rewrite js_bind_get, T1, Ht in E.
  rewrite (bool_decide_eq_false_2 (Transitions = States)), (bool_decide_eq_false_2 (Transitions = Select)),
    bool_decide_eq_true_2 in E by done.
  pose proof (endTentativeTransition_nodes _ _ _ (proj1 Hok1) E) as N.
  split_and!; [| | intros r'; unfold shadow_at; rewrite N; apply G1 | intros r'; unfold last_pos; rewrite N; apply C].
  - intros r'. rewrite <- P1. apply node_at_endpoint, N.
  - by rewrite is_dragging_node_drag, N, <- is_dragging_node_drag.
Qed.

(** ** Whole gestures *)

Lemma transitions_moves st r moves q :
  wf st -> instanceof_node st r = true -> currentTool st = Transitions -> is_dragging st r = true ->
  last_pos st r = Some (Some q) -> endpoint_pos st r = Some q ->
  let st' := event_loop (drag_moves r moves) st in
  wf st' /\ instanceof_node st' r = true /\ samepos st st' /\ is_dragging st' r = true
  /\ currentTool st' = Transitions /\ last_pos st' r = Some (Some q).
Proof.
  revert st. induction moves as [|[p1 ev1] moves IH]; intros st Hwf Hn Ht Hd Hl Hq.
  { simpl. by split_and!. }
  destruct (dispatch_ok st (DragMove r p1 ev1) Hwf (target_node (DragMove r p1 ev1) r st eq_refl Hn))
    as (st1 & E & Hok).
  destruct (konva_dragmove_transitions r p1 ev1 st st1 q E Ht Hd Hl Hq) as (P1 & L1 & D1 & T1).
  change (drag_moves r ((p1, ev1) :: moves)) with (DragMove r p1 ev1 :: drag_moves r moves).
  rewrite (event_loop_cons_ok _ _ _ _ _ E).
  destruct (IH st1) as (W & N & P & D & T & L); [apply Hok | eapply step_ok_node; eauto | done.. | by rewrite P1|].
  split_and!; [done | done | by etransitivity | done | done | done].
Qed.

(** C14 (a Transitions drag moves no node): pressing on a node with the
    Transitions tool, moving the pointer any number of times and
    releasing it leaves every node where it was (the group is put back
    at [lastPos] after each of Konva's moves, and ending the tentative
    transition allocates no node); [lastPos] still holds the position
    the node had when the drag started; the drag ends and the state
    stays well formed. *)
Theorem transitions_drag_still (st : StateManager) (r : positive) (ev0 : MouseEvent)
    (moves : list (Vector2d * MouseEvent)) :
  wf st -> instanceof_node st r = true -> currentTool st = Transitions ->
  exists p0, endpoint_pos st r = Some p0 /\
  let st' := event_loop (DragStart r ev0 :: drag_moves r moves ++ [DragEnd r]) st in
  (forall r', endpoint_pos st' r' = endpoint_pos st r') /\ last_pos st' r = Some (Some p0)
  /\ is_dragging st' r = false /\ wf st'.
Proof.
  intros Hwf Hn Ht.
  destruct (dispatch_ok st (DragStart r ev0) Hwf (target_node (DragStart r ev0) r st eq_refl Hn))
    as (st1 & E1 & Hok1).
  destruct (konva_dragstart_transitions r ev0 st st1 E1 Ht) as (p & Hp & L1 & P1 & D1 & T1 & _).
  exists p. split; [done|]. cbv zeta. rewrite (event_loop_cons_ok _ _ _ _ _ E1), event_loop_app.
  destruct (transitions_moves st1 r moves p) as (W2 & N2 & P2 & D2 & T2 & L2);
    [apply Hok1 | eapply step_ok_node; eauto | done | done | done | by rewrite P1|].
  set (st2 := event_loop (drag_moves r moves) st1) in *.
  destruct (dispatch_ok st2 (DragEnd r) W2 (target_node (DragEnd r) r st2 eq_refl N2)) as (st3 & E3 & Hok3).
  destruct (konva_dragend_transitions r st2 st3 W2 N2 E3 T2 D2) as (P3 & D3 & _ & L3).
  rewrite (event_loop_cons_ok _ [] _ _ _ E3). simpl. split_and!; [| by rewrite L3 | done | apply Hok3].
  intros r'. by rewrite P3, P2, P1.
Qed.

(** The demonstration state of [Safety] with the Transitions tool. *)
Definition transitions_demo : StateManager := event_loop [SetTool Transitions] demo_state.

Lemma transitions_demo_wf : wf transitions_demo.
Proof. apply event_loop_wf; [apply demo_state_wf | vm_compute; reflexivity]. Qed.

Lemma transitions_drag_still_witness :
  exists p0, endpoint_pos transitions_demo 1 = Some p0 /\
  let st' := event_loop (DragStart 1 plain :: drag_moves 1 [(Vec 140 100, moved 40 0); (Vec 150 90, moved 10 (-10))]
                          ++ [DragEnd 1]) transitions_demo in
  (forall r', endpoint_pos st' r' = endpoint_pos transitions_demo r') /\ last_pos st' 1 = Some (Some p0)
  /\ is_dragging st' 1 = false /\ wf st'.
Proof.
  exact (transitions_drag_still transitions_demo 1 plain
           [(Vec 140 100, moved 40 0); (Vec 150 90, moved 10 (-10))] transitions_demo_wf
           ltac:(vm_compute; reflexivity) ltac:(vm_compute; reflexivity)).
Defined.

End TransitionDrag.
