(* ===== verification/Unguarded.v ===== *)
(** * Gestures the spec leaves open

    Three behaviours of the handlers of NodeWrapper.ts in situations spec
    section 4.4 and section 9 do not settle, each proved for every
    well-formed editor state:
    - the whole drawing gesture (press on a node, enter a node, release)
      adds exactly the edge between the two nodes; [onMouseEnter] does not
      exclude the source, so entering the source again draws a self-loop,
      where the spec speaks of a different node;
    - a tool switch from Transitions to Select in the middle of a gesture
      leaves the tentative transition open and logs a
      [CompleteDragStatesOperation] that no [StartDragStatesOperation]
      opened;
    - a pointer move while the tool is States (reached by a tool switch
      during a Select drag) moves the dragged node and nothing else: no
      'move' is fired, so its transitions keep their old points and the
      other selected nodes stay behind. *)

From S2P Require Import Prelude Konva Node StateManager Handlers Safety Gestures Builder Drag Snap TransitionDrag.

Module Unguarded.
Import Konva Node StateManager Handlers Safety Gestures Builder Drag Snap TransitionDrag.

(** [endTentativeTransition] always leaves the builder idle. *)
Lemma endTentativeTransition_idle st st' a :
  endTentativeTransition st = (st', Ok a) -> phase_of st' = Idle.
Proof.
  unfold endTentativeTransition. rewrite js_bind_get. intros E.
  apply js_bind_inv in E as (st1 & [] & _ & E). unfold js_modify in E. by injection E as <- _.
Qed.

(** A step of the machine into the idle phase from a drawing with a
    target is the [Finish] that adds the edge. *)
Lemma finish_step src d E s' l :
  spec_step (mkSpec (Drawing src (Some d)) E) l s' -> phase s' = Idle ->
  s' = mkSpec Idle ({[(src, d)]} ∪ E).
Proof. intros Hs Hp. inversion Hs; subst; simpl in *; congruence. Qed.

(** Hovering keeps the frame of a gesture: it changes no tool, log or
    dragging flag. *)
Lemma onMouseEnter_gkeep r : js_preserves gkeep (onMouseEnter r).
Proof. unfold onMouseEnter, enableNewConnectionGlow, set_target. gkeep_tac. Qed.

(** The drawing gesture: press on [src], enter [dst], release [src]. *)
Definition draw_gesture (src dst : positive) (ev : MouseEvent) : list UIEvent :=
  [DragStart src ev; MouseEnter dst; DragEnd src].

(** C16 (the drawing gesture adds exactly its edge): with the
    Transitions tool, pressing on a node, entering a node and releasing
    returns normally, adds the edge from the first node to the second to
    the diagram's edges, adds no other, and leaves the builder idle and the
    state well formed.  The second node may be the first one: entering
    the source again makes it the target and the release draws a
    self-loop. *)
Theorem draw_gesture_edge (st : StateManager) (src dst : positive) (ev : MouseEvent) :
  wf st -> trans_ok st -> instanceof_node st src = true -> instanceof_node st dst = true ->
  currentTool st = Transitions ->
  let st' := event_loop (draw_gesture src dst ev) st in
  abs st' = mkSpec Idle ({[(src, dst)]} ∪ edges (abs st)) /\ wf st'.
Proof.
  intros Hwf Hok Hs Hd Ht.
  destruct (dispatch_sim st (DragStart src ev) Hwf Hok (target_node (DragStart src ev) src st eq_refl Hs))
    as (st1 & E1 & Hst1 & Hok1 & _).
  destruct (konva_dragstart_phase _ _ _ _ E1) as [Htr1 Hp1]. rewrite bool_decide_eq_true_2 in Hp1 by done.
  destruct (konva_dragstart_dragging _ _ _ _ E1 Ht) as [D1 T1].
  destruct (abs_frame _ _ Hok Hst1 Htr1) as [A1 _].
  assert (Hd1 : instanceof_node st1 dst = true) by (eapply step_ok_node; eauto).
  destruct (dispatch_sim st1 (MouseEnter dst) (proj1 Hst1) Hok1 (target_node (MouseEnter dst) dst st1 eq_refl Hd1))
    as (st2 & E2 & Hst2 & Hok2 & _).
  destruct (onMouseEnter_phase _ _ _ E2) as [Htr2 Hc2].
  rewrite T1, bool_decide_eq_true_2, in_progress_phase, Hp1 in Hc2 by done.
  destruct Hc2 as (src' & t & Hp1' & Hp2 & _). injection Hp1' as <- _.
  destruct (onMouseEnter_gkeep _ _ _ _ E2) as (_ & T2 & _ & M2).
  destruct (abs_frame _ _ Hok1 Hst2 Htr2) as [A2 _].
  assert (Hs2 : instanceof_node st2 src = true) by (do 2 (eapply step_ok_node; [eassumption|]); done).
  destruct (dispatch_sim st2 (DragEnd src) (proj1 Hst2) Hok2 (target_node (DragEnd src) src st2 eq_refl Hs2))
    as (st3 & E3 & Hst3 & _ & l & Hl3).
  pose proof (konva_dragend_cases _ _ _ E3) as Hc3.
  rewrite (marks_dragging _ _ _ (M2 src)), D1, T2, T1, bool_decide_eq_true_2 in Hc3 by done.
  destruct Hc3 as (st2' & _ & E3'). pose proof (endTentativeTransition_idle _ _ _ E3') as Hi3.
  rewrite A2, Hp2, A1 in Hl3. simpl in Hl3.
  pose proof (finish_step _ _ _ _ _ Hl3 Hi3) as A3.
  cbv zeta. unfold draw_gesture. rewrite (event_loop_cons_ok _ _ _ _ _ E1), (event_loop_cons_ok _ _ _ _ _ E2),
    (event_loop_cons_ok _ _ _ _ _ E3). simpl.
  split; [done | apply Hst3].
Qed.

(** C19 (a tool switch leaves the drawing open): pressing on a node
    with the Transitions tool, switching to the Select tool and releasing
    (snapping off) returns normally into a well-formed state in which the
    tentative transition from the node is still in progress, with no
    target, and the action log has gained exactly a
    [CompleteDragStatesOperation] at the node's position, with no
    [StartDragStatesOperation] before it. *)
Theorem tool_switch_leaves_drawing (st : StateManager) (src : positive) (ev : MouseEvent) :
  wf st -> instanceof_node st src = true -> currentTool st = Transitions -> snapToGridEnabled st = false ->
  exists p0, endpoint_pos st src = Some p0 /\
    let st' := event_loop [DragStart src ev; SetTool Select; DragEnd src] st in
    phase_of st' = Drawing src None /\ log st' = log st ++ [CompleteDragStatesOperation p0] /\ wf st'.
Proof.
  intros Hwf Hn Ht Hs.
  destruct (dispatch_ok st (DragStart src ev) Hwf (target_node (DragStart src ev) src st eq_refl Hn))
    as (st1 & E1 & Hok1).
  destruct (konva_dragstart_transitions src ev st st1 E1 Ht) as (p & Hp & _ & P1 & D1 & _ & L1 & S1).
  destruct (konva_dragstart_phase _ _ _ _ E1) as [_ Hp1]. rewrite bool_decide_eq_true_2 in Hp1 by done.
  assert (Hn1 : instanceof_node st1 src = true) by (eapply step_ok_node; eauto).
  destruct (dispatch_ok st1 (SetTool Select) (proj1 Hok1) (fun r H => ltac:(discriminate H)))
    as (st2 & E2 & Hok2).
  cbv [dispatch js_modify] in E2. injection E2 as <-. set (st2 := set_tool Select st1) in *.
  destruct (dispatch_ok st2 (DragEnd src) (proj1 Hok2) (target_node (DragEnd src) src st2 eq_refl Hn1))
    as (st3 & E3 & Hok3).
  destruct (konva_dragend_select src st2 st3 E3) as (q & Hq & L3 & _);
    [done | unfold st2; simpl; congruence | exact D1 |].
  pose proof (konva_dragend_cases _ _ _ E3) as K3.
  rewrite (bool_decide_eq_false_2 (currentTool st2 = Transitions)), andb_false_r in K3
    by (unfold st2; simpl; discriminate).
  destruct K3 as [Ph3 _].
  change (endpoint_pos st1 src = Some q) in Hq. rewrite (P1 src), Hp in Hq. injection Hq as <-.
  exists p. split; [done|]. cbv zeta.
  rewrite (event_loop_cons_ok _ _ _ _ _ E1), (event_loop_cons_ok (SetTool Select) _ st1 st2 (Ok tt) eq_refl),
    (event_loop_cons_ok _ _ _ _ _ E3). simpl.
  split_and!; [rewrite Ph3; exact Hp1 | rewrite L3; unfold st2; simpl; by rewrite L1 | apply Hok3].
Qed.

(** C20 (a move under the States tool leaves transitions stale):
    while a node is being dragged and the tool is States (which only a
    tool switch in the middle of a Select drag produces), a pointer move
    returns normally, puts the dragged node at the pointer and changes
    no other heap cell: no 'move' is fired, so the transitions on the
    node keep their old points, and the other selected nodes stay where
    they were. *)
Theorem states_dragmove_stale (st : StateManager) (r : positive) (p : Vector2d) (ev : MouseEvent) :
  wf st -> instanceof_node st r = true -> currentTool st = States -> is_dragging st r = true ->
  exists st', dispatch (DragMove r p ev) st = (st', Ok tt) /\ endpoint_pos st' r = Some p
    /\ forall r', r' <> r -> heap st' !! r' = heap st !! r'.
Proof.
  intros Hwf Hn Ht Hd.
  destruct (setPosition_at st r p Hwf Hn) as (st1 & E1 & _ & Q1 & P1 & _).
  exists st1. split_and!; [| done |].
  - change (konva_dragmove r p ev st = (st1, Ok tt)). unfold konva_dragmove.
    rewrite js_bind_get, Hd, (js_bind_ok _ _ _ _ _ E1). unfold onDragMove.
    by rewrite js_bind_get, (quiet_tool _ _ Q1), Ht.
  - intros r' Hne. destruct (call_node_inv _ _ _ _ _ E1) as (n & n' & _ & _ & ->). simpl.
    by rewrite lookup_insert_ne.
Qed.

(** ** Witnesses *)

Lemma draw_gesture_edge_witness :
  let st' := event_loop (draw_gesture 1 1 plain) transitions_demo in
  abs st' = mkSpec Idle ({[(1%positive, 1%positive)]} ∪ edges (abs transitions_demo)) /\ wf st'.
Proof.
  assert (Hok : trans_ok transitions_demo) by (apply trans_ok_nil; vm_compute; reflexivity).
  exact (draw_gesture_edge transitions_demo 1 1 plain transitions_demo_wf Hok
           ltac:(vm_compute; reflexivity) ltac:(vm_compute; reflexivity) ltac:(vm_compute; reflexivity)).
Defined.

Lemma tool_switch_leaves_drawing_witness :
  exists p0, endpoint_pos transitions_demo 1 = Some p0 /\
    let st' := event_loop [DragStart 1 plain; SetTool Select; DragEnd 1] transitions_demo in
    phase_of st' = Drawing 1 None /\ log st' = log transitions_demo ++ [CompleteDragStatesOperation p0]
    /\ wf st'.
Proof.
  exact (tool_switch_leaves_drawing transitions_demo 1 plain transitions_demo_wf
           ltac:(vm_compute; reflexivity) ltac:(vm_compute; reflexivity) ltac:(vm_compute; reflexivity)).
Defined.

(** The demonstration state (q0 dragged with the Select tool) after a
    switch to the States tool. *)
Definition states_demo : StateManager := event_loop [SetTool States] demo_state.

Lemma states_demo_wf : wf states_demo.
Proof. apply event_loop_wf; [apply demo_state_wf | vm_compute; reflexivity]. Qed.

Lemma states_dragmove_stale_witness :
  exists st', dispatch (DragMove 1 (Vec 140 100) (moved 40 0)) states_demo = (st', Ok tt)
    /\ endpoint_pos st' 1 = Some (Vec 140 100)
    /\ forall r', r' <> 1%positive -> heap st' !! r' = heap states_demo !! r'.
Proof.
  exact (states_dragmove_stale states_demo 1 (Vec 140 100) (moved 40 0) states_demo_wf
           ltac:(vm_compute; reflexivity) ltac:(vm_compute; reflexivity) ltac:(vm_compute; reflexivity)).
Defined.

End Unguarded.
